(** * Quantum State Manager: snapshot checksums, validation, capture,
      migration, backup rotation and the optimisation pass

    A shallow embedding of [scripts/quantum/quantum-state-manager.py], and
    of [_deep_merge] of [scripts/quantum/quantum-state-config.py].

    Python values are modelled as follows.
    - JSON-shaped data (what [json.loads] returns and [json.dumps] accepts)
      is the inductive type [json].  A Python [dict] is an association list
      in insertion order; its keys are strings and are pairwise distinct
      ([wf_json]).  Numbers are Python [int]s; floats are outside the model.
    - A Python [str] is a [string]; a character stands for the code point
      of the same number (0..255).
    - [None] is [JNull].  The query adapter [_run_hyprctl_command] returns
      [None] when the command fails, so an absent topic is [JNull] as well.
    - A Python exception is the left injection of [result].
    - The optimisation pass mutates dictionaries that the input snapshot
      still references; it is modelled over an explicit object store
      (Module [Heap]).
    - What the operating system answers (the files under [/proc], a
      directory listing, the clock, the probes for browser profiles) is an
      argument of the function that asks for it; a handler of an event
      callback is a function that returns or raises. *)

From Stdlib Require Import ZArith List String Ascii Bool Lia Arith.
From Stdlib Require Import Permutation Sorted DecimalString DecimalZ.
Import ListNotations.

Open Scope string_scope.
Open Scope Z_scope.

(** ** Exceptions *)

Inductive exn : Type :=
| TypeError
| AttributeError
| KeyError
| OSError.

Definition result (A : Type) : Type := (exn + A)%type.

Definition ret {A : Type} (a : A) : result A := inr a.
Definition raise {A : Type} (e : exn) : result A := inl e.
Definition bind {A B : Type} (m : result A) (k : A -> result B) : result B :=
  match m with
  | inl e => inl e
  | inr a => k a
  end.

Declare Scope result_scope.
Delimit Scope result_scope with result.
Notation "x <- m ;; k" := (bind m (fun x => k))
  (at level 61, m at next level, right associativity) : result_scope.
Open Scope result_scope.

Fixpoint mapM {A B : Type} (f : A -> result B) (l : list A) : result (list B) :=
  match l with
  | [] => ret []
  | x :: r => y <- f x ;; ys <- mapM f r ;; ret (y :: ys)
  end.

(** ** JSON-shaped Python values *)

#[local] Set Warnings "-register-all".

Inductive json : Type :=
| JNull
| JBool (b : bool)
| JInt (z : Z)
| JStr (s : string)
| JList (l : list json)
| JDict (d : list (string * json)).

Definition items : Type := list (string * json).

(** Keys of a dictionary are pairwise distinct, at every depth. *)
Fixpoint wf_json (j : json) : Prop :=
  match j with
  | JList l => (fix all (l : list json) : Prop :=
                  match l with
                  | [] => True
                  | x :: r => wf_json x /\ all r
                  end) l
  | JDict d => NoDup (map fst d) /\
               (fix all (d : items) : Prop :=
                  match d with
                  | [] => True
                  | (_, v) :: r => wf_json v /\ all r
                  end) d
  | _ => True
  end.

(** Induction on a JSON value, with the hypothesis for every element of a
    list and every value of a dictionary. *)
Section JsonInduction.

Variable P : json -> Prop.
Hypothesis HNull : P JNull.
Hypothesis HBool : forall b, P (JBool b).
Hypothesis HInt : forall z, P (JInt z).
Hypothesis HStr : forall s, P (JStr s).
Hypothesis HList : forall l, Forall P l -> P (JList l).
Hypothesis HDict : forall d, Forall (fun kv => P (snd kv)) d -> P (JDict d).

Fixpoint json_ind' (j : json) : P j :=
  match j with
  | JNull => HNull
  | JBool b => HBool b
  | JInt z => HInt z
  | JStr s => HStr s
  | JList l =>
      HList l ((fix all (l : list json) : Forall P l :=
                  match l with
                  | [] => Forall_nil _
                  | x :: r => Forall_cons x (json_ind' x) (all r)
                  end) l)
  | JDict d =>
      HDict d ((fix all (d : items) : Forall (fun kv => P (snd kv)) d :=
                  match d with
                  | [] => Forall_nil _
                  | kv :: r => Forall_cons kv (json_ind' (snd kv)) (all r)
                  end) d)
  end.

End JsonInduction.

(** [d[k]] / [d.get(k)] on the items of a dictionary. *)
Fixpoint lookup {A : Type} (k : string) (d : list (string * A)) : option A :=
  match d with
  | [] => None
  | (k', v) :: r => if String.eqb k k' then Some v else lookup k r
  end.

(** [k in d] *)
Definition contains {A : Type} (k : string) (d : list (string * A)) : bool :=
  match lookup k d with Some _ => true | None => false end.

(** [d[k] = v]: an existing key keeps its position, a new key is appended. *)
Fixpoint setitem {A : Type} (k : string) (v : A) (d : list (string * A))
  : list (string * A) :=
  match d with
  | [] => [(k, v)]
  | (k', v') :: r =>
      if String.eqb k k' then (k, v) :: r else (k', v') :: setitem k v r
  end.

(** [d.pop(k, None)], keeping the remaining dictionary. *)
Fixpoint popitem {A : Type} (k : string) (d : list (string * A))
  : list (string * A) :=
  match d with
  | [] => []
  | (k', v') :: r => if String.eqb k k' then r else (k', v') :: popitem k r
  end.

(** [x.get(k, default)]: only dictionaries have [get]. *)
Definition get_default (x : json) (k : string) (default : json) : result json :=
  match x with
  | JDict d => ret (match lookup k d with Some v => v | None => default end)
  | _ => raise AttributeError
  end.

(** [x.get(k)] *)
Definition get (x : json) (k : string) : result json := get_default x k JNull.

(** Truth value of a Python object. *)
Definition truthy (x : json) : bool :=
  match x with
  | JNull => false
  | JBool b => b
  | JInt z => negb (z =? 0)
  | JStr s => match s with EmptyString => false | _ => true end
  | JList l => match l with [] => false | _ => true end
  | JDict d => match d with [] => false | _ => true end
  end.

(** [x or y] *)
Definition py_or (x y : json) : json := if truthy x then x else y.

(** [len(x)] *)
Definition py_len (x : json) : result Z :=
  match x with
  | JStr s => ret (Z.of_nat (String.length s))
  | JList l => ret (Z.of_nat (List.length l))
  | JDict d => ret (Z.of_nat (List.length d))
  | _ => raise TypeError
  end.

Fixpoint chars (s : string) : list json :=
  match s with
  | EmptyString => []
  | String c r => JStr (String c EmptyString) :: chars r
  end.

(** [for x in v]: the sequence of values the loop variable takes. *)
Definition py_iter (v : json) : result (list json) :=
  match v with
  | JList l => ret l
  | JDict d => ret (map (fun kv => JStr (fst kv)) d)
  | JStr s => ret (chars s)
  | _ => raise TypeError
  end.

(** [bool] is a subclass of [int]: [True] counts as 1 and [False] as 0. *)
Definition as_number (x : json) : option Z :=
  match x with
  | JBool b => Some (if b then 1 else 0)
  | JInt z => Some z
  | _ => None
  end.

(** [x == y] *)
Fixpoint py_eq (x y : json) {struct x} : bool :=
  match x, y with
  | JNull, JNull => true
  | JStr s, JStr t => String.eqb s t
  | JList l, JList m =>
      (fix go (l m : list json) {struct l} : bool :=
         match l, m with
         | [], [] => true
         | a :: l', b :: m' => py_eq a b && go l' m'
         | _, _ => false
         end) l m
  | JDict d, JDict e =>
      (List.length d =? List.length e)%nat &&
      (fix go (d : items) {struct d} : bool :=
         match d with
         | [] => true
         | (k, v) :: d' =>
             match lookup k e with
             | Some w => py_eq v w && go d'
             | None => false
             end
         end) d
  | (JBool _ | JInt _), (JBool _ | JInt _) =>
      match as_number x, as_number y with
      | Some a, Some b => a =? b
      | _, _ => false
      end
  | _, _ => false
  end.

(** [x < n] for an integer literal [n]; other operand types do not order
    against [int]. *)
Definition py_lt_int (x : json) (n : Z) : result bool :=
  match as_number x with
  | Some a => ret (a <? n)
  | None => raise TypeError
  end.

(** ** [json.dumps(value, sort_keys=True)] *)

Definition dquote : ascii := ascii_of_N 34.
Definition backslash : ascii := ascii_of_N 92.

Definition hex_digit (n : N) : ascii :=
  ascii_of_N (if (n <? 10)%N then 48 + n else 87 + n)%N.

(** One character of a string under [ensure_ascii=True]. *)
Definition escape_char (c : ascii) : string :=
  let n := N_of_ascii c in
  if (n =? 34)%N then String backslash (String dquote EmptyString)
  else if (n =? 92)%N then String backslash (String backslash EmptyString)
  else if (n =? 10)%N then String backslash "n"
  else if (n =? 13)%N then String backslash "r"
  else if (n =? 9)%N then String backslash "t"
  else if (n =? 8)%N then String backslash "b"
  else if (n =? 12)%N then String backslash "f"
  else if ((32 <=? n) && (n <=? 126))%N then String c EmptyString
  else String backslash (String "u" (String "0" (String "0"
         (String (hex_digit (n / 16)) (String (hex_digit (n mod 16)) EmptyString))))).

Fixpoint escape (s : string) : string :=
  match s with
  | EmptyString => EmptyString
  | String c r => escape_char c ++ escape r
  end.

Definition encode_basestring_ascii (s : string) : string :=
  String dquote (escape s ++ String dquote EmptyString).

(** [str(n)] for an integer. *)
Definition str_of_Z (z : Z) : string := NilZero.string_of_int (Z.to_int z).

Fixpoint join (sep : string) (l : list string) : string :=
  match l with
  | [] => EmptyString
  | [x] => x
  | x :: r => x ++ sep ++ join sep r
  end.

(** [sorted] on the items of a dictionary: keys are distinct, so items are
    ordered by key alone (code point order). *)
Fixpoint insert_item {A : Type} (x : string * A) (l : list (string * A)) : list (string * A) :=
  match l with
  | [] => [x]
  | y :: r => if String.leb (fst x) (fst y) then x :: y :: r else y :: insert_item x r
  end.

Fixpoint sort_items {A : Type} (l : list (string * A)) : list (string * A) :=
  match l with
  | [] => []
  | x :: r => insert_item x (sort_items r)
  end.

Definition dump_item (kv : string * string) : string :=
  encode_basestring_ascii (fst kv) ++ ": " ++ snd kv.

(** The text [json.dumps(j, sort_keys=True)] returns, with the default
    separators and [ensure_ascii]. *)
Fixpoint dumps (j : json) : string :=
  match j with
  | JNull => "null"
  | JBool true => "true"
  | JBool false => "false"
  | JInt z => str_of_Z z
  | JStr s => encode_basestring_ascii s
  | JList l =>
      "[" ++ join ", " ((fix each (l : list json) : list string :=
                           match l with
                           | [] => []
                           | x :: r => dumps x :: each r
                           end) l) ++ "]"
  | JDict d =>
      "{" ++ join ", " (map dump_item (sort_items
                ((fix each (d : items) : list (string * string) :=
                    match d with
                    | [] => []
                    | (k, v) :: r => (k, dumps v) :: each r
                    end) d))) ++ "}"
  end.

(** ** [str.encode()]: UTF-8 *)

Definition utf8_char (c : ascii) : list Z :=
  let n := Z.of_N (N_of_ascii c) in
  if n <? 128 then [n]
  else [Z.lor 192 (Z.shiftr n 6); Z.lor 128 (Z.land n 63)].

Fixpoint encode (s : string) : list Z :=
  match s with
  | EmptyString => []
  | String c r => utf8_char c ++ encode r
  end.

(** ** [hashlib.md5] (RFC 1321) *)

Module MD5.

Definition mask32 (x : Z) : Z := Z.land x 4294967295.

Definition add32 (x y : Z) : Z := mask32 (x + y).

Definition rotl32 (x : Z) (n : Z) : Z :=
  mask32 (Z.lor (Z.shiftl x n) (Z.shiftr x (32 - n))).

Definition not32 (x : Z) : Z := Z.lxor x 4294967295.

Definition K : list Z :=
  [ 0xd76aa478; 0xe8c7b756; 0x242070db; 0xc1bdceee;
    0xf57c0faf; 0x4787c62a; 0xa8304613; 0xfd469501;
    0x698098d8; 0x8b44f7af; 0xffff5bb1; 0x895cd7be;
    0x6b901122; 0xfd987193; 0xa679438e; 0x49b40821;
    0xf61e2562; 0xc040b340; 0x265e5a51; 0xe9b6c7aa;
    0xd62f105d; 0x02441453; 0xd8a1e681; 0xe7d3fbc8;
    0x21e1cde6; 0xc33707d6; 0xf4d50d87; 0x455a14ed;
    0xa9e3e905; 0xfcefa3f8; 0x676f02d9; 0x8d2a4c8a;
    0xfffa3942; 0x8771f681; 0x6d9d6122; 0xfde5380c;
    0xa4beea44; 0x4bdecfa9; 0xf6bb4b60; 0xbebfbc70;
    0x289b7ec6; 0xeaa127fa; 0xd4ef3085; 0x04881d05;
    0xd9d4d039; 0xe6db99e5; 0x1fa27cf8; 0xc4ac5665;
    0xf4292244; 0x432aff97; 0xab9423a7; 0xfc93a039;
    0x655b59c3; 0x8f0ccc92; 0xffeff47d; 0x85845dd1;
    0x6fa87e4f; 0xfe2ce6e0; 0xa3014314; 0x4e0811a1;
    0xf7537e82; 0xbd3af235; 0x2ad7d2bb; 0xeb86d391 ].

Definition S : list Z :=
  [ 7; 12; 17; 22; 7; 12; 17; 22; 7; 12; 17; 22; 7; 12; 17; 22;
    5; 9; 14; 20; 5; 9; 14; 20; 5; 9; 14; 20; 5; 9; 14; 20;
    4; 11; 16; 23; 4; 11; 16; 23; 4; 11; 16; 23; 4; 11; 16; 23;
    6; 10; 15; 21; 6; 10; 15; 21; 6; 10; 15; 21; 6; 10; 15; 21 ].

Record state : Type := mkState { sa : Z; sb : Z; sc : Z; sd : Z }.

Definition init : state :=
  mkState 0x67452301 0xefcdab89 0x98badcfe 0x10325476.

(** Little-endian 32-bit words of a byte sequence. *)
Fixpoint words (bs : list Z) : list Z :=
  match bs with
  | b0 :: b1 :: b2 :: b3 :: r =>
      (b0 + Z.shiftl b1 8 + Z.shiftl b2 16 + Z.shiftl b3 24) :: words r
  | _ => []
  end.

Definition word_bytes (w : Z) : list Z :=
  [ Z.land w 255; Z.land (Z.shiftr w 8) 255;
    Z.land (Z.shiftr w 16) 255; Z.land (Z.shiftr w 24) 255 ].

(** Padding: a one bit, zeros up to 56 modulo 64, then the bit length on
    64 bits, little endian. *)
Definition pad (msg : list Z) : list Z :=
  let n := Z.of_nat (List.length msg) in
  let zeros := Z.to_nat ((55 - n) mod 64) in
  let bits := Z.land (8 * n) 0xffffffffffffffff in
  msg ++ [128] ++ repeat 0 zeros
      ++ word_bytes (mask32 bits) ++ word_bytes (Z.shiftr bits 32).

Definition round (M : list Z) (i : nat) (st : state) : state :=
  let '(mkState a b c d) := st in
  let iz := Z.of_nat i in
  let '(f, g) :=
    if iz <? 16 then (Z.lor (Z.land b c) (Z.land (not32 b) d), iz)
    else if iz <? 32 then (Z.lor (Z.land d b) (Z.land (not32 d) c), (5 * iz + 1) mod 16)
    else if iz <? 48 then (Z.lxor (Z.lxor b c) d, (3 * iz + 5) mod 16)
    else (Z.lxor c (Z.lor b (not32 d)), (7 * iz) mod 16) in
  let f' := add32 (add32 (add32 f a) (nth i K 0)) (nth (Z.to_nat g) M 0) in
  mkState d (add32 b (rotl32 f' (nth i S 0))) b c.

Definition compress (st : state) (M : list Z) : state :=
  let st' := fold_left (fun s i => round M i s) (seq 0 64) st in
  mkState (add32 (sa st) (sa st')) (add32 (sb st) (sb st'))
          (add32 (sc st) (sc st')) (add32 (sd st) (sd st')).

(** The 16-word blocks of a padded message. *)
Fixpoint blocks (fuel : nat) (ws : list Z) : list (list Z) :=
  match fuel, ws with
  | Datatypes.S fuel', _ :: _ => firstn 16 ws :: blocks fuel' (skipn 16 ws)
  | _, _ => []
  end.

Definition digest_state (msg : list Z) : state :=
  let ws := words (pad msg) in
  fold_left compress (blocks (List.length ws) ws) init.

(** The sixteen bytes of the digest: the four words, little endian. *)
Definition digest_bytes (msg : list Z) : list Z :=
  let st := digest_state msg in
  word_bytes (sa st) ++ word_bytes (sb st) ++ word_bytes (sc st) ++ word_bytes (sd st).

Definition hex_byte (b : Z) : string :=
  String (hex_digit (Z.to_N (Z.shiftr b 4)))
    (String (hex_digit (Z.to_N (Z.land b 15))) EmptyString).

Definition hexdigest (msg : list Z) : string :=
  concat EmptyString (map hex_byte (digest_bytes msg)).

End MD5.

(** ** [_generate_state_checksum] *)

Definition _generate_state_checksum (state_data : json) : string :=
  let state_str := dumps state_data in
  MD5.hexdigest (encode state_str).

(** ** The snapshot *)

Record QuantumState : Type := mkQuantumState {
  timestamp : string;
  session_id : string;
  monitor_layouts : json;
  workspace_states : json;
  window_states : json;
  application_contexts : json;
  terminal_sessions : json;
  browser_sessions : json;
  development_environments : json;
  system_state : json;
  validation_checksums : list (string * string)
}.

Definition checksums_json (c : list (string * string)) : json :=
  JDict (map (fun kv => (fst kv, JStr (snd kv))) c).

(** [dataclasses.asdict(state)] *)
Definition asdict (state : QuantumState) : items :=
  [ ("timestamp", JStr (timestamp state));
    ("session_id", JStr (session_id state));
    ("monitor_layouts", monitor_layouts state);
    ("workspace_states", workspace_states state);
    ("window_states", window_states state);
    ("application_contexts", application_contexts state);
    ("terminal_sessions", terminal_sessions state);
    ("browser_sessions", browser_sessions state);
    ("development_environments", development_environments state);
    ("system_state", system_state state);
    ("validation_checksums", checksums_json (validation_checksums state)) ].

(** The [components] dictionary of [generate_validation_checksums]. *)
Definition components (state : QuantumState) : items :=
  [ ("monitor_layouts", monitor_layouts state);
    ("workspace_states", workspace_states state);
    ("window_states", window_states state);
    ("application_contexts", application_contexts state);
    ("terminal_sessions", terminal_sessions state);
    ("browser_sessions", browser_sessions state);
    ("development_environments", development_environments state);
    ("system_state", system_state state) ].

Definition generate_validation_checksums (state : QuantumState)
  : list (string * string) :=
  let checksums :=
    fold_left (fun checksums cd =>
                 setitem (fst cd) (_generate_state_checksum (snd cd)) checksums)
              (components state) [] in
  let state_dict := asdict state in
  let state_dict := popitem "validation_checksums" state_dict in
  setitem "overall" (_generate_state_checksum (JDict state_dict)) checksums.

(** [a != b] on a looked-up digest ([None] when the key is missing). *)
Definition differs (a b : option string) : bool :=
  match a, b with
  | Some x, Some y => negb (String.eqb x y)
  | None, None => false
  | _, _ => true
  end.

(** The loop over [state.validation_checksums.items()]: [false] as soon as
    a stored component digest differs from the recomputed one. *)
Fixpoint components_agree (current_checksums stored : list (string * string)) : bool :=
  match stored with
  | [] => true
  | (component, expected_checksum) :: rest =>
      if negb (String.eqb component "overall") then
        let current_checksum := lookup component current_checksums in
        if differs current_checksum (Some expected_checksum) then false
        else components_agree current_checksums rest
      else components_agree current_checksums rest
  end.

Definition _validate_state_checksums (state : QuantumState) : bool :=
  let current_checksums := generate_validation_checksums state in
  if components_agree current_checksums (validation_checksums state) then
    let overall_expected := lookup "overall" (validation_checksums state) in
    let overall_current := lookup "overall" current_checksums in
    if differs overall_expected overall_current then false else true
  else false.

(** [quantum_state.validation_checksums = generate_validation_checksums(quantum_state)] *)
Definition set_validation_checksums (c : list (string * string)) (s : QuantumState)
  : QuantumState :=
  mkQuantumState (timestamp s) (session_id s) (monitor_layouts s)
    (workspace_states s) (window_states s) (application_contexts s)
    (terminal_sessions s) (browser_sessions s) (development_environments s)
    (system_state s) c.

Definition stamp (s : QuantumState) : QuantumState :=
  set_validation_checksums (generate_validation_checksums s) s.

(** ** Component capturers

    A capturer reads the query adapter; here it takes the values the
    adapter returned for the topics it queries, in the order of the calls. *)

Fixpoint filterM {A : Type} (f : A -> result bool) (l : list A) : result (list A) :=
  match l with
  | [] => ret []
  | x :: r =>
      b <- f x ;;
      ys <- filterM f r ;;
      ret (if b then x :: ys else ys)
  end.

(** [client.get("workspace", {}).get("id") == workspace_id] *)
Definition client_in_workspace (workspace_id client : json) : result bool :=
  w <- get_default client "workspace" (JDict []) ;;
  i <- get w "id" ;;
  ret (py_eq i workspace_id).

(** The lightweight reference to a client embedded in a workspace record. *)
Definition client_reference (client : json) : result json :=
  address <- get client "address" ;;
  class <- get client "class" ;;
  title <- get client "title" ;;
  initialClass <- get client "initialClass" ;;
  initialTitle <- get client "initialTitle" ;;
  ret (JDict [ ("address", address); ("class", class); ("title", title);
               ("initialClass", initialClass); ("initialTitle", initialTitle) ]).

(** One pass of the loop body of [capture_workspace_states]. *)
Definition workspace_state (clients workspace : json) : result json :=
  workspace_id <- get workspace "id" ;;
  cs <- py_iter clients ;;
  workspace_clients <- filterM (client_in_workspace workspace_id) cs ;;
  name <- get workspace "name" ;;
  monitor <- get workspace "monitor" ;;
  monitorID <- get workspace "monitorID" ;;
  windows <- get_default workspace "windows" (JInt 0) ;;
  hasfullscreen <- get_default workspace "hasfullscreen" (JBool false) ;;
  lastwindow <- get_default workspace "lastwindow" (JStr EmptyString) ;;
  lastwindowtitle <- get_default workspace "lastwindowtitle" (JStr EmptyString) ;;
  client_refs <- mapM client_reference workspace_clients ;;
  persistent <- get_default workspace "persistent" (JBool false) ;;
  special <- py_lt_int workspace_id 0 ;;
  ret (JDict [ ("id", workspace_id); ("name", name); ("monitor", monitor);
               ("monitorID", monitorID); ("windows", windows);
               ("hasfullscreen", hasfullscreen); ("lastwindow", lastwindow);
               ("lastwindowtitle", lastwindowtitle);
               ("clients", JList client_refs); ("persistent", persistent);
               ("specialWorkspace", JBool special) ]).

Definition capture_workspace_states (q_workspaces q_clients : json)
  : result (list json) :=
  let workspaces := py_or q_workspaces (JList []) in
  let clients := py_or q_clients (JList []) in
  ws <- py_iter workspaces ;;
  mapM (workspace_state clients) ws.

(** One pass of the loop body of [capture_window_states]. *)
Definition window_state (active_window client : json) : result json :=
  address <- get client "address" ;;
  class <- get client "class" ;;
  title <- get client "title" ;;
  initialClass <- get client "initialClass" ;;
  initialTitle <- get client "initialTitle" ;;
  pid <- get client "pid" ;;
  xwayland <- get_default client "xwayland" (JBool false) ;;
  pinned <- get_default client "pinned" (JBool false) ;;
  fullscreen <- get_default client "fullscreen" (JBool false) ;;
  fullscreenMode <- get_default client "fullscreenMode" (JInt 0) ;;
  fakeFullscreen <- get_default client "fakeFullscreen" (JBool false) ;;
  floating <- get_default client "floating" (JBool false) ;;
  monitor <- get client "monitor" ;;
  workspace <- get_default client "workspace" (JDict []) ;;
  at_ <- get_default client "at" (JList [JInt 0; JInt 0]) ;;
  size <- get_default client "size" (JList [JInt 0; JInt 0]) ;;
  focusHistoryID <- get_default client "focusHistoryID" (JInt 0) ;;
  address' <- get client "address" ;;
  active_address <- get active_window "address" ;;
  ret (JDict [ ("address", address); ("class", class); ("title", title);
               ("initialClass", initialClass); ("initialTitle", initialTitle);
               ("pid", pid); ("xwayland", xwayland); ("pinned", pinned);
               ("fullscreen", fullscreen); ("fullscreenMode", fullscreenMode);
               ("fakeFullscreen", fakeFullscreen); ("floating", floating);
               ("monitor", monitor); ("workspace", workspace); ("at", at_);
               ("size", size); ("focusHistoryID", focusHistoryID);
               ("active", JBool (py_eq address' active_address)) ]).

Definition capture_window_states (q_clients q_activewindow : json)
  : result (list json) :=
  let clients := py_or q_clients (JList []) in
  let active_window := py_or q_activewindow (JDict []) in
  cs <- py_iter clients ;;
  mapM (window_state active_window) cs.

(** ** Development-environment detection *)

Definition slash : ascii := ascii_of_N 47.

Fixpoint basename_from (p cur : string) : string :=
  match p with
  | EmptyString => cur
  | String c r =>
      if Ascii.eqb c slash then basename_from r EmptyString
      else basename_from r (cur ++ String c EmptyString)
  end.

(** [os.path.basename]: what follows the last slash. *)
Definition basename (p : string) : string := basename_from p EmptyString.

Definition _detect_development_environments (env_vars : list (string * string))
  : list json :=
  let environments := [] in
  let environments :=
    match lookup "CONDA_DEFAULT_ENV" env_vars with
    | Some v => (environments ++ [JDict [ ("type", JStr "conda"); ("name", JStr v);
                                        ("active", JBool true) ]])%list
    | None => environments
    end in
  let environments :=
    match lookup "VIRTUAL_ENV" env_vars with
    | Some v => (environments ++ [JDict [ ("type", JStr "venv");
                                        ("name", JStr (basename v));
                                        ("path", JStr v);
                                        ("active", JBool true) ]])%list
    | None => environments
    end in
  let environments :=
    match lookup "PYENV_VERSION" env_vars with
    | Some v => (environments ++ [JDict [ ("type", JStr "pyenv"); ("name", JStr v);
                                        ("active", JBool true) ]])%list
    | None => environments
    end in
  let environments :=
    match lookup "NODE_ENV" env_vars with
    | Some v => (environments ++ [JDict [ ("type", JStr "node");
                                        ("environment", JStr v);
                                        ("active", JBool true) ]])%list
    | None => environments
    end in
  environments.

(** ** Compatibility check

    [validate_state_compatibility] captures the live monitors, workspaces
    and system state anew.  [live] holds what the compositor and the
    operating system answer at that time: the outcome of
    [capture_monitor_layouts] and of [capture_system_state] (a list of
    records, a record, or the exception raised; they hold floats and
    operating-system figures the check never looks into), and the
    [workspaces] and [clients] topics that [capture_workspace_states]
    reads. *)

Record live : Type := mkLive {
  live_monitor_layouts : result (list json);
  live_workspaces : json;
  live_clients : json;
  live_system_state : result json
}.

Definition validate_state_compatibility (env : live) (state : QuantumState) : bool :=
  let body : result bool :=
    current_monitors <- live_monitor_layouts env ;;
    let n_cur := Z.of_nat (List.length current_monitors) in
    n_old <- py_len (monitor_layouts state) ;;
    if negb (n_cur =? n_old) then ret false
    else
      current_workspaces <-
        capture_workspace_states (live_workspaces env) (live_clients env) ;;
      let w_cur := Z.of_nat (List.length current_workspaces) in
      w_old <- py_len (workspace_states state) ;;
      if w_cur <? w_old then ret false
      else
        current_system <- live_system_state env ;;
        ret true in
  match body with
  | inr b => b
  | inl _ => false
  end.

(** ** Legacy migration

    [legacy_data] is what [json.load] read from the legacy file; [iso_now]
    is [datetime.now().isoformat()] and [unix_now] is [int(time.time())]. *)

Definition migrate_legacy_state (legacy_data : json) (iso_now : string) (unix_now : Z)
  : result QuantumState :=
  monitors <- get_default legacy_data "monitors" (JList []) ;;
  workspaces <- get_default legacy_data "workspaces" (JList []) ;;
  windows <- get_default legacy_data "windows" (JList []) ;;
  applications <- get_default legacy_data "applications" (JList []) ;;
  terminals <- get_default legacy_data "terminals" (JList []) ;;
  browsers <- get_default legacy_data "browsers" (JList []) ;;
  environments <- get_default legacy_data "environments" (JList []) ;;
  system <- get_default legacy_data "system" (JDict []) ;;
  let quantum_state :=
    mkQuantumState iso_now ("migrated_" ++ str_of_Z unix_now)
      monitors workspaces windows applications terminals browsers
      environments system [] in
  ret (set_validation_checksums
         (generate_validation_checksums quantum_state) quantum_state).

(** ** Backups

    The backup directory is the list of its entries (files, and whatever
    else has a name there), in the order [os.listdir] reports them, each
    with the creation stamp [os.path.getctime] reads.  Names are distinct.

    The operating system can refuse a call: [faults] tells when
    [os.listdir] of the backup directory raises, for which entries
    [os.path.getctime] raises (a dangling link), for which entries
    [os.remove] raises (a sub-directory, an entry that may not be
    deleted), and how [shutil.copy2] ends for a destination. *)

Definition directory : Type := list (string * Z).

(** [shutil.copy2] returns, or raises before the destination exists (no
    source, a directory that cannot be written), or raises with the
    destination already created (the disk is full, the attributes cannot
    be copied). *)
Inductive copy_end : Type :=
| Copied
| NotCopied
| PartlyCopied.

Record faults : Type := mkFaults {
  listdir_fails : bool;
  getctime_fails : string -> bool;
  remove_fails : string -> bool;
  copy2_ends : string -> copy_end
}.

(** [shutil.copy2(state_path, backup_path)]: an entry of that name is
    created or replaced, and carries the stamp of the copy.  The
    directory is returned with the outcome, since a copy that raises may
    have created the entry. *)
Definition copy2 (os : faults) (backup_name : string) (ctime : Z) (dir : directory)
  : result unit * directory :=
  match copy2_ends os backup_name with
  | Copied => (ret tt, setitem backup_name ctime dir)
  | PartlyCopied => (raise OSError, setitem backup_name ctime dir)
  | NotCopied => (raise OSError, dir)
  end.

(** [os.remove]: raises when the system refuses, or when there is no such
    entry. *)
Definition remove (os : faults) (file_path : string) (dir : directory)
  : result directory :=
  if remove_fails os file_path || negb (contains file_path dir) then raise OSError
  else ret (popitem file_path dir).

(** [list.sort(key=lambda x: x[1])]: stable, ascending in the stamp. *)
Fixpoint insert_by_ctime (x : string * Z) (l : list (string * Z)) : list (string * Z) :=
  match l with
  | [] => [x]
  | y :: r => if snd x <=? snd y then x :: y :: r else y :: insert_by_ctime x r
  end.

Fixpoint sort_by_ctime (l : list (string * Z)) : list (string * Z) :=
  match l with
  | [] => []
  | x :: r => insert_by_ctime x (sort_by_ctime r)
  end.

(** The loop [for file_path, _ in files_to_remove: os.remove(file_path)]
    inside the [try] of [_cleanup_old_backups]: the first removal that
    raises ends the loop, and what was removed before stays removed. *)
Fixpoint remove_files (os : faults) (files_to_remove : list (string * Z))
    (dir : directory) : directory :=
  match files_to_remove with
  | [] => dir
  | f :: rest =>
      match remove os (fst f) dir with
      | inr dir' => remove_files os rest dir'
      | inl _ => dir
      end
  end.

(** [_cleanup_old_backups]: everything runs inside one [try]; when the
    listing or a stamp cannot be read, nothing is removed. *)
Definition _cleanup_old_backups (os : faults) (max_backups : Z) (dir : directory)
  : directory :=
  if listdir_fails os then dir
  else
    let listed := filter (fun f => String.prefix "backup_" (fst f)) dir in
    if existsb (fun f => getctime_fails os (fst f)) listed then dir
    else
      let backup_files := sort_by_ctime listed in
      let n := Z.of_nat (List.length backup_files) in
      if n >? max_backups then
        let files_to_remove := firstn (Z.to_nat (n - max_backups)) backup_files in
        remove_files os files_to_remove dir
      else dir.

(** One call of [save_quantum_state] as the backup directory sees it:
    [filename] is the name of the state file, [unix_now] is
    [int(time.time())] when the backup is named, and [ctime] the stamp the
    file system gives the copy. *)
Record save_event : Type := mkSave {
  filename : string;
  unix_now : Z;
  ctime : Z
}.

Definition backup_name (e : save_event) : string :=
  "backup_" ++ basename (filename e) ++ "_" ++ str_of_Z (unix_now e).

(** [_create_backup]: the copy and the cleanup run inside one [try]; when
    the copy raises, the cleanup is not run. *)
Definition _create_backup (os : faults) (max_backups : Z) (e : save_event)
    (dir : directory) : directory :=
  match copy2 os (backup_name e) (ctime e) dir with
  | (inr _, dir) => _cleanup_old_backups os max_backups dir
  | (inl _, dir) => dir
  end.


(** ** The optimisation pass, over an object store

    [dict.copy()] is shallow and item assignment updates a dictionary in
    place, so dictionaries and lists live in a store and are named by
    their location; strings, numbers, booleans and [None] are immutable
    and stand for themselves. *)

Module Heap.

Definition loc : Type := nat.

Inductive val : Type :=
| VNone
| VBool (b : bool)
| VInt (z : Z)
| VStr (s : string)
| VRef (l : loc).

Inductive obj : Type :=
| ODict (d : list (string * val))
| OList (l : list val).

Definition heap : Type := list obj.

(** A computation reads and updates the store, or raises. *)
Definition M (A : Type) : Type := heap -> result (A * heap).

Definition mret {A : Type} (a : A) : M A := fun h => inr (a, h).
Definition mraise {A : Type} (e : exn) : M A := fun _ => inl e.
Definition mbind {A B : Type} (m : M A) (k : A -> M B) : M B :=
  fun h => match m h with
           | inl e => inl e
           | inr (a, h') => k a h'
           end.

Declare Scope heap_scope.
Delimit Scope heap_scope with heap.
Notation "x <- m ;; k" := (mbind m (fun x => k))
  (at level 61, m at next level, right associativity) : heap_scope.
Notation "m ;;; k" := (mbind m (fun _ => k))
  (at level 61, right associativity) : heap_scope.
Local Open Scope heap_scope.

Fixpoint for_each {A : Type} (l : list A) (body : A -> M unit) : M unit :=
  match l with
  | [] => mret tt
  | x :: r => body x ;;; for_each r body
  end.

Fixpoint map_each {A B : Type} (f : A -> M B) (l : list A) : M (list B) :=
  match l with
  | [] => mret []
  | x :: r => y <- f x ;; ys <- map_each f r ;; mret (y :: ys)
  end.

Fixpoint update {A : Type} (n : nat) (x : A) (l : list A) : list A :=
  match l, n with
  | [], _ => []
  | _ :: r, O => x :: r
  | y :: r, Datatypes.S n' => y :: update n' x r
  end.

(** A new object, at a location not in use. *)
Definition alloc (o : obj) : M val :=
  fun h => inr (VRef (List.length h), (h ++ [o])%list).

(** The object a value refers to, if it refers to one. *)
Definition deref (v : val) : M (option (loc * obj)) :=
  fun h => match v with
           | VRef l => match nth_error h l with
                       | Some o => inr (Some (l, o), h)
                       | None => inr (None, h)
                       end
           | _ => inr (None, h)
           end.

Definition store (l : loc) (o : obj) : M unit :=
  fun h => inr (tt, update l o h).

(** [x.copy()]: a new object with the same items, which are shared. *)
Definition copy (x : val) : M val :=
  r <- deref x ;;
  match r with
  | Some (_, o) => alloc o
  | None => mraise AttributeError
  end.

Fixpoint is_substring (k s : string) : bool :=
  String.prefix k s ||
  match s with
  | EmptyString => false
  | String _ r => is_substring k r
  end.

Definition is_str (k : string) (v : val) : bool :=
  match v with
  | VStr s => String.eqb s k
  | _ => false
  end.

(** [k in x] for a string [k] *)
Definition py_in (k : string) (x : val) : M bool :=
  r <- deref x ;;
  match r, x with
  | Some (_, ODict d), _ => mret (contains k d)
  | Some (_, OList l), _ => mret (existsb (is_str k) l)
  | None, VStr s => mret (is_substring k s)
  | None, _ => mraise TypeError
  end.

(** [x[k]] for a string [k] *)
Definition getitem (x : val) (k : string) : M val :=
  r <- deref x ;;
  match r with
  | Some (_, ODict d) =>
      match lookup k d with
      | Some v => mret v
      | None => mraise KeyError
      end
  | _ => mraise TypeError
  end.

(** [x[k] = v] for a string [k] *)
Definition assign (x : val) (k : string) (v : val) : M unit :=
  r <- deref x ;;
  match r with
  | Some (l, ODict d) => store l (ODict (setitem k v d))
  | _ => mraise TypeError
  end.

(** [isinstance(x, dict)] and [isinstance(x, list)] *)
Definition is_dict (x : val) : M bool :=
  r <- deref x ;;
  mret match r with Some (_, ODict _) => true | _ => false end.

Definition is_list (x : val) : M bool :=
  r <- deref x ;;
  mret match r with Some (_, OList _) => true | _ => false end.

(** [x.items()] *)
Definition dict_items (x : val) : M (list (string * val)) :=
  r <- deref x ;;
  match r with
  | Some (_, ODict d) => mret d
  | _ => mraise AttributeError
  end.

Fixpoint str_chars (s : string) : list val :=
  match s with
  | EmptyString => []
  | String c r => VStr (String c EmptyString) :: str_chars r
  end.

(** [for y in x] *)
Definition iter (x : val) : M (list val) :=
  r <- deref x ;;
  match r, x with
  | Some (_, OList l), _ => mret l
  | Some (_, ODict d), _ => mret (map (fun kv => VStr (fst kv)) d)
  | None, VStr s => mret (str_chars s)
  | None, _ => mraise TypeError
  end.

(** [x.append(v)] *)
Definition append (x v : val) : M unit :=
  r <- deref x ;;
  match r with
  | Some (l, OList vs) => store l (OList (vs ++ [v])%list)
  | _ => mraise AttributeError
  end.

(** [os.path.basename(f)] *)
Definition path_basename (f : val) : M val :=
  match f with
  | VStr s => mret (VStr (basename s))
  | _ => mraise TypeError
  end.

Fixpoint endswith (s suffix : string) : bool :=
  String.eqb s suffix ||
  match s with
  | EmptyString => false
  | String _ r => endswith r suffix
  end.

(** The body of the loop of [_optimize_application_contexts]. *)
Definition optimize_context (context : val) : M val :=
  optimized_context <- copy context ;;
  has_session_data <- py_in "session_data" optimized_context ;;
  (if has_session_data then
     session_data <- getitem optimized_context "session_data" ;;
     session_is_dict <- is_dict session_data ;;
     if session_is_dict then
       keys <- dict_items session_data ;;
       for_each (map fst keys) (fun key =>
         if endswith key "_files" then
           files <- getitem session_data key ;;
           files_is_list <- is_list files ;;
           if files_is_list then
             fs <- iter files ;;
             names <- map_each path_basename fs ;;
             names_list <- alloc (OList names) ;;
             assign session_data key names_list
           else mret tt
         else mret tt)
     else mret tt
   else mret tt) ;;;
  mret optimized_context.

Definition _optimize_application_contexts (contexts : val) : M val :=
  optimized <- alloc (OList []) ;;
  cs <- iter contexts ;;
  for_each cs (fun context =>
    optimized_context <- optimize_context context ;;
    append optimized optimized_context) ;;;
  mret optimized.

Definition essential_vars : list string :=
  [ "PWD"; "TERM"; "SHELL"; "PATH"; "HOME"; "USER" ].

(** The body of the loop of [_optimize_terminal_sessions]. *)
Definition optimize_terminal_session (session : val) : M val :=
  optimized_session <- copy session ;;
  has_environment <- py_in "environment" optimized_session ;;
  (if has_environment then
     env <- getitem optimized_session "environment" ;;
     has_variables <- py_in "environment_variables" env ;;
     if has_variables then
       variables <- getitem env "environment_variables" ;;
       kvs <- dict_items variables ;;
       kept <- alloc (ODict (filter (fun kv => existsb (String.eqb (fst kv)) essential_vars)
                                    kvs)) ;;
       assign env "environment_variables" kept
     else mret tt
   else mret tt) ;;;
  mret optimized_session.

Definition _optimize_terminal_sessions (sessions : val) : M val :=
  optimized <- alloc (OList []) ;;
  ss <- iter sessions ;;
  for_each ss (fun session =>
    optimized_session <- optimize_terminal_session session ;;
    append optimized optimized_session) ;;;
  mret optimized.

(** The body of the loop of [_optimize_browser_sessions]. *)
Definition optimize_browser_session (session : val) : M val :=
  optimized_session <- copy session ;;
  has_session_data <- py_in "session_data" optimized_session ;;
  (if has_session_data then
     session_data <- getitem optimized_session "session_data" ;;
     has_file <- py_in "session_file" session_data ;;
     if has_file then
       session_file <- getitem session_data "session_file" ;;
       name <- path_basename session_file ;;
       assign session_data "session_file" name
     else mret tt
   else mret tt) ;;;
  mret optimized_session.

Definition _optimize_browser_sessions (sessions : val) : M val :=
  optimized <- alloc (OList []) ;;
  ss <- iter sessions ;;
  for_each ss (fun session =>
    optimized_session <- optimize_browser_session session ;;
    append optimized optimized_session) ;;;
  mret optimized.

(** A [QuantumState] object: each field holds a value of the store. *)
Record QuantumState : Type := mkQuantumState {
  timestamp : val;
  session_id : val;
  monitor_layouts : val;
  workspace_states : val;
  window_states : val;
  application_contexts : val;
  terminal_sessions : val;
  browser_sessions : val;
  development_environments : val;
  system_state : val;
  validation_checksums : val
}.

(** [performance_optimization] is the truth value of
    [self.config.get("performance_optimization", True)]. *)
Definition optimize_state_capture (performance_optimization : bool)
    (state : QuantumState) : M QuantumState :=
  if negb performance_optimization then mret state
  else
    contexts <- _optimize_application_contexts (application_contexts state) ;;
    terminals <- _optimize_terminal_sessions (terminal_sessions state) ;;
    browsers <- _optimize_browser_sessions (browser_sessions state) ;;
    mret (mkQuantumState (timestamp state) (session_id state)
            (monitor_layouts state) (workspace_states state)
            (window_states state) contexts terminals browsers
            (development_environments state) (system_state state)
            (validation_checksums state)).

(** *** Reading and building values of the store *)

Fixpoint all_some {A : Type} (l : list (option A)) : option (list A) :=
  match l with
  | [] => Some []
  | Some x :: r => option_map (cons x) (all_some r)
  | None :: _ => None
  end.

(** The JSON value a store value denotes; [fuel] bounds the depth. *)
Fixpoint reify (fuel : nat) (h : heap) (v : val) : option json :=
  match v with
  | VNone => Some JNull
  | VBool b => Some (JBool b)
  | VInt z => Some (JInt z)
  | VStr s => Some (JStr s)
  | VRef l =>
      match fuel with
      | O => None
      | Datatypes.S fuel' =>
          match nth_error h l with
          | Some (OList vs) =>
              option_map JList (all_some (map (reify fuel' h) vs))
          | Some (ODict d) =>
              option_map JDict
                (all_some (map (fun kv => option_map (pair (fst kv))
                                            (reify fuel' h (snd kv))) d))
          | None => None
          end
      end
  end.

(** A fresh object graph for a JSON value, as [json.load] builds it:
    nothing in it is shared. *)
Fixpoint build (j : json) : M val :=
  match j with
  | JNull => mret VNone
  | JBool b => mret (VBool b)
  | JInt z => mret (VInt z)
  | JStr s => mret (VStr s)
  | JList l =>
      vs <- (fix each (l : list json) : M (list val) :=
               match l with
               | [] => mret []
               | x :: r => v <- build x ;; vs <- each r ;; mret (v :: vs)
               end) l ;;
      alloc (OList vs)
  | JDict d =>
      kvs <- (fix each (d : items) : M (list (string * val)) :=
                match d with
                | [] => mret []
                | (k, x) :: r => v <- build x ;; kvs <- each r ;; mret ((k, v) :: kvs)
                end) d ;;
      alloc (ODict kvs)
  end.

(** A snapshot whose object graph is built afresh from JSON content, as
    [load_quantum_state] builds it from a file. *)
Definition load (timestamp session_id : string)
    (monitor_layouts workspace_states window_states application_contexts
     terminal_sessions browser_sessions development_environments system_state
     validation_checksums : json) : M QuantumState :=
  m <- build monitor_layouts ;;
  w <- build workspace_states ;;
  n <- build window_states ;;
  a <- build application_contexts ;;
  t <- build terminal_sessions ;;
  b <- build browser_sessions ;;
  d <- build development_environments ;;
  y <- build system_state ;;
  c <- build validation_checksums ;;
  mret (mkQuantumState (VStr timestamp) (VStr session_id) m w n a t b d y c).

(** The JSON content of every field of a snapshot, in declaration order. *)
Definition contents (h : heap) (state : QuantumState) : list (option json) :=
  map (reify (Datatypes.S (List.length h)) h)
    [ timestamp state; session_id state; monitor_layouts state;
      workspace_states state; window_states state; application_contexts state;
      terminal_sessions state; browser_sessions state;
      development_environments state; system_state state;
      validation_checksums state ].

End Heap.

(** ** Notions the properties are stated with *)

(** Identical logical content: the same atoms, lists with the same content
    position by position, dictionaries with the same keys mapped to values
    of the same content, whatever the order of insertion. *)
Fixpoint same_content (x y : json) {struct x} : bool :=
  match x, y with
  | JNull, JNull => true
  | JBool a, JBool b => Bool.eqb a b
  | JInt a, JInt b => a =? b
  | JStr s, JStr t => String.eqb s t
  | JList l, JList m =>
      (fix go (l m : list json) {struct l} : bool :=
         match l, m with
         | [], [] => true
         | a :: l', b :: m' => same_content a b && go l' m'
         | _, _ => false
         end) l m
  | JDict d, JDict e =>
      (List.length d =? List.length e)%nat &&
      (fix go (d : items) {struct d} : bool :=
         match d with
         | [] => true
         | (k, v) :: d' =>
             match lookup k e with
             | Some w => same_content v w && go d'
             | None => false
             end
         end) d
  | _, _ => false
  end.

(** The items [json.dumps] sorts: each key with the text of its value. *)
Definition serialized (d : items) : list (string * string) :=
  map (fun kv => (fst kv, dumps (snd kv))) d.

(** [same_content] on lists and on the items of a dictionary. *)
Fixpoint same_list (l m : list json) : bool :=
  match l, m with
  | [], [] => true
  | a :: l', b :: m' => same_content a b && same_list l' m'
  | _, _ => false
  end.

Definition same_values (e d : items) : bool :=
  forallb (fun kv => match lookup (fst kv) e with
                     | Some w => same_content (snd kv) w
                     | None => false
                     end) d.

(** Two different byte strings with the same MD5 digest. *)
Definition md5_collision (a b : list Z) : Prop :=
  a <> b /\ MD5.hexdigest a = MD5.hexdigest b.

(** The eight components that [generate_validation_checksums] digests one
    by one. *)
Inductive component : Type :=
| MonitorLayouts
| WorkspaceStates
| WindowStates
| ApplicationContexts
| TerminalSessions
| BrowserSessions
| DevelopmentEnvironments
| SystemState.

Definition component_name (c : component) : string :=
  match c with
  | MonitorLayouts => "monitor_layouts"
  | WorkspaceStates => "workspace_states"
  | WindowStates => "window_states"
  | ApplicationContexts => "application_contexts"
  | TerminalSessions => "terminal_sessions"
  | BrowserSessions => "browser_sessions"
  | DevelopmentEnvironments => "development_environments"
  | SystemState => "system_state"
  end.

Definition get_component (c : component) (s : QuantumState) : json :=
  match c with
  | MonitorLayouts => monitor_layouts s
  | WorkspaceStates => workspace_states s
  | WindowStates => window_states s
  | ApplicationContexts => application_contexts s
  | TerminalSessions => terminal_sessions s
  | BrowserSessions => browser_sessions s
  | DevelopmentEnvironments => development_environments s
  | SystemState => system_state s
  end.

(** The snapshot with one component replaced, everything else (the stored
    checksums included) as it was. *)
Definition set_component (c : component) (v : json) (s : QuantumState) : QuantumState :=
  match c with
  | MonitorLayouts =>
      mkQuantumState (timestamp s) (session_id s) v (workspace_states s)
        (window_states s) (application_contexts s) (terminal_sessions s)
        (browser_sessions s) (development_environments s) (system_state s)
        (validation_checksums s)
  | WorkspaceStates =>
      mkQuantumState (timestamp s) (session_id s) (monitor_layouts s) v
        (window_states s) (application_contexts s) (terminal_sessions s)
        (browser_sessions s) (development_environments s) (system_state s)
        (validation_checksums s)
  | WindowStates =>
      mkQuantumState (timestamp s) (session_id s) (monitor_layouts s)
        (workspace_states s) v (application_contexts s) (terminal_sessions s)
        (browser_sessions s) (development_environments s) (system_state s)
        (validation_checksums s)
  | ApplicationContexts =>
      mkQuantumState (timestamp s) (session_id s) (monitor_layouts s)
        (workspace_states s) (window_states s) v (terminal_sessions s)
        (browser_sessions s) (development_environments s) (system_state s)
        (validation_checksums s)
  | TerminalSessions =>
      mkQuantumState (timestamp s) (session_id s) (monitor_layouts s)
        (workspace_states s) (window_states s) (application_contexts s) v
        (browser_sessions s) (development_environments s) (system_state s)
        (validation_checksums s)
  | BrowserSessions =>
      mkQuantumState (timestamp s) (session_id s) (monitor_layouts s)
        (workspace_states s) (window_states s) (application_contexts s)
        (terminal_sessions s) v (development_environments s) (system_state s)
        (validation_checksums s)
  | DevelopmentEnvironments =>
      mkQuantumState (timestamp s) (session_id s) (monitor_layouts s)
        (workspace_states s) (window_states s) (application_contexts s)
        (terminal_sessions s) (browser_sessions s) v (system_state s)
        (validation_checksums s)
  | SystemState =>
      mkQuantumState (timestamp s) (session_id s) (monitor_layouts s)
        (workspace_states s) (window_states s) (application_contexts s)
        (terminal_sessions s) (browser_sessions s) (development_environments s) v
        (validation_checksums s)
  end.

(** The snapshot with its time stamp or its session id replaced, everything
    else (the stored checksums included) as it was. *)
Definition set_timestamp (t : string) (s : QuantumState) : QuantumState :=
  mkQuantumState t (session_id s) (monitor_layouts s) (workspace_states s)
    (window_states s) (application_contexts s) (terminal_sessions s)
    (browser_sessions s) (development_environments s) (system_state s)
    (validation_checksums s).

Definition set_session_id (i : string) (s : QuantumState) : QuantumState :=
  mkQuantumState (timestamp s) i (monitor_layouts s) (workspace_states s)
    (window_states s) (application_contexts s) (terminal_sessions s)
    (browser_sessions s) (development_environments s) (system_state s)
    (validation_checksums s).


(** The entry shape [{type, name, active, path?}]: a dictionary with the
    keys [type], [name] and [active], and no key besides these and [path]. *)
Definition has_name_shape (e : json) : bool :=
  match e with
  | JDict d =>
      contains "type" d && contains "name" d && contains "active" d &&
      forallb (fun kv => existsb (String.eqb (fst kv)) ["type"; "name"; "active"; "path"]) d
  | _ => false
  end.

(** A JSON object, and the value a record holds under a key. *)
Definition is_object (x : json) : Prop := exists d, x = JDict d.

Definition field (k : string) (x : json) : json :=
  match x with
  | JDict d => match lookup k d with Some v => v | None => JNull end
  | _ => JNull
  end.

(** A workspace entry whose [id] is a number. *)
Definition has_numeric_id (w : json) : Prop :=
  exists d i n, w = JDict d /\ lookup "id" d = Some i /\ as_number i = Some n.

(** The value a record holds under a key, or the default. *)
Definition field_or (k : string) (default x : json) : json :=
  match x with
  | JDict d => match lookup k d with Some v => v | None => default end
  | _ => JNull
  end.

(** The record [capture_workspace_states] builds for a workspace entry
    with a numeric [id] when no client is reported. *)
Definition workspace_record (w : json) : json :=
  JDict [ ("id", field "id" w); ("name", field "name" w);
          ("monitor", field "monitor" w); ("monitorID", field "monitorID" w);
          ("windows", field_or "windows" (JInt 0) w);
          ("hasfullscreen", field_or "hasfullscreen" (JBool false) w);
          ("lastwindow", field_or "lastwindow" (JStr EmptyString) w);
          ("lastwindowtitle", field_or "lastwindowtitle" (JStr EmptyString) w);
          ("clients", JList []);
          ("persistent", field_or "persistent" (JBool false) w);
          ("specialWorkspace",
             JBool (match as_number (field "id" w) with
                    | Some n => n <? 0
                    | None => false
                    end)) ].

(** [x is None] *)
Definition is_none (x : json) : bool :=
  match x with
  | JNull => true
  | _ => false
  end.

(** What [capture_window_states] stores under [active] for a client. *)
Definition active_flag (q_activewindow client : json) : bool :=
  py_eq (field "address" client) (field "address" (py_or q_activewindow (JDict []))).


(** The value a legacy object holds under a key, or the default. *)
Definition legacy_or (k : string) (default : json) (legacy : items) : json :=
  match lookup k legacy with
  | Some v => v
  | None => default
  end.


(** A terminal session as [capture_terminal_sessions] records it, with the
    environment of the process. *)
Definition kitty_session : json :=
  JDict [ ("class", JStr "kitty"); ("pid", JInt 1002);
          ("window_address", JStr "0x23456789"); ("workspace", JInt 1);
          ("environment",
             JDict [ ("development_environments", JList []);
                     ("current_directory", JStr "/home/user");
                     ("environment_variables",
                        JDict [ ("HOME", JStr "/home/user"); ("LANG", JStr "C");
                                ("TERM", JStr "xterm-kitty") ]) ]);
          ("session_data", JDict [ ("type", JStr "terminal"); ("terminal", JStr "kitty") ]);
          ("timestamp", JStr "2024-01-01T00:00:00") ].

(** The same session with the environment cut down to the essential
    variables. *)
Definition kitty_session_optimized : json :=
  JDict [ ("class", JStr "kitty"); ("pid", JInt 1002);
          ("window_address", JStr "0x23456789"); ("workspace", JInt 1);
          ("environment",
             JDict [ ("development_environments", JList []);
                     ("current_directory", JStr "/home/user");
                     ("environment_variables",
                        JDict [ ("HOME", JStr "/home/user");
                                ("TERM", JStr "xterm-kitty") ]) ]);
          ("session_data", JDict [ ("type", JStr "terminal"); ("terminal", JStr "kitty") ]);
          ("timestamp", JStr "2024-01-01T00:00:00") ].

(** A browser session as [capture_browser_sessions] records it when no
    session file was found: [session_file] is [None]. *)
Definition chromium_session : json :=
  JDict [ ("class", JStr "chromium"); ("pid", JInt 1001);
          ("window_address", JStr "0x12345678"); ("workspace", JInt 1);
          ("session_data",
             JDict [ ("type", JStr "browser"); ("browser", JStr "chromium");
                     ("tabs", JList []); ("windows", JList []);
                     ("session_file", JNull); ("session_storage", JDict []) ]);
          ("timestamp", JStr "2024-01-01T00:00:00") ].

(** The directory entry a save leaves behind, and the last [k] of a run of
    saves. *)
Definition backup_entry (e : save_event) : string * Z := (backup_name e, ctime e).



Definition is_backup (f : string * Z) : bool := String.prefix "backup_" (fst f).

(** The number of backups in a directory. *)
Definition backup_count (dir : directory) : Z :=
  Z.of_nat (List.length (filter is_backup dir)).

(** Nothing is refused. *)
Definition no_faults : faults :=
  mkFaults false (fun _ => false) (fun _ => false) (fun _ => Copied).

(** The system lets the stamp of an entry be read and the entry be removed. *)
Definition allows (os : faults) (name : string) : Prop :=
  getctime_fails os name = false /\ remove_fails os name = false.

(** The entries of these names gone from the directory. *)
Definition unlink_all (files : list (string * Z)) (dir : directory) : directory :=
  fold_left (fun d f => popitem (fst f) d) files dir.

(** How many of the files, from the first on, the system lets be removed
    before it refuses one. *)
Fixpoint removable (os : faults) (files : list (string * Z)) : nat :=
  match files with
  | [] => O
  | f :: rest => if remove_fails os (fst f) then O else Datatypes.S (removable os rest)
  end.

(** Strict code point order on keys. *)
Definition key_lt (a b : string) : Prop := String.compare a b = Lt.

Definition key_le (a b : string) : Prop := a = b \/ key_lt a b.

(** Items in ascending key order, without and with repeated keys. *)
Definition keys_ascending {A : Type} (l : list (string * A)) : Prop :=
  StronglySorted (fun a b => key_le (fst a) (fst b)) l.

Definition keys_increasing {A : Type} (l : list (string * A)) : Prop :=
  StronglySorted (fun a b => key_lt (fst a) (fst b)) l.

(** *** Reading a serialisation back

    What is needed to tell from the text which value was written. *)

Definition hex_value (c : ascii) : N :=
  let n := N_of_ascii c in
  if (n <? 58)%N then n - 48 else n - 87.

(** The character an escape sequence at the head of a text stands for,
    and the text after it; [None] at a closing quote. *)
Definition unescape1 (s : string) : option (ascii * string) :=
  match s with
  | EmptyString => None
  | String a r =>
      if Ascii.eqb a dquote then None
      else if Ascii.eqb a backslash then
        match r with
        | EmptyString => None
        | String b r' =>
            if Ascii.eqb b dquote then Some (dquote, r')
            else if Ascii.eqb b backslash then Some (backslash, r')
            else if Ascii.eqb b "n" then Some (ascii_of_N 10, r')
            else if Ascii.eqb b "r" then Some (ascii_of_N 13, r')
            else if Ascii.eqb b "t" then Some (ascii_of_N 9, r')
            else if Ascii.eqb b "b" then Some (ascii_of_N 8, r')
            else if Ascii.eqb b "f" then Some (ascii_of_N 12, r')
            else
              match r' with
              | String _ (String _ (String h (String l r''))) =>
                  Some (ascii_of_N (16 * hex_value h + hex_value l), r'')
              | _ => None
              end
        end
      else Some (a, r)
  end.

(** The characters of an integer literal. *)
Definition is_int_char (c : ascii) : bool :=
  let n := N_of_ascii c in
  ((48 <=? n) && (n <=? 57))%N || (n =? 45)%N.

Fixpoint int_chars (s : string) : Prop :=
  match s with
  | EmptyString => True
  | String c r => is_int_char c = true /\ int_chars r
  end.

(** A text that cannot extend an integer literal. *)
Definition no_int_head (r : string) : Prop :=
  match r with
  | EmptyString => True
  | String c _ => is_int_char c = false
  end.

Inductive kind : Type := KNull | KBool | KInt | KStr | KList | KDict.

Definition kind_of (x : json) : kind :=
  match x with
  | JNull => KNull
  | JBool _ => KBool
  | JInt _ => KInt
  | JStr _ => KStr
  | JList _ => KList
  | JDict _ => KDict
  end.

(** The kind of value a text starts, read off its first character. *)
Definition kind_of_char (c : ascii) : option kind :=
  if is_int_char c then Some KInt
  else if Ascii.eqb c "n" then Some KNull
  else if Ascii.eqb c "t" || Ascii.eqb c "f" then Some KBool
  else if Ascii.eqb c dquote then Some KStr
  else if Ascii.eqb c "[" then Some KList
  else if Ascii.eqb c "{" then Some KDict
  else None.

(** The text of a bracketed sequence after its first piece, and from its
    first piece on. *)
Fixpoint seq_rest (close : string) (pieces : list string) (r : string) : string :=
  match pieces with
  | [] => close ++ r
  | p :: ps => ", " ++ p ++ seq_rest close ps r
  end.

Definition seq_body (close : string) (pieces : list string) (r : string) : string :=
  match pieces with
  | [] => close ++ r
  | p :: ps => p ++ seq_rest close ps r
  end.

Definition dump_pair (kv : string * json) : string :=
  dump_item (fst kv, dumps (snd kv)).

(** What the text of a value, followed by anything that cannot extend an
    integer literal, determines: the content of the value and the text
    that follows. *)
Definition readable (x : json) : Prop :=
  forall y r r',
    wf_json x -> wf_json y -> no_int_head r -> no_int_head r' ->
    (dumps x ++ r = dumps y ++ r')%string ->
    same_content x y = true /\ r = r'.

Definition same_item (a b : string * json) : Prop :=
  fst a = fst b /\ same_content (snd a) (snd b) = true.

(** *** The digest as a number *)

(** The first character of a UTF-8 byte sequence and the bytes after it. *)
Definition decode1 (bs : list Z) : option (ascii * list Z) :=
  match bs with
  | [] => None
  | b :: r =>
      if b <? 128 then Some (ascii_of_N (Z.to_N b), r)
      else
        match r with
        | [] => None
        | b2 :: r' => Some (ascii_of_N (Z.to_N (Z.land b 31 * 64 + Z.land b2 63)), r')
        end
  end.

Definition word32 (x : Z) : Prop := 0 <= x < 4294967296.

Definition state_in_range (st : MD5.state) : Prop :=
  word32 (MD5.sa st) /\ word32 (MD5.sb st) /\ word32 (MD5.sc st) /\ word32 (MD5.sd st).

Definition state_num (st : MD5.state) : Z :=
  MD5.sa st + 4294967296 * (MD5.sb st + 4294967296 * (MD5.sc st + 4294967296 * MD5.sd st)).

(** The digest [_generate_state_checksum] prints, as a number below 2^128. *)
Definition checksum_num (x : json) : Z :=
  state_num (MD5.digest_state (encode (dumps x))).

(** A list of monitors that holds one monitor, with the given id. *)
Definition one_monitor (i : Z) : json := JList [JDict [("id", JInt i)]].

(** A snapshot of that single monitor and nothing else. *)
Definition monitor_snapshot (i : Z) : QuantumState :=
  mkQuantumState "2024-01-01T00:00:00" "quantum_1700000000"
    (one_monitor i) (JList []) (JList []) (JList []) (JList []) (JList [])
    (JList []) (JDict []) [].

(** The dictionary whose digest is stored under ["overall"]: the snapshot
    without its checksum map. *)
Definition overall_dict (s : QuantumState) : json :=
  JDict (popitem "validation_checksums" (asdict s)).

(** Every component of the snapshot is a well-formed JSON value. *)
Definition wf_snapshot (s : QuantumState) : Prop :=
  Forall (fun kv => wf_json (snd kv)) (components s).

(** The bytes [_generate_state_checksum] hands to MD5. *)
Definition canonical_bytes (x : json) : list Z := encode (dumps x).

(** Both digests of a snapshot, as one number below 2^256. *)
Definition digests_num (s : QuantumState) : Z :=
  checksum_num (monitor_layouts s) + 2 ^ 128 * checksum_num (overall_dict s).

(** One monitor record, its keys inserted in two orders. *)
Definition monitor_name_first : json :=
  JDict [ ("name", JStr "eDP-1"); ("id", JInt 0); ("width", JInt 1920) ].

Definition monitor_id_first : json :=
  JDict [ ("id", JInt 0); ("width", JInt 1920); ("name", JStr "eDP-1") ].

(** The environment of a process with three of the markers set, and the
    entry detection reports for its virtual environment. *)
Definition marked_env_vars : list (string * string) :=
  [ ("CONDA_DEFAULT_ENV", "base"); ("VIRTUAL_ENV", "/home/user/venvs/test");
    ("NODE_ENV", "development") ].

Definition venv_test_entry : json :=
  JDict [ ("type", JStr "venv"); ("name", JStr "test");
          ("path", JStr "/home/user/venvs/test"); ("active", JBool true) ].

(** The four records detection can report. *)
Definition conda_entry (v : string) : json :=
  JDict [ ("type", JStr "conda"); ("name", JStr v); ("active", JBool true) ].

Definition venv_entry (v : string) : json :=
  JDict [ ("type", JStr "venv"); ("name", JStr (basename v)); ("path", JStr v);
          ("active", JBool true) ].

Definition pyenv_entry (v : string) : json :=
  JDict [ ("type", JStr "pyenv"); ("name", JStr v); ("active", JBool true) ].

Definition node_entry (v : string) : json :=
  JDict [ ("type", JStr "node"); ("environment", JStr v); ("active", JBool true) ].

(** ** Further notions *)

(** The characters of a hexadecimal digest. *)
Definition is_hex_char (c : ascii) : bool :=
  let n := N_of_ascii c in
  ((48 <=? n) && (n <=? 57))%N || ((97 <=? n) && (n <=? 102))%N.

Fixpoint all_chars (p : ascii -> bool) (s : string) : bool :=
  match s with
  | EmptyString => true
  | String c r => p c && all_chars p r
  end.

(** The names under which [generate_validation_checksums] stores digests. *)
Definition checksum_names : list string :=
  [ "monitor_layouts"; "workspace_states"; "window_states"; "application_contexts";
    "terminal_sessions"; "browser_sessions"; "development_environments";
    "system_state"; "overall" ].

(** A window record marked active. *)
Definition is_active (record : json) : bool :=
  match field "active" record with
  | JBool true => true
  | _ => false
  end.

(** The reference to a client that a workspace record embeds. *)
Definition client_record (client : json) : json :=
  JDict [ ("address", field "address" client); ("class", field "class" client);
          ("title", field "title" client);
          ("initialClass", field "initialClass" client);
          ("initialTitle", field "initialTitle" client) ].

(** [client.get("workspace", {}).get("id") == workspace.get("id")] on objects. *)
Definition in_workspace (workspace client : json) : bool :=
  py_eq (field "id" (field_or "workspace" (JDict []) client)) (field "id" workspace).

(** A client entry: an object whose [workspace], when present, is an object. *)
Definition is_client (client : json) : Prop :=
  exists d, client = JDict d /\
            match lookup "workspace" d with
            | Some w => is_object w
            | None => True
            end.

(** The client references a workspace record embeds. *)
Definition embedded_clients (record : json) : list json :=
  match field "clients" record with
  | JList l => l
  | _ => []
  end.

(** The [id] of a workspace entry as a number. *)
Definition workspace_number (w : json) : option Z := as_number (field "id" w).

(** ** The environment of a process

    [_capture_process_environment] and [_capture_terminal_session] read
    [/proc/<pid>/environ], turn every NUL into a newline, decode, and then
    run the same loop over the lines; [env_data] is the decoded text. *)

Definition newline : ascii := ascii_of_N 10.
Definition equals_sign : ascii := ascii_of_N 61.

(** [c in s] for a one-character string [c] *)
Fixpoint has_char (c : ascii) (s : string) : bool :=
  match s with
  | EmptyString => false
  | String x r => Ascii.eqb x c || has_char c r
  end.

(** [s.split(sep)] for a one-character separator *)
Fixpoint split (sep : ascii) (s : string) : list string :=
  match s with
  | EmptyString => [EmptyString]
  | String c r =>
      if Ascii.eqb c sep then EmptyString :: split sep r
      else match split sep r with
           | x :: xs => String c x :: xs
           | [] => [String c EmptyString]
           end
  end.

(** [s.split(sep, 1)] for an [s] that holds [sep]: what precedes the first
    separator, and what follows it. *)
Fixpoint split_once (sep : ascii) (s : string) : string * string :=
  match s with
  | EmptyString => (EmptyString, EmptyString)
  | String c r =>
      if Ascii.eqb c sep then (EmptyString, r)
      else let '(key, value) := split_once sep r in (String c key, value)
  end.

(** The loop [for line in env_data.split('\n')] that fills [env_vars]. *)
Definition env_vars_of (env_data : string) : list (string * string) :=
  fold_left (fun env_vars line =>
               if has_char equals_sign line then
                 let '(key, value) := split_once equals_sign line in
                 setitem key value env_vars
               else env_vars)
            (split newline env_data) [].

(** What the [/proc/<pid>] directory answers: the target of [cwd] (or the
    error of [os.readlink]), whether [environ] exists, and its decoded
    text (or the error of opening and reading it). *)
Record proc_dir : Type := mkProcDir {
  readlink_cwd : result string;
  environ_exists : bool;
  read_environ : result string
}.

(** A [Dict[str, str]] as a JSON object. *)
Definition strings_json (d : list (string * string)) : json :=
  JDict (map (fun kv => (fst kv, JStr (snd kv))) d).

(** [_capture_process_environment]: the [except] clause keeps what the
    dictionary holds when the exception is raised. *)
Definition _capture_process_environment (pid : json) (proc : proc_dir) : items :=
  let environment :=
    [ ("development_environments", JList []);
      ("current_directory", JNull);
      ("environment_variables", JDict []) ] in
  if negb (truthy pid) then environment
  else
    match readlink_cwd proc with
    | inl _ => environment
    | inr cwd =>
        let environment := setitem "current_directory" (JStr cwd) environment in
        if environ_exists proc then
          match read_environ proc with
          | inl _ => environment
          | inr env_data =>
              let env_vars := env_vars_of env_data in
              let environment :=
                setitem "environment_variables" (strings_json env_vars) environment in
              let dev_envs := _detect_development_environments env_vars in
              setitem "development_environments" (JList dev_envs) environment
          end
        else
          let dev_envs := _detect_development_environments [] in
          setitem "development_environments" (JList dev_envs) environment
    end.

(** ** [capture_development_environments]

    One entry of [psutil.process_iter(['pid', 'environ'])]: [environ] is
    [None] when the process does not let its environment be read;
    [seen_at] is what the clock shows when the process is looked at. *)
Record process : Type := mkProcess {
  pid : Z;
  environ : option (list (string * string));
  seen_at : string
}.

Definition capture_development_environments (procs : list process) : list json :=
  fold_left (fun environments proc =>
               match environ proc with
               | None => environments
               | Some env_vars =>
                   let dev_envs := _detect_development_environments env_vars in
                   if truthy (JList dev_envs) then
                     (environments ++
                      [JDict [ ("pid", JInt (pid proc));
                               ("environments", JList dev_envs);
                               ("timestamp", JStr (seen_at proc)) ]])%list
                   else environments
               end)
            procs [].

(** The variables that mark a development environment, with the type each
    is reported under. *)
Definition markers : list (string * string) :=
  [ ("CONDA_DEFAULT_ENV", "conda"); ("VIRTUAL_ENV", "venv");
    ("PYENV_VERSION", "pyenv"); ("NODE_ENV", "node") ].

Definition has_marker (env_vars : list (string * string)) : bool :=
  existsb (fun m => contains (fst m) env_vars) markers.

(** The text of [/proc/<pid>/environ] once every NUL is a newline: each
    variable as [key=value], each followed by a newline. *)
Fixpoint environ_text (env_vars : list (string * string)) : string :=
  match env_vars with
  | [] => EmptyString
  | (key, value) :: r =>
      key ++ String equals_sign (value ++ String newline (environ_text r))
  end.

(** A variable [/proc/<pid>/environ] can hold and the loop reads back. *)
Definition plain_variable (kv : string * string) : Prop :=
  has_char equals_sign (fst kv) = false /\
  has_char newline (fst kv) = false /\
  has_char newline (snd kv) = false.

(** What [_capture_process_environment] returns before it has read
    anything. *)
Definition empty_environment : items :=
  [ ("development_environments", JList []);
    ("current_directory", JNull);
    ("environment_variables", JDict []) ].

Definition readable_environ (proc : process) : bool :=
  match environ proc with
  | Some env_vars => has_marker env_vars
  | None => false
  end.

(** ** State files

    The state directory maps the name of a file to the JSON value its
    text denotes; the backup directory is that of [_create_backup]. *)

Record disk : Type := mkDisk {
  state_files : list (string * json);
  backup_files : directory
}.

(** [save_quantum_state]: [filename] is [None] when the caller names no
    file; [backup_unix] and [backup_ctime] are the clock and the stamp of
    the backup copy, [os] what the system refuses in the backup directory.
    The file is written, then copied to the backups. *)
Definition save_quantum_state (os : faults) (max_backups : Z) (state : QuantumState)
    (filename : option string) (backup_unix backup_ctime : Z) (d : disk)
  : string * disk :=
  let default := "quantum_state_" ++ session_id state ++ ".json" in
  let filename :=
    match filename with
    | None | Some EmptyString => default
    | Some f => f
    end in
  let state_dict := JDict (asdict state) in
  let files := setitem filename state_dict (state_files d) in
  let backups :=
    _create_backup os max_backups (mkSave filename backup_unix backup_ctime)
                   (backup_files d) in
  (filename, mkDisk files backups).

(** [get_compatible_states]: [listdir] is the listing of the state
    directory, or the error of [os.listdir]; [loads file] tells whether
    [load_quantum_state] returns for the file. *)
Definition get_compatible_states (listdir : result (list string))
    (loads : string -> bool) : list string :=
  match listdir with
  | inl _ => []
  | inr files =>
      filter (fun file =>
                String.prefix "quantum_state_" file && Heap.endswith file ".json"
                && loads file)
             files
  end.

(** [sorted] on strings *)
Fixpoint insert_name (x : string) (l : list string) : list string :=
  match l with
  | [] => [x]
  | y :: r => if String.leb x y then x :: y :: r else y :: insert_name x r
  end.

Fixpoint sorted (l : list string) : list string :=
  match l with
  | [] => []
  | x :: r => insert_name x (sorted r)
  end.

(** [sorted(compatible_states)[-1]] in [main] *)
Definition latest_state (compatible_states : list string) : option string :=
  match rev (sorted compatible_states) with
  | latest :: _ => Some latest
  | [] => None
  end.

(** The names [save_quantum_state] gives, by default, to a state that
    [capture_quantum_state] built at second [t], to one that
    [migrate_legacy_state] built, and the name [start_auto_save] gives. *)
Definition captured_name (t : Z) : string :=
  "quantum_state_" ++ ("quantum_" ++ str_of_Z t) ++ ".json".

Definition migrated_name (t : Z) : string :=
  "quantum_state_" ++ ("migrated_" ++ str_of_Z t) ++ ".json".

Definition auto_save_name (t : Z) : string :=
  "auto_save_" ++ str_of_Z t ++ ".json".

(** ** [main], with [--migrate-legacy]

    [read file] is what [json.load] returns for a legacy file, or the
    error of opening or parsing it; [times file] holds the readings of the
    clock while the file is migrated and saved. *)







(** ** Reading the object store along a path of keys *)

Fixpoint follow (h : Heap.heap) (v : Heap.val) (path : list string) : option Heap.val :=
  match path with
  | [] => Some v
  | k :: r =>
      match v with
      | Heap.VRef l =>
          match nth_error h l with
          | Some (Heap.ODict d) =>
              match lookup k d with
              | Some w => follow h w r
              | None => None
              end
          | _ => None
          end
      | _ => None
      end
  end.

(** The dictionary a value of the store refers to. *)
Definition dict_at (h : Heap.heap) (v : Heap.val) : option (list (string * Heap.val)) :=
  match v with
  | Heap.VRef l =>
      match nth_error h l with
      | Some (Heap.ODict d) => Some d
      | _ => None
      end
  | _ => None
  end.

Definition is_essential (kv : string * Heap.val) : bool :=
  existsb (String.eqb (fst kv)) Heap.essential_vars.

(** The value a JSON value holds along a path of keys. *)
Fixpoint json_at (j : json) (path : list string) : option json :=
  match path with
  | [] => Some j
  | k :: r =>
      match j with
      | JDict d =>
          match lookup k d with
          | Some x => json_at x r
          | None => None
          end
      | _ => None
      end
  end.

(** A value of the store that stands for a JSON value, looked at one
    level deep: the same atom, a list of the same length, or a dictionary
    with the same keys. *)
Definition stands_for (h : Heap.heap) (w : Heap.val) (x : json) : Prop :=
  match x with
  | JNull => w = Heap.VNone
  | JBool b => w = Heap.VBool b
  | JInt z => w = Heap.VInt z
  | JStr s => w = Heap.VStr s
  | JList l =>
      exists loc vs, w = Heap.VRef loc /\ nth_error h loc = Some (Heap.OList vs) /\
                     List.length vs = List.length l
  | JDict d =>
      exists kvs, dict_at h w = Some kvs /\ map fst kvs = map fst d
  end.

(** The two loops of [Heap.build], by name. *)
Fixpoint build_list (l : list json) : Heap.M (list Heap.val) :=
  match l with
  | [] => Heap.mret []
  | x :: r =>
      Heap.mbind (Heap.build x) (fun v =>
      Heap.mbind (build_list r) (fun vs => Heap.mret (v :: vs)))
  end.

Fixpoint build_items (d : items) : Heap.M (list (string * Heap.val)) :=
  match d with
  | [] => Heap.mret []
  | (k, x) :: r =>
      Heap.mbind (Heap.build x) (fun v =>
      Heap.mbind (build_items r) (fun kvs => Heap.mret ((k, v) :: kvs)))
  end.

(** What [Heap.build] leaves in the store: it only adds objects, and the
    value it returns leads, along every path of keys, to what the JSON
    value holds there. *)
Definition built (j : json) : Prop :=
  forall h, exists v ext,
    Heap.build j h = inr (v, (h ++ ext)%list) /\
    forall path x, json_at j path = Some x ->
      exists w, follow (h ++ ext)%list v path = Some w /\
                stands_for (h ++ ext)%list w x.

(** ** Browser sessions *)

(** [str.lower] on the code points below 256: the letters A to Z and the
    accented capitals. *)
Definition lower_char (c : ascii) : ascii :=
  let n := N_of_ascii c in
  if ((65 <=? n) && (n <=? 90) || (192 <=? n) && (n <=? 214)
      || (216 <=? n) && (n <=? 222))%N
  then ascii_of_N (n + 32)
  else c.

Fixpoint lower (s : string) : string :=
  match s with
  | EmptyString => EmptyString
  | String c r => String (lower_char c) (lower r)
  end.

(** [x.lower()]: only strings have it. *)
Definition py_lower (x : json) : result string :=
  match x with
  | JStr s => ret (lower s)
  | _ => raise AttributeError
  end.

(** [os.path.join(a, b)] for a relative [b] *)
Definition path_join (a b : string) : string :=
  match a with
  | EmptyString => b
  | _ => if Heap.endswith a "/" then a ++ b else a ++ "/" ++ b
  end.

(** What the probes of [_capture_browser_session] answer:
    [_find_firefox_profile(pid)] (a directory or [None]), whether the
    session store of that profile exists, and [_find_chrome_session(pid)];
    both functions catch their own exceptions. *)
Record browser_probe : Type := mkBrowserProbe {
  firefox_profile : option string;
  session_store_exists : bool;
  chrome_session : json
}.

Definition _capture_browser_session (browser : string) (probe : browser_probe)
  : items :=
  let session_data :=
    [ ("type", JStr "browser"); ("browser", JStr browser); ("tabs", JList []);
      ("windows", JList []); ("session_file", JNull) ] in
  if String.eqb browser "firefox" then
    match firefox_profile probe with
    | Some profile_dir =>
        if truthy (JStr profile_dir) then
          let session_file := path_join profile_dir "sessionstore.jsonlz4" in
          if session_store_exists probe then
            let session_data :=
              setitem "session_file" (JStr session_file) session_data in
            setitem "profile" (JStr profile_dir) session_data
          else session_data
        else session_data
    | None => session_data
    end
  else if existsb (String.eqb browser) ["chrome"; "chromium"; "brave"] then
    setitem "session_storage" (chrome_session probe) session_data
  else session_data.

(** One pass of the loop of [capture_browser_sessions]: the record for a
    client whose class is a browser's, [None] for another client.
    [browsers] is [config["application_contexts"]["browsers"]], [probe]
    answers for a process id, [timestamp] is the clock. *)
Definition browser_session (browsers : list string) (probe : json -> browser_probe)
    (timestamp : string) (client : json) : result (option json) :=
  class <- get_default client "class" (JStr EmptyString) ;;
  app_class <- py_lower class ;;
  if existsb (String.eqb app_class) browsers then
    pid <- get client "pid" ;;
    window_address <- get client "address" ;;
    w <- get_default client "workspace" (JDict []) ;;
    workspace <- get w "id" ;;
    let session_data := _capture_browser_session app_class (probe pid) in
    ret (Some (JDict [ ("class", JStr app_class); ("pid", pid);
                       ("window_address", window_address);
                       ("workspace", workspace);
                       ("session_data", JDict session_data);
                       ("timestamp", JStr timestamp) ]))
  else ret None.

(** The loop, from the client at position [i]; [clock i] is the time when
    that client is looked at. *)
Fixpoint browser_sessions_from (browsers : list string)
    (probe : json -> browser_probe) (clock : nat -> string) (i : nat)
    (clients : list json) : result (list json) :=
  match clients with
  | [] => ret []
  | client :: rest =>
      o <- browser_session browsers probe (clock i) client ;;
      sessions <- browser_sessions_from browsers probe clock (Datatypes.S i) rest ;;
      ret match o with
          | Some session => session :: sessions
          | None => sessions
          end
  end.

Definition capture_browser_sessions (browsers : list string)
    (probe : json -> browser_probe) (clock : nat -> string) (q_clients : json)
  : result (list json) :=
  let clients := py_or q_clients (JList []) in
  cs <- py_iter clients ;;
  browser_sessions_from browsers probe clock 0 cs.

(** ** Event callbacks

    A callback is an object that may have each of the three handler
    methods; a handler returns or raises.  Two callbacks are the same
    object when they carry the same [callback_id]. *)

Inductive method : Type :=
| on_workspace_focus
| on_active_window_change
| on_client_changes.

Record callback : Type := mkCallback {
  callback_id : nat;
  handler : method -> option (json -> result unit)
}.

(** A call of a handler, as the poll makes it. *)
Record call : Type := mkCall {
  receiver : callback;
  called : method;
  argument : json
}.

Definition returns (c : call) : bool :=
  match handler (receiver c) (called c) with
  | Some f => match f (argument c) with inr _ => true | inl _ => false end
  | None => true
  end.

(** [for callback in self.event_callbacks: if hasattr(callback, m):
    callback.m(argument)]: the calls made, and whether the loop ran to its
    end ([false] when a handler raised). *)
Fixpoint notify (m : method) (argument : json) (event_callbacks : list callback)
  : list call * bool :=
  match event_callbacks with
  | [] => ([], true)
  | cb :: rest =>
      match handler cb m with
      | None => notify m argument rest
      | Some f =>
          let c := mkCall cb m argument in
          match f argument with
          | inl _ => ([c], false)
          | inr _ => let '(calls, ok) := notify m argument rest in (c :: calls, ok)
          end
      end
  end.

(** Run [second] after [first] unless [first] was cut short. *)
Definition and_then (first : list call * bool) (second : list call * bool)
  : list call * bool :=
  if snd first then ((fst first ++ fst second)%list, snd second) else first.

Fixpoint _handle_workspace_changes (event_callbacks : list callback)
    (workspaces : list json) : list call * bool :=
  match workspaces with
  | [] => ([], true)
  | workspace :: rest =>
      match get_default workspace "focused" (JBool false) with
      | inl _ => ([], false)
      | inr focused =>
          and_then (if truthy focused
                    then notify on_workspace_focus workspace event_callbacks
                    else ([], true))
                   (_handle_workspace_changes event_callbacks rest)
      end
  end.

Definition _handle_active_window_change (event_callbacks : list callback)
    (active_window : json) : list call * bool :=
  notify on_active_window_change active_window event_callbacks.

Definition _handle_client_changes (event_callbacks : list callback)
    (clients : json) : list call * bool :=
  notify on_client_changes clients event_callbacks.

(** One poll: the calls it makes.  Whatever is raised ends the poll and is
    swallowed.  The three arguments are what [hyprctl] answers for
    [workspaces], [activewindow] and [clients]. *)
Definition _monitor_hyprland_events (event_callbacks : list callback)
    (q_workspaces q_activewindow q_clients : json) : list call :=
  fst (and_then
         (if truthy q_workspaces then
            match py_iter q_workspaces with
            | inl _ => ([], false)
            | inr workspaces => _handle_workspace_changes event_callbacks workspaces
            end
          else ([], true))
      (and_then
         (if truthy q_activewindow
          then _handle_active_window_change event_callbacks q_activewindow
          else ([], true))
         (if truthy q_clients
          then _handle_client_changes event_callbacks q_clients
          else ([], true)))).

Definition add_event_callback (cb : callback) (event_callbacks : list callback)
  : list callback :=
  (event_callbacks ++ [cb])%list.

Definition same_callback (a b : callback) : bool :=
  Nat.eqb (callback_id a) (callback_id b).

(** [list.remove]: the first equal element goes. *)
Fixpoint remove_first (cb : callback) (l : list callback) : list callback :=
  match l with
  | [] => []
  | x :: r => if same_callback x cb then r else x :: remove_first cb r
  end.

Definition remove_event_callback (cb : callback) (event_callbacks : list callback)
  : list callback :=
  if existsb (fun x => same_callback x cb) event_callbacks
  then remove_first cb event_callbacks
  else event_callbacks.

(** The calls a poll makes when no handler raises: for every focused
    workspace every callback that handles workspace focus, then every
    callback that handles the active window, then every callback that
    handles the clients. *)
Definition calls_to (m : method) (argument : json) (event_callbacks : list callback)
  : list call :=
  map (fun cb => mkCall cb m argument)
      (filter (fun cb => match handler cb m with Some _ => true | None => false end)
              event_callbacks).

Definition is_focused (workspace : json) : bool :=
  truthy (field_or "focused" (JBool false) workspace).

Definition due_calls (event_callbacks : list callback)
    (workspaces : list json) (q_activewindow q_clients : json) : list call :=
  (flat_map (fun w => calls_to on_workspace_focus w event_callbacks)
            (filter is_focused workspaces)
   ++ (if truthy q_activewindow
       then calls_to on_active_window_change q_activewindow event_callbacks
       else [])
   ++ (if truthy q_clients
       then calls_to on_client_changes q_clients event_callbacks
       else []))%list.

(** The calls up to the first that raises, that one included. *)
Fixpoint until_raise (calls : list call) : list call :=
  match calls with
  | [] => []
  | c :: r => if returns c then c :: until_raise r else [c]
  end.

(** ** [_capture_terminal_session]

    [kitty] and [tmux] are what [_capture_kitty_session] and
    [_capture_tmux_session] return, or what they let through.  The inner
    [try] around [os.readlink] catches [OSError] only; everything else
    ends the capture with what the record holds by then. *)
Definition _capture_terminal_session (terminal : string) (pid : json)
    (proc : proc_dir) (kitty tmux : result json) : items :=
  let session_data :=
    [ ("type", JStr "terminal"); ("terminal", JStr terminal);
      ("current_directory", JNull); ("environment", JDict []);
      ("shell_session", JNull) ] in
  let specific (session_data : items) : items :=
    if String.eqb terminal "kitty" then
      match kitty with
      | inr k => setitem "kitty_session" k session_data
      | inl _ => session_data
      end
    else if String.eqb terminal "tmux" then
      match tmux with
      | inr t => setitem "tmux_session" t session_data
      | inl _ => session_data
      end
    else session_data in
  let environment (session_data : items) : items :=
    if truthy pid && environ_exists proc then
      match read_environ proc with
      | inr env_data =>
          specific (setitem "environment" (strings_json (env_vars_of env_data))
                            session_data)
      | inl _ => session_data
      end
    else specific session_data in
  if truthy pid then
    match readlink_cwd proc with
    | inr cwd => environment (setitem "current_directory" (JStr cwd) session_data)
    | inl OSError => environment session_data
    | inl _ => session_data
    end
  else environment session_data.

(** ** [QuantumConfiguration._deep_merge]

    [merge_value value current] is what the loop stores under a key whose
    value in [update] is [value] and whose value in [result] is [current]
    ([None] when [result] has no such key). *)
Fixpoint merge_value (value : json) (current : option json) : json :=
  match value, current with
  | JDict update, Some (JDict base) =>
      JDict ((fix each (update result : items) {struct update} : items :=
                match update with
                | [] => result
                | (key, value) :: rest =>
                    each rest
                         (setitem key (merge_value value (lookup key result)) result)
                end) update base)
  | _, _ => value
  end.

Definition _deep_merge (base update : items) : items :=
  fold_left (fun result kv =>
               setitem (fst kv) (merge_value (snd kv) (lookup (fst kv) result)) result)
            update base.

(** ** [capture_terminal_sessions]

    One pass of the loop: the record for a client whose class is a
    terminal's.  [proc] is what [/proc/<pid>] answers when the environment
    record is made, [proc'] what it answers when the session data is
    made; [kitty] and [tmux] answer for a process id. *)
Definition terminal_session (terminals : list string)
    (proc proc' : json -> proc_dir) (kitty tmux : json -> result json)
    (timestamp : string) (client : json) : result (option json) :=
  class <- get_default client "class" (JStr EmptyString) ;;
  app_class <- py_lower class ;;
  if existsb (String.eqb app_class) terminals then
    pid <- get client "pid" ;;
    window_address <- get client "address" ;;
    w <- get_default client "workspace" (JDict []) ;;
    workspace <- get w "id" ;;
    let environment := _capture_process_environment pid (proc pid) in
    let session_data :=
      _capture_terminal_session app_class pid (proc' pid) (kitty pid) (tmux pid) in
    ret (Some (JDict [ ("class", JStr app_class); ("pid", pid);
                       ("window_address", window_address);
                       ("workspace", workspace);
                       ("environment", JDict environment);
                       ("session_data", JDict session_data);
                       ("timestamp", JStr timestamp) ]))
  else ret None.

Fixpoint terminal_sessions_from (terminals : list string)
    (proc proc' : json -> proc_dir) (kitty tmux : json -> result json)
    (clock : nat -> string) (i : nat) (clients : list json) : result (list json) :=
  match clients with
  | [] => ret []
  | client :: rest =>
      o <- terminal_session terminals proc proc' kitty tmux (clock i) client ;;
      sessions <- terminal_sessions_from terminals proc proc' kitty tmux clock
                                         (Datatypes.S i) rest ;;
      ret match o with
          | Some session => session :: sessions
          | None => sessions
          end
  end.

Definition capture_terminal_sessions (terminals : list string)
    (proc proc' : json -> proc_dir) (kitty tmux : json -> result json)
    (clock : nat -> string) (q_clients : json) : result (list json) :=
  let clients := py_or q_clients (JList []) in
  cs <- py_iter clients ;;
  terminal_sessions_from terminals proc proc' kitty tmux clock 0 cs.

Definition is_essential_name (k : string) : bool :=
  existsb (String.eqb k) Heap.essential_vars.

(** No key of the dictionary ends in [_files]. *)
Definition no_files_key (d : list (string * Heap.val)) : bool :=
  forallb (fun kv => negb (Heap.endswith (fst kv) "_files")) d.

(** The session data of an application context that the pass leaves
    alone: none, something that is no dictionary, or a dictionary without a
    key that ends in [_files].  A reference is to an object of the store. *)
Definition plain_session_data (h : Heap.heap) (d : list (string * Heap.val)) : Prop :=
  match lookup "session_data" d with
  | None => True
  | Some (Heap.VRef l) =>
      match nth_error h l with
      | Some (Heap.ODict sd) => no_files_key sd = true
      | Some (Heap.OList _) => True
      | None => False
      end
  | Some _ => True
  end.

(** An entry that is none of the files. *)
Definition kept_after (files : list (string * Z)) (f : string * Z) : bool :=
  negb (existsb (String.eqb (fst f)) (map fst files)).

(** * Properties *)

(** ** Checksum generation and validation *)

(** The nine digests, in the order the dictionary receives them. *)
Lemma generate_validation_checksums_eq (state : QuantumState) :
  generate_validation_checksums state =
  [ ("monitor_layouts", _generate_state_checksum (monitor_layouts state));
    ("workspace_states", _generate_state_checksum (workspace_states state));
    ("window_states", _generate_state_checksum (window_states state));
    ("application_contexts", _generate_state_checksum (application_contexts state));
    ("terminal_sessions", _generate_state_checksum (terminal_sessions state));
    ("browser_sessions", _generate_state_checksum (browser_sessions state));
    ("development_environments",
       _generate_state_checksum (development_environments state));
    ("system_state", _generate_state_checksum (system_state state));
    ("overall",
       _generate_state_checksum
         (JDict [ ("timestamp", JStr (timestamp state));
                  ("session_id", JStr (session_id state));
                  ("monitor_layouts", monitor_layouts state);
                  ("workspace_states", workspace_states state);
                  ("window_states", window_states state);
                  ("application_contexts", application_contexts state);
                  ("terminal_sessions", terminal_sessions state);
                  ("browser_sessions", browser_sessions state);
                  ("development_environments", development_environments state);
                  ("system_state", system_state state) ])) ].
Proof. reflexivity. Qed.

(** The stored checksum map is no input of the digests. *)
Lemma generate_ignores_stored_checksums (c : list (string * string)) (s : QuantumState) :
  generate_validation_checksums (set_validation_checksums c s) =
  generate_validation_checksums s.
Proof. reflexivity. Qed.

Lemma differs_same (a : option string) : differs a a = false.
Proof.
  destruct a as [x|]; simpl; [|reflexivity].
  now rewrite String.eqb_refl.
Qed.

Lemma differs_false_iff (a b : option string) : differs a b = false <-> a = b.
Proof.
  destruct a as [x|], b as [y|]; simpl; split; intro H;
    try discriminate; try reflexivity.
  - apply negb_false_iff, String.eqb_eq in H. now subst.
  - injection H as ->. now rewrite String.eqb_refl.
Qed.

(** A snapshot that stores the checksums of its own content validates. *)
Lemma validate_own_checksums (s : QuantumState) :
  validation_checksums s = generate_validation_checksums s ->
  _validate_state_checksums s = true.
Proof.
  intro H. unfold _validate_state_checksums. rewrite H.
  rewrite generate_validation_checksums_eq.
  cbn [components_agree lookup String.eqb Ascii.eqb Bool.eqb negb].
  repeat rewrite differs_same.
  reflexivity.
Qed.

(** C10: generating the checksums and validating at once succeeds, whatever
    checksum map the snapshot held when they were generated. *)
Theorem C10_generate_then_validate (s : QuantumState) :
  _validate_state_checksums
    (set_validation_checksums (generate_validation_checksums s) s) = true.
Proof.
  apply validate_own_checksums.
  cbn [validation_checksums set_validation_checksums].
  now rewrite generate_ignores_stored_checksums.
Qed.

(** ** Canonical serialisation: insertion order does not matter *)

Lemma dumps_list (l : list json) :
  dumps (JList l) = "[" ++ join ", " (map dumps l) ++ "]".
Proof.
  cbn [dumps].
  match goal with
  | |- context [join _ ?t] => replace t with (map dumps l); [reflexivity|]
  end.
  induction l as [|x r IH]; [reflexivity|]. cbn [map]. now rewrite IH.
Qed.

Lemma dumps_dict (d : items) :
  dumps (JDict d) =
  "{" ++ join ", " (map dump_item (sort_items (serialized d))) ++ "}".
Proof.
  cbn [dumps].
  match goal with
  | |- context [sort_items ?t] => replace t with (serialized d); [reflexivity|]
  end.
  induction d as [|[k v] r IH]; [reflexivity|].
  cbn [serialized map fst snd]. fold (serialized r). now rewrite IH.
Qed.

Lemma same_content_list (l m : list json) :
  same_content (JList l) (JList m) = same_list l m.
Proof.
  cbn [same_content]. revert m.
  induction l as [|x r IH]; intros [|y m]; try reflexivity;
    cbn [same_list]; now rewrite IH.
Qed.

Lemma same_content_dict (d e : items) :
  same_content (JDict d) (JDict e) =
  (List.length d =? List.length e)%nat && same_values e d.
Proof.
  cbn [same_content]. f_equal.
  induction d as [|[k v] r IH]; [reflexivity|].
  cbn [same_values forallb fst snd].
  destruct (lookup k e); [|reflexivity]. now rewrite IH.
Qed.

Lemma wf_json_list (l : list json) : wf_json (JList l) <-> Forall wf_json l.
Proof.
  cbn [wf_json]. induction l as [|x r IH].
  - split; constructor.
  - rewrite IH. split.
    + intros [Hx Hr]. now constructor.
    + intro H. inversion H. now split.
Qed.

Lemma wf_json_dict (d : items) :
  wf_json (JDict d) <->
  NoDup (map fst d) /\ Forall (fun kv => wf_json (snd kv)) d.
Proof.
  cbn [wf_json].
  assert (H : (fix all (d : items) : Prop :=
                 match d with
                 | [] => True
                 | (_, v) :: r => wf_json v /\ all r
                 end) d <-> Forall (fun kv => wf_json (snd kv)) d).
  { induction d as [|[k v] r IH].
    - split; constructor.
    - rewrite IH. split.
      + intros [Hx Hr]. now constructor.
      + intro H. inversion H. now split. }
  now rewrite H.
Qed.

(** *** The order on keys *)

Lemma ascii_compare_lt_trans (a b c : ascii) :
  Ascii.compare a b = Lt -> Ascii.compare b c = Lt -> Ascii.compare a c = Lt.
Proof.
  unfold Ascii.compare. rewrite !N.compare_lt_iff. lia.
Qed.

Lemma string_compare_lt_trans (a b c : string) :
  String.compare a b = Lt -> String.compare b c = Lt -> String.compare a c = Lt.
Proof.
  revert b c. induction a as [|x a IH]; intros [|y b] [|z c]; cbn [String.compare];
    try discriminate; try reflexivity.
  destruct (Ascii.compare x y) eqn:Hxy; try discriminate;
  destruct (Ascii.compare y z) eqn:Hyz; try discriminate; intros H1 H2.
  - apply Ascii.compare_eq_iff in Hxy, Hyz. subst.
    assert (Hzz : Ascii.compare z z = Eq) by (unfold Ascii.compare; apply N.compare_refl).
    rewrite Hzz. now apply IH with b.
  - apply Ascii.compare_eq_iff in Hxy. subst. now rewrite Hyz.
  - apply Ascii.compare_eq_iff in Hyz. subst. now rewrite Hxy.
  - now rewrite (ascii_compare_lt_trans _ _ _ Hxy Hyz).
Qed.

Lemma key_lt_irrefl (a : string) : ~ key_lt a a.
Proof.
  unfold key_lt. intro H.
  pose proof (String.compare_antisym a a) as E. rewrite H in E. discriminate.
Qed.

Lemma key_lt_asym (a b : string) : key_lt a b -> key_lt b a -> False.
Proof.
  intros H1 H2. apply (key_lt_irrefl a). now apply string_compare_lt_trans with b.
Qed.

Lemma leb_false_lt (a b : string) : String.leb a b = false -> key_lt b a.
Proof.
  unfold String.leb, key_lt. rewrite String.compare_antisym.
  now destruct (String.compare b a).
Qed.

Lemma leb_true_le (a b : string) : String.leb a b = true -> a = b \/ key_lt a b.
Proof.
  unfold String.leb, key_lt. destruct (String.compare a b) eqn:E; try discriminate.
  - left. now apply String.compare_eq_iff.
  - now right.
Qed.

Lemma key_le_trans (a b c : string) : key_le a b -> key_le b c -> key_le a c.
Proof.
  intros [->|H1] [->|H2]; unfold key_le; auto.
  right. now apply string_compare_lt_trans with b.
Qed.

(** *** Sorting the items *)

Section SortItems.

Context {A : Type}.
Implicit Types (x : string * A) (l : list (string * A)).

Lemma insert_item_perm x l : Permutation (insert_item x l) (x :: l).
Proof.
  induction l as [|y r IH]; cbn [insert_item]; [reflexivity|].
  destruct (String.leb (fst x) (fst y)); [reflexivity|].
  rewrite IH. apply perm_swap.
Qed.

Lemma sort_items_perm l : Permutation (sort_items l) l.
Proof.
  induction l as [|x r IH]; cbn [sort_items]; [reflexivity|].
  rewrite insert_item_perm. now constructor.
Qed.

Lemma insert_item_ascending x l :
  keys_ascending l -> keys_ascending (insert_item x l).
Proof.
  unfold keys_ascending.
  induction 1 as [|y r Hr IH Hy]; cbn [insert_item].
  - repeat constructor.
  - destruct (String.leb (fst x) (fst y)) eqn:E.
    + apply leb_true_le in E. constructor; [now constructor|].
      constructor; [exact E|].
      revert Hy. apply Forall_impl. intros z Hz. now apply key_le_trans with (fst y).
    + apply leb_false_lt in E. constructor; [exact IH|].
      rewrite (insert_item_perm x r). constructor; [now right|exact Hy].
Qed.

Lemma sort_items_ascending l : keys_ascending (sort_items l).
Proof.
  induction l as [|x r IH]; cbn [sort_items]; [constructor|].
  now apply insert_item_ascending.
Qed.

Lemma ascending_increasing l :
  NoDup (map fst l) -> keys_ascending l -> keys_increasing l.
Proof.
  unfold keys_ascending, keys_increasing.
  intros Hnd Hs. induction Hs as [|x r Hr IH Hx]; [constructor|].
  cbn [map] in Hnd. inversion Hnd as [|? ? Hnotin Hnd']; subst.
  constructor; [now apply IH|].
  rewrite Forall_forall in *. intros y Hy.
  destruct (Hx y Hy) as [E|L]; [|exact L].
  exfalso. apply Hnotin. rewrite E. now apply in_map.
Qed.

(** Two increasing arrangements of the same items coincide. *)
Lemma increasing_perm_unique l1 l2 :
  keys_increasing l1 -> keys_increasing l2 -> Permutation l1 l2 -> l1 = l2.
Proof.
  unfold keys_increasing. intro H1. revert l2.
  induction H1 as [|x r1 Hr1 IH Hx]; intros l2 H2 Hp.
  - apply Permutation_nil in Hp. now subst.
  - destruct H2 as [|y r2 Hr2 Hy].
    + apply Permutation_sym, Permutation_nil in Hp. discriminate.
    + assert (Hxy : x = y).
      { assert (Hin1 : In x (y :: r2)) by (rewrite <- Hp; now left).
        assert (Hin2 : In y (x :: r1)) by (rewrite Hp; now left).
        destruct Hin1 as [E|Hin1]; [now symmetry|].
        destruct Hin2 as [E|Hin2]; [exact E|].
        rewrite Forall_forall in Hx, Hy.
        exfalso. exact (key_lt_asym _ _ (Hx y Hin2) (Hy x Hin1)). }
      subst y. f_equal. apply IH; [exact Hr2|].
      now apply Permutation_cons_inv with x.
Qed.

Lemma sort_items_increasing l :
  NoDup (map fst l) -> keys_increasing (sort_items l).
Proof.
  intro Hnd. apply ascending_increasing; [|apply sort_items_ascending].
  revert Hnd. apply Permutation_NoDup, Permutation_map, Permutation_sym, sort_items_perm.
Qed.

(** Sorting forgets the insertion order. *)
Lemma sort_items_order_insensitive l1 l2 :
  NoDup (map fst l1) -> Permutation l1 l2 -> sort_items l1 = sort_items l2.
Proof.
  intros Hnd Hp. apply increasing_perm_unique.
  - now apply sort_items_increasing.
  - apply sort_items_increasing. revert Hnd. now apply Permutation_NoDup, Permutation_map.
  - now rewrite !sort_items_perm.
Qed.

Lemma lookup_In (k : string) (v : A) l : lookup k l = Some v -> In (k, v) l.
Proof.
  induction l as [|[k' v'] r IH]; cbn [lookup]; [discriminate|].
  destruct (String.eqb_spec k k') as [->|_].
  - intro H. injection H as ->. now left.
  - intro H. right. now apply IH.
Qed.

Lemma In_lookup (k : string) (v : A) l :
  NoDup (map fst l) -> In (k, v) l -> lookup k l = Some v.
Proof.
  induction l as [|[k' v'] r IH]; cbn [lookup map fst]; intros Hnd Hin; [destruct Hin|].
  inversion Hnd as [|? ? Hnotin Hnd']; subst.
  destruct Hin as [E|Hin].
  - injection E as -> ->. now rewrite String.eqb_refl.
  - destruct (String.eqb_spec k k') as [->|_]; [|now apply IH].
    exfalso. apply Hnotin. change k' with (fst (k', v)). now apply in_map.
Qed.

End SortItems.

Lemma serialized_keys (d : items) : map fst (serialized d) = map fst d.
Proof. unfold serialized. rewrite map_map. reflexivity. Qed.

(** *** Same content, same text *)

Lemma same_content_dumps (x : json) :
  forall y, wf_json x -> wf_json y -> same_content x y = true -> dumps x = dumps y.
Proof.
  induction x as [| a | a | s | l IH | d IH] using json_ind';
    intros y Hx Hy H; destruct y as [| b | b | t | m | e]; try discriminate H.
  - reflexivity.
  - cbn [same_content] in H. apply Bool.eqb_prop in H. now subst.
  - cbn [same_content] in H. apply Z.eqb_eq in H. now subst.
  - cbn [same_content] in H. apply String.eqb_eq in H. now subst.
  - rewrite same_content_list in H. rewrite !dumps_list.
    assert (E : map dumps l = map dumps m); [|now rewrite E].
    apply wf_json_list in Hx, Hy.
    revert m Hy H. induction l as [|x l IHl]; intros [|y m] Hy H; try discriminate H.
    + reflexivity.
    + cbn [same_list] in H. apply andb_prop in H. destruct H as [Hxy Hlm].
      inversion IH; inversion Hx; inversion Hy; subst.
      cbn [map]. f_equal; auto.
  - rewrite same_content_dict in H. apply andb_prop in H. destruct H as [Hlen Hval].
    apply Nat.eqb_eq in Hlen. rewrite !dumps_dict.
    apply wf_json_dict in Hx, Hy. destruct Hx as [Hndd Hwd], Hy as [Hnde Hwe].
    assert (E : sort_items (serialized d) = sort_items (serialized e));
      [|now rewrite E].
    apply sort_items_order_insensitive; [now rewrite serialized_keys|].
    apply NoDup_Permutation_bis.
    + apply NoDup_map_inv with (f := fst). now rewrite serialized_keys.
    + unfold serialized. rewrite !length_map. lia.
    + intros [k s] Hin. unfold serialized in Hin. apply in_map_iff in Hin.
      destruct Hin as ([k' v] & E & Hin). cbn [fst snd] in E. injection E as -> <-.
      unfold same_values in Hval. rewrite forallb_forall in Hval.
      specialize (Hval _ Hin). cbn [fst snd] in Hval.
      destruct (lookup k e) as [w|] eqn:Hw; [|discriminate].
      rewrite Forall_forall in IH, Hwd, Hwe.
      apply lookup_In in Hw.
      pose proof (IH _ Hin w (Hwd _ Hin) (Hwe _ Hw) Hval) as Hd.
      cbn [snd] in Hd. rewrite Hd.
      unfold serialized. apply in_map_iff. now exists (k, w).
Qed.

(** ** Canonical serialisation: different content, different text *)

Lemma append_assoc (a b c : string) : ((a ++ b) ++ c = a ++ (b ++ c))%string.
Proof. induction a as [|x a IH]; cbn [String.append]; [reflexivity|now rewrite IH]. Qed.

Lemma append_empty_r (a : string) : (a ++ EmptyString)%string = a.
Proof. induction a as [|x a IH]; cbn [String.append]; [reflexivity|now rewrite IH]. Qed.

Lemma unescape1_escape_char (c : ascii) (r : string) :
  unescape1 (escape_char c ++ r) = Some (c, r).
Proof.
  destruct c as [[] [] [] [] [] [] [] []]; reflexivity.
Qed.

Lemma unescape1_dquote (r : string) : unescape1 (String dquote r) = None.
Proof. reflexivity. Qed.

(** The text of a string up to its closing quote determines the string. *)
Lemma escape_inj (s : string) :
  forall s' r r',
    (escape s ++ String dquote r = escape s' ++ String dquote r')%string ->
    s = s' /\ r = r'.
Proof.
  induction s as [|c s IH]; intros [|c' s'] r r' H; cbn [escape] in H.
  - cbn [String.append] in H. injection H as ->. now split.
  - rewrite append_assoc in H. apply (f_equal unescape1) in H.
    rewrite unescape1_escape_char in H. cbn [String.append] in H.
    rewrite unescape1_dquote in H. discriminate.
  - rewrite append_assoc in H. apply (f_equal unescape1) in H.
    rewrite unescape1_escape_char in H. cbn [String.append] in H.
    rewrite unescape1_dquote in H. discriminate.
  - rewrite !append_assoc in H. apply (f_equal unescape1) in H.
    rewrite !unescape1_escape_char in H. injection H as -> H.
    destruct (IH _ _ _ H) as [-> ->]. now split.
Qed.

(** *** Integer literals *)

Lemma to_int_not_nil (z : Z) : Z.to_int z <> Decimal.Pos Decimal.Nil /\
                               Z.to_int z <> Decimal.Neg Decimal.Nil.
Proof.
  destruct z as [|p|p]; cbn [Z.to_int]; split; try discriminate;
    intro H; injection H as H; now apply DecimalPos.Unsigned.to_uint_nonnil in H.
Qed.

Lemma str_of_Z_inj (a b : Z) : str_of_Z a = str_of_Z b -> a = b.
Proof.
  unfold str_of_Z. intro H.
  apply DecimalZ.to_int_inj.
  destruct (to_int_not_nil a) as [Ha1 Ha2], (to_int_not_nil b) as [Hb1 Hb2].
  pose proof (NilZero.isi _ Ha1 Ha2) as Ea.
  pose proof (NilZero.isi _ Hb1 Hb2) as Eb.
  rewrite H in Ea. rewrite Ea in Eb. now injection Eb.
Qed.

Lemma uint_int_chars (d : Decimal.uint) : int_chars (NilEmpty.string_of_uint d).
Proof. induction d; cbn [NilEmpty.string_of_uint int_chars]; auto. Qed.

Lemma str_of_Z_int_chars (z : Z) : int_chars (str_of_Z z).
Proof.
  unfold str_of_Z.
  destruct (Z.to_int z) as [d|d]; cbn [NilZero.string_of_int].
  - destruct d; try apply uint_int_chars. cbn. auto.
  - split; [reflexivity|]. destruct d; try apply uint_int_chars. cbn. auto.
Qed.

Lemma str_of_Z_nonempty (z : Z) :
  exists c r, str_of_Z z = String c r /\ is_int_char c = true.
Proof.
  pose proof (str_of_Z_int_chars z) as H.
  unfold str_of_Z in *.
  destruct (to_int_not_nil z) as [H1 H2].
  destruct (Z.to_int z) as [d|d]; cbn [NilZero.string_of_int] in *.
  - destruct d; try congruence; cbn in *; eauto.
  - eauto.
Qed.

(** A literal ends where the text stops being one. *)
Lemma int_chars_split (s : string) :
  forall s' r r',
    int_chars s -> int_chars s' -> no_int_head r -> no_int_head r' ->
    (s ++ r = s' ++ r')%string -> s = s' /\ r = r'.
Proof.
  induction s as [|c s IH]; intros [|c' s'] r r' Hs Hs' Hr Hr' H;
    cbn [String.append] in H.
  - now split.
  - subst r. cbn [no_int_head] in Hr. destruct Hs' as [Hc _]. congruence.
  - subst r'. cbn [no_int_head] in Hr'. destruct Hs as [Hc _]. congruence.
  - injection H as -> H. destruct Hs as [_ Hs], Hs' as [_ Hs'].
    destruct (IH _ _ _ Hs Hs' Hr Hr' H) as [-> ->]. now split.
Qed.

(** *** The first character tells the kind of value *)

Lemma dumps_head (x : json) (r : string) :
  exists c rest, (dumps x ++ r)%string = String c rest /\
                 kind_of_char c = Some (kind_of x).
Proof.
  destruct x as [| [] | z | s | l | d].
  - do 2 eexists. split; reflexivity.
  - do 2 eexists. split; reflexivity.
  - do 2 eexists. split; reflexivity.
  - destruct (str_of_Z_nonempty z) as (c & t & E & Hc).
    exists c, (t ++ r)%string. cbn [dumps]. rewrite E. split; [reflexivity|].
    unfold kind_of_char. now rewrite Hc.
  - do 2 eexists. split; reflexivity.
  - rewrite dumps_list. do 2 eexists. split; reflexivity.
  - rewrite dumps_dict. do 2 eexists. split; reflexivity.
Qed.

Lemma dumps_kind (x y : json) (r r' : string) :
  (dumps x ++ r = dumps y ++ r')%string -> kind_of x = kind_of y.
Proof.
  intro H.
  destruct (dumps_head x r) as (c & t & E & Hc).
  destruct (dumps_head y r') as (c' & t' & E' & Hc').
  rewrite E, E' in H. injection H as -> _. congruence.
Qed.

(** *** Bracketed sequences *)

Lemma join_seq_body (close : string) (pieces : list string) (r : string) :
  ((join ", " pieces ++ close) ++ r)%string = seq_body close pieces r.
Proof.
  destruct pieces as [|p ps]; [reflexivity|].
  cbn [seq_body]. revert p.
  induction ps as [|q ps IH]; intro p.
  - cbn [join seq_rest]. now rewrite append_assoc.
  - change (join ", " (p :: q :: ps)) with (p ++ ", " ++ join ", " (q :: ps))%string.
    rewrite !append_assoc. f_equal.
    cbn [seq_rest]. change (", " ++ q ++ seq_rest close ps r)%string
      with (String "," (String " " (q ++ seq_rest close ps r)))%string.
    cbn [String.append]. do 2 f_equal.
    rewrite <- IH. now rewrite !append_assoc.
Qed.

Lemma seq_rest_no_int_head (close : string) (pieces : list string) (r : string) :
  close = "]" \/ close = "}" -> no_int_head (seq_rest close pieces r).
Proof.
  intros [-> | ->]; destruct pieces; reflexivity.
Qed.

Lemma comma_strip (s s' : string) : (", " ++ s = ", " ++ s')%string -> s = s'.
Proof. intro H. now injection H. Qed.

Lemma list_rest_inj (l : list json) :
  Forall readable l -> Forall wf_json l ->
  forall m r r',
    Forall wf_json m -> no_int_head r -> no_int_head r' ->
    seq_rest "]" (map dumps l) r = seq_rest "]" (map dumps m) r' ->
    same_list l m = true /\ r = r'.
Proof.
  intros HP Hwl. induction l as [|x l IH]; intros [|y m] r r' Hwm Hr Hr' H;
    cbn [map seq_rest] in H; try discriminate H.
  - injection H as ->. now split.
  - inversion HP as [|? ? Hx HP']; inversion Hwl as [|? ? Hwx Hwl'];
      inversion Hwm as [|? ? Hwy Hwm']; subst.
    apply comma_strip in H.
    destruct (Hx y _ _ Hwx Hwy
                (seq_rest_no_int_head "]" _ r (or_introl eq_refl))
                (seq_rest_no_int_head "]" _ r' (or_introl eq_refl)) H) as [Exy Erest].
    destruct (IH HP' Hwl' m r r' Hwm' Hr Hr' Erest) as [Elm ->].
    cbn [same_list]. now rewrite Exy, Elm.
Qed.

Lemma list_body_inj (l : list json) :
  Forall readable l -> Forall wf_json l ->
  forall m r r',
    Forall wf_json m -> no_int_head r -> no_int_head r' ->
    seq_body "]" (map dumps l) r = seq_body "]" (map dumps m) r' ->
    same_list l m = true /\ r = r'.
Proof.
  intros HP Hwl [|y m] r r' Hwm Hr Hr' H; destruct l as [|x l];
    cbn [map seq_body] in H.
  - injection H as ->. now split.
  - exfalso. symmetry in H.
    destruct (dumps_head x (seq_rest "]" (map dumps l) r)) as (c & t & E & Hc).
    rewrite E in H. injection H as <- _. discriminate Hc.
  - exfalso.
    destruct (dumps_head y (seq_rest "]" (map dumps m) r')) as (c & t & E & Hc).
    rewrite E in H. injection H as <- _. discriminate Hc.
  - inversion HP as [|? ? Hx HP']; inversion Hwl as [|? ? Hwx Hwl'];
      inversion Hwm as [|? ? Hwy Hwm']; subst.
    destruct (Hx y _ _ Hwx Hwy
                (seq_rest_no_int_head "]" _ r (or_introl eq_refl))
                (seq_rest_no_int_head "]" _ r' (or_introl eq_refl)) H) as [Exy Erest].
    destruct (list_rest_inj l HP' Hwl' m r r' Hwm' Hr Hr' Erest) as [Elm ->].
    cbn [same_list]. now rewrite Exy, Elm.
Qed.

Lemma dump_pair_append (kv : string * json) (r : string) :
  (dump_pair kv ++ r)%string =
  String dquote
    (escape (fst kv) ++ String dquote (String ":" (String " " (dumps (snd kv) ++ r)))).
Proof.
  unfold dump_pair, dump_item, encode_basestring_ascii. cbn [fst snd].
  cbn [String.append]. f_equal. now rewrite !append_assoc.
Qed.

Lemma dump_pair_inj (a b : string * json) (r r' : string) :
  readable (snd a) -> wf_json (snd a) -> wf_json (snd b) ->
  no_int_head r -> no_int_head r' ->
  (dump_pair a ++ r = dump_pair b ++ r')%string ->
  same_item a b /\ r = r'.
Proof.
  intros Ha Hwa Hwb Hr Hr' H. rewrite !dump_pair_append in H.
  injection H as H. apply escape_inj in H. destruct H as [Ek H].
  injection H as H.
  destruct (Ha _ _ _ Hwa Hwb Hr Hr' H) as [Ev ->].
  now repeat split.
Qed.

Lemma dict_rest_inj (sd : items) :
  Forall (fun kv => readable (snd kv)) sd ->
  Forall (fun kv => wf_json (snd kv)) sd ->
  forall se r r',
    Forall (fun kv => wf_json (snd kv)) se -> no_int_head r -> no_int_head r' ->
    seq_rest "}" (map dump_pair sd) r = seq_rest "}" (map dump_pair se) r' ->
    Forall2 same_item sd se /\ r = r'.
Proof.
  intros HP Hwd. induction sd as [|a sd IH]; intros [|b se] r r' Hwe Hr Hr' H;
    cbn [map seq_rest] in H; try discriminate H.
  - injection H as ->. split; [constructor|reflexivity].
  - inversion HP as [|? ? Ha HP']; inversion Hwd as [|? ? Hwa Hwd'];
      inversion Hwe as [|? ? Hwb Hwe']; subst.
    apply comma_strip in H.
    destruct (dump_pair_inj a b _ _ Ha Hwa Hwb
                (seq_rest_no_int_head "}" _ r (or_intror eq_refl))
                (seq_rest_no_int_head "}" _ r' (or_intror eq_refl)) H) as [Eab Erest].
    destruct (IH HP' Hwd' se r r' Hwe' Hr Hr' Erest) as [Ede ->].
    split; [now constructor|reflexivity].
Qed.

Lemma dict_body_inj (sd : items) :
  Forall (fun kv => readable (snd kv)) sd ->
  Forall (fun kv => wf_json (snd kv)) sd ->
  forall se r r',
    Forall (fun kv => wf_json (snd kv)) se -> no_int_head r -> no_int_head r' ->
    seq_body "}" (map dump_pair sd) r = seq_body "}" (map dump_pair se) r' ->
    Forall2 same_item sd se /\ r = r'.
Proof.
  intros HP Hwd [|b se] r r' Hwe Hr Hr' H; destruct sd as [|a sd];
    cbn [map seq_body] in H.
  - injection H as ->. split; [constructor|reflexivity].
  - exfalso. rewrite dump_pair_append in H. discriminate H.
  - exfalso. rewrite dump_pair_append in H. discriminate H.
  - inversion HP as [|? ? Ha HP']; inversion Hwd as [|? ? Hwa Hwd'];
      inversion Hwe as [|? ? Hwb Hwe']; subst.
    destruct (dump_pair_inj a b _ _ Ha Hwa Hwb
                (seq_rest_no_int_head "}" _ r (or_intror eq_refl))
                (seq_rest_no_int_head "}" _ r' (or_intror eq_refl)) H) as [Eab Erest].
    destruct (dict_rest_inj sd HP' Hwd' se r r' Hwe' Hr Hr' Erest) as [Ede ->].
    split; [now constructor|reflexivity].
Qed.

Lemma insert_item_map {A B : Type} (f : A -> B) (x : string * A) (l : list (string * A)) :
  insert_item (fst x, f (snd x)) (map (fun kv => (fst kv, f (snd kv))) l) =
  map (fun kv => (fst kv, f (snd kv))) (insert_item x l).
Proof.
  induction l as [|y r IH]; cbn [map insert_item fst]; [reflexivity|].
  destruct (String.leb (fst x) (fst y)); cbn [map]; [reflexivity|]. now rewrite IH.
Qed.

Lemma sort_items_serialized (d : items) :
  map dump_item (sort_items (serialized d)) = map dump_pair (sort_items d).
Proof.
  assert (E : sort_items (serialized d) = serialized (sort_items d)).
  { unfold serialized. induction d as [|x r IH]; [reflexivity|].
    cbn [map sort_items]. rewrite IH. apply insert_item_map. }
  rewrite E. unfold serialized. now rewrite map_map.
Qed.

Lemma Forall2_In_l {A B : Type} (R : A -> B -> Prop) (l : list A) (m : list B) (a : A) :
  Forall2 R l m -> In a l -> exists b, In b m /\ R a b.
Proof.
  induction 1 as [|x y l m Hxy _ IH]; intro Hin; [destruct Hin|].
  destruct Hin as [->|Hin].
  - exists y. split; [now left|exact Hxy].
  - destruct (IH Hin) as (b & Hb & Hab). exists b. split; [now right|exact Hab].
Qed.

Lemma same_items_same_values (d e : items) :
  NoDup (map fst e) ->
  Forall2 same_item (sort_items d) (sort_items e) ->
  (List.length d =? List.length e)%nat && same_values e d = true.
Proof.
  intros Hnd H. apply andb_true_intro. split.
  - apply Nat.eqb_eq.
    rewrite <- (Permutation_length (sort_items_perm d)).
    rewrite <- (Permutation_length (sort_items_perm e)).
    now apply Forall2_length in H.
  - unfold same_values. apply forallb_forall. intros [k v] Hin.
    cbn [fst snd].
    assert (Hin' : In (k, v) (sort_items d)) by now rewrite sort_items_perm.
    destruct (Forall2_In_l _ _ _ _ H Hin') as ([k' w] & Hb & Ek & Ev).
    cbn [fst snd] in Ek, Ev. subst k'.
    rewrite sort_items_perm in Hb.
    now rewrite (In_lookup k w e Hnd Hb).
Qed.

(** The text of a value determines its content. *)
Lemma dumps_readable (x : json) : readable x.
Proof.
  induction x as [| a | a | s | l IH | d IH] using json_ind';
    intros y r r' Hx Hy Hr Hr' H;
    pose proof (dumps_kind _ _ _ _ H) as Hk;
    destruct y as [| b | b | t | m | e]; try discriminate Hk; clear Hk.
  - cbn [dumps String.append] in H. injection H as ->. now split.
  - destruct a, b; cbn [dumps String.append] in H; try discriminate H;
      injection H as ->; now split.
  - cbn [dumps] in H.
    apply int_chars_split in H; auto using str_of_Z_int_chars.
    destruct H as [H ->]. apply str_of_Z_inj in H. subst.
    cbn [same_content]. now rewrite Z.eqb_refl.
  - cbn [dumps] in H. unfold encode_basestring_ascii in H.
    cbn [String.append] in H. injection H as H. rewrite !append_assoc in H.
    cbn [String.append] in H. apply escape_inj in H. destruct H as [-> ->].
    cbn [same_content]. now rewrite String.eqb_refl.
  - rewrite !dumps_list in H. cbn [String.append] in H. injection H as H.
    rewrite !join_seq_body in H.
    apply wf_json_list in Hx, Hy.
    rewrite same_content_list.
    now apply list_body_inj with (r := r) (r' := r').
  - rewrite !dumps_dict in H. cbn [String.append] in H. injection H as H.
    rewrite !join_seq_body, !sort_items_serialized in H.
    apply wf_json_dict in Hx, Hy. destruct Hx as [Hndd Hwd], Hy as [Hnde Hwe].
    apply dict_body_inj in H; auto.
    + destruct H as [H ->]. split; [|reflexivity].
      rewrite same_content_dict. now apply same_items_same_values.
    + revert IH. apply Permutation_Forall, Permutation_sym, sort_items_perm.
    + revert Hwd. apply Permutation_Forall, Permutation_sym, sort_items_perm.
    + revert Hwe. apply Permutation_Forall, Permutation_sym, sort_items_perm.
Qed.

Theorem dumps_injective (x y : json) :
  wf_json x -> wf_json y -> dumps x = dumps y -> same_content x y = true.
Proof.
  intros Hx Hy H.
  apply (dumps_readable x y EmptyString EmptyString Hx Hy I I).
  now rewrite !append_empty_r.
Qed.

(** ** Digests collide *)

Lemma decode1_utf8_char (c : ascii) (r : list Z) :
  decode1 (utf8_char c ++ r) = Some (c, r).
Proof.
  destruct c as [[] [] [] [] [] [] [] []]; reflexivity.
Qed.

Lemma encode_inj (s : string) : forall s', encode s = encode s' -> s = s'.
Proof.
  induction s as [|c s IH]; intros [|c' s'] H; cbn [encode] in H.
  - reflexivity.
  - apply (f_equal decode1) in H. rewrite decode1_utf8_char in H. discriminate.
  - apply (f_equal decode1) in H. rewrite decode1_utf8_char in H. discriminate.
  - apply (f_equal decode1) in H. rewrite !decode1_utf8_char in H.
    injection H as -> H. f_equal. now apply IH.
Qed.

(** hashlib's MD5 itself collides on two strings of 72 letters and digits. *)
Lemma md5_collides :
  md5_collision
    (encode "TEXTCOLLBYfGiJUETHQ4hAcKSMd5zYpgqf1YRDhkmxHkhPWptrkoyz28wnI9V0aHeAuaKnak")
    (encode "TEXTCOLLBYfGiJUETHQ4hEcKSMd5zYpgqf1YRDhkmxHkhPWptrkoyz28wnI9V0aHeAuaKnak").
Proof.
  split; [intro H; apply encode_inj in H; discriminate|].
  vm_compute. reflexivity.
Qed.

(** *** The digest is a number below 2^128 *)

Lemma mask32_range (x : Z) : word32 (MD5.mask32 x).
Proof.
  unfold word32, MD5.mask32.
  change 4294967295 with (Z.ones 32). rewrite Z.land_ones by lia.
  change 4294967296 with (2 ^ 32). apply Z.mod_pos_bound. lia.
Qed.

Lemma compress_in_range (st : MD5.state) (M : list Z) :
  state_in_range (MD5.compress st M).
Proof.
  unfold MD5.compress, state_in_range. cbn [MD5.sa MD5.sb MD5.sc MD5.sd].
  unfold MD5.add32. repeat split; apply mask32_range.
Qed.

Lemma digest_state_in_range (msg : list Z) : state_in_range (MD5.digest_state msg).
Proof.
  unfold MD5.digest_state.
  generalize (MD5.blocks (List.length (MD5.words (MD5.pad msg))) (MD5.words (MD5.pad msg))).
  intro bs.
  assert (H : state_in_range MD5.init) by (unfold state_in_range, word32; cbn; lia).
  revert H. generalize MD5.init.
  induction bs as [|b bs IH]; intros st Hst; cbn [fold_left]; [exact Hst|].
  apply IH, compress_in_range.
Qed.

Lemma state_num_range (st : MD5.state) :
  state_in_range st -> 0 <= state_num st < 2 ^ 128.
Proof.
  unfold state_in_range, word32, state_num.
  change (2 ^ 128) with (4294967296 * (4294967296 * (4294967296 * 4294967296))).
  intros (Ha & Hb & Hc & Hd). lia.
Qed.

Lemma state_num_inj (st st' : MD5.state) :
  state_in_range st -> state_in_range st' -> state_num st = state_num st' -> st = st'.
Proof.
  unfold state_in_range, word32, state_num.
  destruct st as [a b c d], st' as [a' b' c' d']. cbn [MD5.sa MD5.sb MD5.sc MD5.sd].
  intros (Ha & Hb & Hc & Hd) (Ha' & Hb' & Hc' & Hd') H.
  assert (a = a') by lia. subst.
  assert (b = b') by lia. subst.
  assert (c = c') by lia. subst.
  assert (d = d') by lia. now subst.
Qed.

Lemma checksum_num_range (x : json) : 0 <= checksum_num x < 2 ^ 128.
Proof. apply state_num_range, digest_state_in_range. Qed.

Lemma checksum_num_eq (x y : json) :
  checksum_num x = checksum_num y ->
  _generate_state_checksum x = _generate_state_checksum y.
Proof.
  unfold checksum_num. intro H.
  apply state_num_inj in H; try apply digest_state_in_range.
  unfold _generate_state_checksum, MD5.hexdigest, MD5.digest_bytes.
  now rewrite H.
Qed.

(** *** More values than digests *)

Lemma bounded_search (P : Z -> Prop) (n : Z) :
  (forall i, P i \/ ~ P i) -> 0 <= n ->
  (exists i, 0 <= i < n /\ P i) \/ (forall i, 0 <= i < n -> ~ P i).
Proof.
  intros Hdec Hn. pattern n. apply natlike_ind; [| |exact Hn].
  - right. intros i Hi. lia.
  - intros m Hm [(i & Hi & HP) | Hnone].
    + left. exists i. split; [lia|exact HP].
    + destruct (Hdec m) as [HP | HnP].
      * left. exists m. split; [lia|exact HP].
      * right. intros i Hi. destruct (Z.eq_dec i m) as [->|Hne]; [exact HnP|].
        apply Hnone. lia.
Qed.

(** [n + 1] values into [n] numbers: two of them share one. *)
Lemma pigeonhole (n : Z) :
  0 <= n ->
  forall f : Z -> Z,
    (forall i, 0 <= i <= n -> 0 <= f i < n) ->
    exists i j, (0 <= i < j /\ j <= n) /\ f i = f j.
Proof.
  intro Hn. pattern n. apply natlike_ind; [| |exact Hn].
  - intros f Hf. specialize (Hf 0). lia.
  - intros m Hm IH f Hf.
    destruct (bounded_search (fun i => f i = f (Z.succ m)) (Z.succ m)) as
      [(i & Hi & E) | Hnone]; [intro i; destruct (Z.eq_dec (f i) (f (Z.succ m))); auto|lia| |].
    + exists i, (Z.succ m). split; [lia|exact E].
    + set (g := fun i => if f i <? f (Z.succ m) then f i else f i - 1).
      destruct (IH g) as (i & j & Hij & E).
      * intros i Hi. unfold g.
        pose proof (Hf i ltac:(lia)) as Hfi.
        pose proof (Hf (Z.succ m) ltac:(lia)) as Hfm.
        pose proof (Hnone i ltac:(lia)) as Hne. cbn beta in Hne.
        destruct (Z.ltb_spec (f i) (f (Z.succ m))); lia.
      * exists i, j. split; [lia|].
        pose proof (Hnone i ltac:(lia)) as Hi. pose proof (Hnone j ltac:(lia)) as Hj.
        cbn beta in Hi, Hj. unfold g in E.
        destruct (Z.ltb_spec (f i) (f (Z.succ m))), (Z.ltb_spec (f j) (f (Z.succ m))); lia.
Qed.

Lemma same_content_one_monitor (i j : Z) :
  i <> j -> same_content (one_monitor i) (one_monitor j) = false.
Proof.
  intro H. cbn. apply Z.eqb_neq in H. now rewrite H.
Qed.

Lemma wf_one_monitor (i : Z) : wf_json (one_monitor i).
Proof.
  cbn. repeat split. constructor; [intros []|constructor].
Qed.

(** Two lists of monitors that differ in the id and have the same digest. *)
Lemma checksum_collision_exists :
  exists i j, i <> j /\
    _generate_state_checksum (one_monitor i) = _generate_state_checksum (one_monitor j).
Proof.
  destruct (pigeonhole (2 ^ 128) ltac:(lia) (fun i => checksum_num (one_monitor i)))
    as (i & j & Hij & E).
  - intros i _. apply checksum_num_range.
  - exists i, j. split; [lia|]. now apply checksum_num_eq.
Qed.

(** ** Tamper detection *)

Lemma lookup_generate_component (s : QuantumState) (c : component) :
  lookup (component_name c) (generate_validation_checksums s) =
  Some (_generate_state_checksum (get_component c s)).
Proof. rewrite generate_validation_checksums_eq. destruct c; reflexivity. Qed.

Lemma lookup_generate_overall (s : QuantumState) :
  lookup "overall" (generate_validation_checksums s) =
  Some (_generate_state_checksum (overall_dict s)).
Proof. rewrite generate_validation_checksums_eq. reflexivity. Qed.

Lemma component_name_not_overall (c : component) : component_name c <> "overall".
Proof. destruct c; discriminate. Qed.

Lemma generate_set_component (c : component) (v : json) (k : list (string * string))
    (s : QuantumState) :
  generate_validation_checksums (set_component c v (set_validation_checksums k s)) =
  generate_validation_checksums (set_component c v s).
Proof. destruct c; reflexivity. Qed.

Lemma get_set_component (c : component) (v : json) (s : QuantumState) :
  get_component c (set_component c v s) = v.
Proof. destruct c; reflexivity. Qed.

Lemma stored_set_component (c : component) (v : json) (s : QuantumState) :
  validation_checksums (set_component c v s) = validation_checksums s.
Proof. destruct c; reflexivity. Qed.

Lemma differs_true_iff (a b : option string) : differs a b = true <-> a <> b.
Proof.
  rewrite <- Bool.not_false_iff_true, differs_false_iff. reflexivity.
Qed.

Lemma components_agree_false (current stored : list (string * string))
    (k x : string) :
  In (k, x) stored -> k <> "overall" ->
  lookup k current <> Some x ->
  components_agree current stored = false.
Proof.
  intros Hin Hk Hd. induction stored as [|[k' x'] r IH]; [destruct Hin|].
  cbn [components_agree].
  destruct (String.eqb_spec k' "overall") as [->|Hk']; cbn [negb].
  - destruct Hin as [E|Hin]; [injection E as <- _; contradiction|now apply IH].
  - destruct (differs (lookup k' current) (Some x')) eqn:Hdiff; [reflexivity|].
    destruct Hin as [E|Hin]; [|now apply IH].
    injection E as -> ->. apply differs_false_iff in Hdiff. contradiction.
Qed.

Lemma components_agree_true_iff (current stored : list (string * string)) :
  components_agree current stored = true <->
  forall k x, In (k, x) stored -> k <> "overall" -> lookup k current = Some x.
Proof.
  induction stored as [|[k' x'] r IH]; cbn [components_agree].
  - split; [intros _ k x []|reflexivity].
  - destruct (String.eqb_spec k' "overall") as [->|Hk']; cbn [negb].
    + rewrite IH. split; intros H k x.
      * intros [E|Hin] Hk; [injection E as <- <-; congruence|now apply H].
      * intros Hin Hk. apply H; [now right|exact Hk].
    + destruct (differs (lookup k' current) (Some x')) eqn:D.
      * split; [discriminate|]. intro H.
        apply differs_true_iff in D. exfalso. apply D, H; [now left|exact Hk'].
      * apply differs_false_iff in D. rewrite IH. split; intros H k x.
        -- intros [E|Hin] Hk; [injection E as <- <-; exact D|now apply H].
        -- intros Hin Hk. apply H; [now right|exact Hk].
Qed.

(** A stored component digest that differs from the recomputed one fails
    validation. *)
Lemma validate_false_component (s : QuantumState) (k x : string) :
  In (k, x) (validation_checksums s) -> k <> "overall" ->
  lookup k (generate_validation_checksums s) <> Some x ->
  _validate_state_checksums s = false.
Proof.
  intros Hin Hk Hd. unfold _validate_state_checksums.
  now rewrite (components_agree_false _ _ k x Hin Hk Hd).
Qed.

(** So does a stored overall digest that differs from the recomputed one. *)
Lemma validate_false_overall (s : QuantumState) :
  lookup "overall" (validation_checksums s) <>
  lookup "overall" (generate_validation_checksums s) ->
  _validate_state_checksums s = false.
Proof.
  intro Hd. unfold _validate_state_checksums.
  apply differs_true_iff in Hd. rewrite Hd.
  now destruct (components_agree _ _).
Qed.

(** Equal digests of values with different content are an MD5 collision. *)
Lemma equal_checksums_collide (x y : json) :
  wf_json x -> wf_json y -> same_content x y = false ->
  _generate_state_checksum x = _generate_state_checksum y ->
  md5_collision (canonical_bytes x) (canonical_bytes y).
Proof.
  intros Hx Hy Hxy H. split; [|exact H].
  unfold canonical_bytes. intro E. apply encode_inj in E.
  apply (dumps_injective x y Hx Hy) in E. congruence.
Qed.

Lemma wf_overall_dict (s : QuantumState) : wf_snapshot s -> wf_json (overall_dict s).
Proof.
  unfold wf_snapshot, overall_dict. intro H.
  apply wf_json_dict. split.
  - cbn. repeat (constructor; [cbn; intuition discriminate|]). constructor.
  - cbn [components] in H. cbn [asdict popitem String.eqb Ascii.eqb Bool.eqb].
    repeat (apply Forall_cons; [exact I|]).
    exact H.
Qed.

Lemma wf_set_component (c : component) (v : json) (s : QuantumState) :
  wf_snapshot s -> wf_json v -> wf_snapshot (set_component c v s).
Proof.
  unfold wf_snapshot, components. intros H Hv.
  repeat match goal with
         | H : Forall _ (_ :: _) |- _ => inversion H; clear H; subst
         end.
  destruct c; repeat (constructor; try assumption).
Qed.

Lemma wf_get_component (c : component) (s : QuantumState) :
  wf_snapshot s -> wf_json (get_component c s).
Proof.
  unfold wf_snapshot. intro H. rewrite Forall_forall in H.
  apply (H (component_name c, get_component c s)).
  destruct c; cbn; tauto.
Qed.

Lemma overall_dict_differs (c : component) (v : json) (s : QuantumState) :
  same_content v (get_component c s) = false ->
  same_content (overall_dict (set_component c v s)) (overall_dict s) = false.
Proof.
  intro H. unfold overall_dict. rewrite same_content_dict.
  apply andb_false_intro2.
  destruct c; cbn [get_component] in H;
    cbn [same_values forallb asdict popitem set_component lookup fst snd
         String.eqb Ascii.eqb Bool.eqb timestamp session_id monitor_layouts
         workspace_states window_states application_contexts terminal_sessions
         browser_sessions development_environments system_state];
    rewrite H; repeat (rewrite andb_false_r || cbn [andb]); reflexivity.
Qed.

Lemma digests_num_range (s : QuantumState) : 0 <= digests_num s < 2 ^ 256.
Proof.
  unfold digests_num.
  pose proof (checksum_num_range (monitor_layouts s)) as H1.
  pose proof (checksum_num_range (overall_dict s)) as H2.
  change (2 ^ 256) with (2 ^ 128 * 2 ^ 128). nia.
Qed.

Lemma digests_num_eq (s t : QuantumState) :
  digests_num s = digests_num t ->
  checksum_num (monitor_layouts s) = checksum_num (monitor_layouts t) /\
  checksum_num (overall_dict s) = checksum_num (overall_dict t).
Proof.
  unfold digests_num.
  pose proof (checksum_num_range (monitor_layouts s)).
  pose proof (checksum_num_range (monitor_layouts t)).
  pose proof (checksum_num_range (overall_dict s)).
  pose proof (checksum_num_range (overall_dict t)).
  intro E. nia.
Qed.

Lemma wf_monitor_snapshot (i : Z) : wf_snapshot (monitor_snapshot i).
Proof.
  unfold wf_snapshot, components, monitor_snapshot.
  cbn [monitor_layouts workspace_states window_states application_contexts
       terminal_sessions browser_sessions development_environments system_state].
  constructor; [apply wf_one_monitor|].
  repeat (constructor; [exact I|]).
  constructor; [|constructor].
  split; [constructor|exact I].
Qed.

(** A snapshot with the components of another has its component digests. *)
Lemma lookup_generate_name (s s' : QuantumState) (k x : string) :
  components s' = components s ->
  In (k, x) (generate_validation_checksums s) -> k <> "overall" ->
  lookup k (generate_validation_checksums s') = Some x.
Proof.
  intros Hc Hin Hk.
  rewrite (generate_validation_checksums_eq s) in Hin.
  rewrite (generate_validation_checksums_eq s').
  unfold components in Hc.
  injection Hc as -> -> -> -> -> -> -> ->.
  cbn [In] in Hin.
  repeat (destruct Hin as [E|Hin];
          [injection E as <- <-; try reflexivity; now contradiction Hk|]).
  destruct Hin.
Qed.

(** Validation of a snapshot that carries any checksum map. *)
Lemma validate_stored_iff (stored : list (string * string)) (s : QuantumState) :
  _validate_state_checksums (set_validation_checksums stored s) = true <->
  (forall k x, In (k, x) stored -> k <> "overall" ->
               lookup k (generate_validation_checksums s) = Some x) /\
  lookup "overall" stored = lookup "overall" (generate_validation_checksums s).
Proof.
  unfold _validate_state_checksums.
  rewrite generate_ignores_stored_checksums.
  cbn [validation_checksums set_validation_checksums].
  rewrite <- components_agree_true_iff.
  destruct (components_agree _ _); [|split; [discriminate|intros [H _]; discriminate]].
  destruct (differs _ _) eqn:D.
  - apply differs_true_iff in D. split; [discriminate|]. intros [_ H]. contradiction.
  - apply differs_false_iff in D. split; [|reflexivity]. now split.
Qed.

(** The stored map with one component's entry removed still validates. *)
Lemma validate_without_entry (c : component) (s : QuantumState) :
  _validate_state_checksums
    (set_validation_checksums
       (popitem (component_name c) (generate_validation_checksums s)) s) = true.
Proof.
  apply validate_stored_iff. split.
  - intros k x Hin Hk. apply (lookup_generate_name s s k x eq_refl); [|exact Hk].
    rewrite generate_validation_checksums_eq in *.
    destruct c; cbn [component_name popitem String.eqb Ascii.eqb Bool.eqb In] in *; tauto.
  - rewrite generate_validation_checksums_eq. destruct c; reflexivity.
Qed.

(** A snapshot that carries the checksums of [s] and whose content, taken
    as a whole, differs from that of [s]: the overall digest mismatches and
    validation fails, unless MD5 collides on the two serialised snapshots. *)
Lemma tampered_overall_detected (s tampered : QuantumState) :
  wf_snapshot s -> wf_snapshot tampered ->
  validation_checksums tampered = generate_validation_checksums s ->
  same_content (overall_dict tampered) (overall_dict s) = false ->
  lookup "overall" (generate_validation_checksums tampered) <>
    lookup "overall" (validation_checksums tampered) /\
  _validate_state_checksums tampered = false
  \/ md5_collision (canonical_bytes (overall_dict tampered))
                   (canonical_bytes (overall_dict s)).
Proof.
  intros Hs Ht Hstored Hdiff.
  destruct (string_dec (_generate_state_checksum (overall_dict tampered))
                       (_generate_state_checksum (overall_dict s))) as [E|N].
  - right. apply equal_checksums_collide; auto using wf_overall_dict.
  - left.
    assert (Hne : lookup "overall" (generate_validation_checksums tampered) <>
                  lookup "overall" (validation_checksums tampered)).
    { rewrite Hstored, !lookup_generate_overall. congruence. }
    split; [exact Hne|]. apply validate_false_overall. congruence.
Qed.

(** A snapshot that carries the checksums of [s] and one component of
    different content: that component's digest mismatches and validation
    fails, unless MD5 collides on the two serialised components. *)
Lemma tampered_component_detected (s : QuantumState) (c : component) (v : json) :
  wf_snapshot s -> wf_json v ->
  same_content v (get_component c s) = false ->
  let tampered := set_component c v (stamp s) in
  lookup (component_name c) (generate_validation_checksums tampered) <>
    lookup (component_name c) (validation_checksums tampered) /\
  _validate_state_checksums tampered = false
  \/ md5_collision (canonical_bytes v) (canonical_bytes (get_component c s)).
Proof.
  intros Hs Hv Hdiff tampered.
  set (current := generate_validation_checksums tampered).
  set (stored := validation_checksums tampered).
  assert (Hstored : stored = generate_validation_checksums s).
  { unfold stored, tampered. now rewrite stored_set_component. }
  assert (Hcurrent : current = generate_validation_checksums (set_component c v s)).
  { unfold current, tampered, stamp. apply generate_set_component. }
  destruct (string_dec (_generate_state_checksum v)
                       (_generate_state_checksum (get_component c s))) as [E|N].
  - right. apply equal_checksums_collide; auto using wf_get_component.
  - left.
    assert (Hne : lookup (component_name c) current <> lookup (component_name c) stored).
    { rewrite Hcurrent, Hstored, !lookup_generate_component, get_set_component.
      congruence. }
    split; [exact Hne|].
    apply validate_false_component with
      (k := component_name c) (x := _generate_state_checksum (get_component c s)).
    + fold stored. rewrite Hstored. apply lookup_In, lookup_generate_component.
    + apply component_name_not_overall.
    + fold current. rewrite Hstored in Hne.
      now rewrite lookup_generate_component in Hne.
Qed.

Lemma overall_dict_timestamp (t : string) (s : QuantumState) :
  t <> timestamp s ->
  same_content (overall_dict (set_timestamp t s)) (overall_dict s) = false.
Proof.
  intro H. unfold overall_dict. rewrite same_content_dict.
  apply andb_false_intro2.
  cbn [same_values forallb asdict popitem set_timestamp lookup fst snd
       String.eqb Ascii.eqb Bool.eqb timestamp session_id same_content].
  apply String.eqb_neq in H. fold (String.eqb t (timestamp s)). now rewrite H.
Qed.

Lemma overall_dict_session_id (i : string) (s : QuantumState) :
  i <> session_id s ->
  same_content (overall_dict (set_session_id i s)) (overall_dict s) = false.
Proof.
  intro H. unfold overall_dict. rewrite same_content_dict.
  apply andb_false_intro2.
  cbn [same_values forallb asdict popitem set_session_id lookup fst snd
       String.eqb Ascii.eqb Bool.eqb timestamp session_id same_content].
  apply String.eqb_neq in H. fold (String.eqb i (session_id s)). rewrite H.
  now rewrite andb_false_r.
Qed.

(** C1, as stated, fails, in three ways.  The stored checksum map is a
    field of the snapshot: with a component's entry removed from it, the
    snapshot still validates.  The time stamp has no digest of its own:
    when it is changed, every component digest still matches, and the
    mismatch is on the overall digest alone.  And among the snapshots of
    one monitor there are two that differ in the monitor's id and agree on
    both the component digest and the overall digest, so putting the
    monitor list of one into the other, loaded with its own checksums,
    still validates. *)
Lemma C1_tampering_can_go_undetected :
  (let loaded := stamp (monitor_snapshot 0) in
   let stripped := set_validation_checksums
                     (popitem "monitor_layouts" (validation_checksums loaded)) loaded in
   lookup "monitor_layouts" (validation_checksums loaded) <> None /\
   lookup "monitor_layouts" (validation_checksums stripped) = None /\
   _validate_state_checksums stripped = true) /\
  (let loaded := stamp (monitor_snapshot 0) in
   let tampered := set_timestamp "2025-06-01T12:00:00" loaded in
   timestamp tampered <> timestamp loaded /\
   components_agree (generate_validation_checksums tampered)
                    (validation_checksums tampered) = true /\
   lookup "overall" (generate_validation_checksums tampered) <>
     lookup "overall" (validation_checksums tampered) /\
   _validate_state_checksums tampered = false) /\
  (exists (s : QuantumState) (v : json),
     wf_snapshot s /\ wf_json v /\
     same_content v (monitor_layouts s) = false /\
     validation_checksums (stamp s) = generate_validation_checksums s /\
     _validate_state_checksums (set_component MonitorLayouts v (stamp s)) = true).
Proof.
  split; [|split].
  { cbv zeta. split; [vm_compute; discriminate|]. split; vm_compute; reflexivity. }
  { cbv zeta. split; [vm_compute; discriminate|].
    split; [vm_compute; reflexivity|].
    split; [vm_compute; discriminate|vm_compute; reflexivity]. }
  destruct (pigeonhole (2 ^ 256) ltac:(lia) (fun i => digests_num (monitor_snapshot i)))
    as (i & j & Hij & E).
  { intros i _. apply digests_num_range. }
  apply digests_num_eq in E. destruct E as [Ec Eo].
  apply checksum_num_eq in Ec, Eo.
  exists (monitor_snapshot i), (one_monitor j).
  split; [apply wf_monitor_snapshot|].
  split; [apply wf_one_monitor|].
  split; [apply same_content_one_monitor; lia|].
  split; [reflexivity|].
  apply validate_own_checksums.
  rewrite stored_set_component. unfold stamp.
  rewrite generate_set_component.
  cbn [validation_checksums set_validation_checksums].
  rewrite !generate_validation_checksums_eq.
  change (set_component MonitorLayouts (one_monitor j) (monitor_snapshot i))
    with (monitor_snapshot j).
  change (_generate_state_checksum (overall_dict (monitor_snapshot i)) =
          _generate_state_checksum (overall_dict (monitor_snapshot j))) in Eo.
  unfold overall_dict in Eo.
  cbn [asdict popitem String.eqb Ascii.eqb Bool.eqb] in Eo.
  cbn [monitor_snapshot monitor_layouts workspace_states window_states
       application_contexts terminal_sessions browser_sessions
       development_environments system_state timestamp session_id] in *.
  now rewrite Ec, Eo.
Qed.

(** C1, amended, field by field, for a snapshot [s] loaded with the
    checksums of its own content.  A component replaced by a value of
    different content: that component's digest mismatches and validation
    returns false, unless MD5 maps the old and the new serialised
    component to one digest; and the overall digest mismatches and
    validation returns false, unless MD5 maps the old and the new
    serialised snapshot to one digest.  The time stamp or the session id
    changed: every component digest still matches, and the overall digest
    mismatches and validation returns false, unless MD5 maps the old and
    the new serialised snapshot to one digest.  The checksum map replaced:
    validation returns true exactly when every entry of the new map, the
    overall one apart, is the digest recomputed under its name, and its
    overall entry is the recomputed one; so the map with a component's
    entry removed validates. *)
Theorem C1_tamper_detection (s : QuantumState) :
  wf_snapshot s ->
  (forall (c : component) (v : json),
      wf_json v -> same_content v (get_component c s) = false ->
      let tampered := set_component c v (stamp s) in
      let current := generate_validation_checksums tampered in
      let stored := validation_checksums tampered in
      (lookup (component_name c) current <> lookup (component_name c) stored /\
       _validate_state_checksums tampered = false
       \/ md5_collision (canonical_bytes v) (canonical_bytes (get_component c s))) /\
      (lookup "overall" current <> lookup "overall" stored /\
       _validate_state_checksums tampered = false
       \/ md5_collision (canonical_bytes (overall_dict tampered))
                        (canonical_bytes (overall_dict s)))) /\
  (forall t : string,
      t <> timestamp s ->
      let tampered := set_timestamp t (stamp s) in
      let current := generate_validation_checksums tampered in
      let stored := validation_checksums tampered in
      components_agree current stored = true /\
      (lookup "overall" current <> lookup "overall" stored /\
       _validate_state_checksums tampered = false
       \/ md5_collision (canonical_bytes (overall_dict tampered))
                        (canonical_bytes (overall_dict s)))) /\
  (forall i : string,
      i <> session_id s ->
      let tampered := set_session_id i (stamp s) in
      let current := generate_validation_checksums tampered in
      let stored := validation_checksums tampered in
      components_agree current stored = true /\
      (lookup "overall" current <> lookup "overall" stored /\
       _validate_state_checksums tampered = false
       \/ md5_collision (canonical_bytes (overall_dict tampered))
                        (canonical_bytes (overall_dict s)))) /\
  (forall stored : list (string * string),
      _validate_state_checksums (set_validation_checksums stored (stamp s)) = true <->
      (forall name digest,
          In (name, digest) stored -> name <> "overall" ->
          lookup name (generate_validation_checksums s) = Some digest) /\
      lookup "overall" stored = lookup "overall" (generate_validation_checksums s)) /\
  (forall c : component,
      _validate_state_checksums
        (set_validation_checksums
           (popitem (component_name c) (validation_checksums (stamp s))) (stamp s)) = true).
Proof.
  intro Hs. split; [|split; [|split; [|split]]].
  - intros c v Hv Hdiff tampered current stored. split.
    + exact (tampered_component_detected s c v Hs Hv Hdiff).
    + apply (tampered_overall_detected s tampered Hs).
      * unfold tampered, stamp.
        apply (wf_set_component c v (set_validation_checksums _ s) Hs Hv).
      * unfold tampered. now rewrite stored_set_component.
      * replace (overall_dict tampered) with (overall_dict (set_component c v s))
          by (unfold tampered, stamp; destruct c; reflexivity).
        now apply overall_dict_differs.
  - intros t Ht tampered current stored. split.
    + apply components_agree_true_iff. intros k x Hin Hk.
      exact (lookup_generate_name s tampered k x eq_refl Hin Hk).
    + apply (tampered_overall_detected s tampered Hs Hs eq_refl).
      exact (overall_dict_timestamp t s Ht).
  - intros i Hi tampered current stored. split.
    + apply components_agree_true_iff. intros k x Hin Hk.
      exact (lookup_generate_name s tampered k x eq_refl Hin Hk).
    + apply (tampered_overall_detected s tampered Hs Hs eq_refl).
      exact (overall_dict_session_id i s Hi).
  - intro stored. exact (validate_stored_iff stored s).
  - intro c. exact (validate_without_entry c s).
Qed.

Lemma C1_tamper_detection_witness :
  wf_snapshot (monitor_snapshot 0) /\
  (let tampered := set_component MonitorLayouts (one_monitor 1) (stamp (monitor_snapshot 0)) in
   let current := generate_validation_checksums tampered in
   let stored := validation_checksums tampered in
   (lookup "monitor_layouts" current <> lookup "monitor_layouts" stored /\
    _validate_state_checksums tampered = false
    \/ md5_collision (canonical_bytes (one_monitor 1))
                     (canonical_bytes (get_component MonitorLayouts (monitor_snapshot 0)))) /\
   (lookup "overall" current <> lookup "overall" stored /\
    _validate_state_checksums tampered = false
    \/ md5_collision (canonical_bytes (overall_dict tampered))
                     (canonical_bytes (overall_dict (monitor_snapshot 0))))) /\
  (let tampered := set_timestamp "2025-06-01T12:00:00" (stamp (monitor_snapshot 0)) in
   components_agree (generate_validation_checksums tampered)
                    (validation_checksums tampered) = true) /\
  _validate_state_checksums
    (set_validation_checksums
       (popitem "monitor_layouts" (validation_checksums (stamp (monitor_snapshot 0))))
       (stamp (monitor_snapshot 0))) = true.
Proof.
  pose proof (C1_tamper_detection (monitor_snapshot 0) (wf_monitor_snapshot 0))
    as (Hc & Ht & _ & _ & Hm).
  split; [apply wf_monitor_snapshot|].
  split; [exact (Hc MonitorLayouts (one_monitor 1) (wf_one_monitor 1) eq_refl)|].
  split; [|exact (Hm MonitorLayouts)].
  refine (proj1 (Ht "2025-06-01T12:00:00" _)). discriminate.
Defined.

(** The tampering of the test suite: renaming a monitor of a stamped
    snapshot fails validation, on the component and on the overall digest. *)
Example test_state_validation_failure :
  let original := JList [JDict [("id", JInt 0); ("name", JStr "eDP-1")]] in
  let renamed := JList [JDict [("id", JInt 0); ("name", JStr "Tampered Monitor")]] in
  let state := stamp (mkQuantumState "2024-01-01T00:00:00" "quantum_1700000000"
                        original (JList []) (JList []) (JList []) (JList [])
                        (JList []) (JList []) (JDict []) []) in
  let tampered := set_component MonitorLayouts renamed state in
  _validate_state_checksums state = true /\
  _validate_state_checksums tampered = false /\
  lookup "monitor_layouts" (generate_validation_checksums tampered) <>
    lookup "monitor_layouts" (validation_checksums tampered) /\
  lookup "overall" (generate_validation_checksums tampered) <>
    lookup "overall" (validation_checksums tampered).
Proof.
  repeat split; try (vm_compute; reflexivity); vm_compute; discriminate.
Qed.

(** The checks run only over the stored entries: a stored map that has
    lost a component's entry still validates. *)
Lemma validate_ignores_missing_entry :
  let state := stamp (monitor_snapshot 0) in
  let stripped := set_validation_checksums
                    (popitem "monitor_layouts" (validation_checksums state)) state in
  _validate_state_checksums stripped = true.
Proof. vm_compute. reflexivity. Qed.

(** ** Checksum stability *)

(** C2, as stated, fails: some values of different content have the same
    digest, there being more values than digests. *)
Lemma C2_different_content_same_digest :
  exists x y,
    wf_json x /\ wf_json y /\ same_content x y = false /\
    _generate_state_checksum x = _generate_state_checksum y.
Proof.
  destruct checksum_collision_exists as (i & j & Hij & E).
  exists (one_monitor i), (one_monitor j).
  auto using wf_one_monitor, same_content_one_monitor.
Qed.

(** C2, amended: values of identical content, whatever the order in which
    their keys were inserted, have the same digest, and so has a value with
    itself; values of different content have different canonical texts,
    and their digests differ unless MD5 collides on those texts. *)
Theorem C2_checksum_stability (x y : json) :
  wf_json x -> wf_json y ->
  same_content x x = true /\
  (same_content x y = true ->
     _generate_state_checksum x = _generate_state_checksum y) /\
  (same_content x y = false ->
     dumps x <> dumps y /\
     (_generate_state_checksum x = _generate_state_checksum y ->
      md5_collision (canonical_bytes x) (canonical_bytes y))).
Proof.
  intros Hx Hy. split; [now apply dumps_injective|]. split.
  - intro H. unfold _generate_state_checksum.
    now rewrite (same_content_dumps x y Hx Hy H).
  - intro H. split.
    + intro E. apply (dumps_injective x y Hx Hy) in E. congruence.
    + now apply equal_checksums_collide.
Qed.

Lemma wf_monitor_records : wf_json monitor_name_first /\ wf_json monitor_id_first.
Proof.
  split; cbn; (split; [|tauto]);
    repeat (constructor; [cbn; intuition discriminate|]); constructor.
Qed.

Lemma C2_checksum_stability_witness :
  wf_json monitor_name_first /\ wf_json monitor_id_first /\
  same_content monitor_name_first monitor_id_first = true /\
  _generate_state_checksum monitor_name_first = _generate_state_checksum monitor_id_first.
Proof.
  split; [apply wf_monitor_records|].
  split; [apply wf_monitor_records|].
  split; [reflexivity|].
  exact (proj1 (proj2 (C2_checksum_stability monitor_name_first monitor_id_first
                         (proj1 wf_monitor_records) (proj2 wf_monitor_records)))
               eq_refl).
Defined.

(** ** Development-environment detection *)

(** C9, as stated, fails: a process with [NODE_ENV] set yields an entry
    that carries [environment] and no [name]. *)
Lemma C9_node_entry_has_no_name :
  _detect_development_environments [("NODE_ENV", "development")] =
    [ JDict [ ("type", JStr "node"); ("environment", JStr "development");
              ("active", JBool true) ] ] /\
  forallb has_name_shape
    (_detect_development_environments [("NODE_ENV", "development")]) = false.
Proof. split; reflexivity. Qed.

(** C9, amended: every detected entry is one of four records.  The conda,
    venv and pyenv entries carry [type], [name] and [active]; only the venv
    entry carries [path]; the node entry carries [type], [environment] and
    [active], and no [name]. *)
Theorem C9_entry_shapes (env_vars : list (string * string)) (e : json) :
  In e (_detect_development_environments env_vars) ->
  (exists v, lookup "CONDA_DEFAULT_ENV" env_vars = Some v /\ e = conda_entry v) \/
  (exists v, lookup "VIRTUAL_ENV" env_vars = Some v /\ e = venv_entry v) \/
  (exists v, lookup "PYENV_VERSION" env_vars = Some v /\ e = pyenv_entry v) \/
  (exists v, lookup "NODE_ENV" env_vars = Some v /\ e = node_entry v).
Proof.
  unfold _detect_development_environments.
  destruct (lookup "CONDA_DEFAULT_ENV" env_vars) as [c|];
  destruct (lookup "VIRTUAL_ENV" env_vars) as [v|];
  destruct (lookup "PYENV_VERSION" env_vars) as [p|];
  destruct (lookup "NODE_ENV" env_vars) as [n|];
  cbn [app In]; intro H;
  repeat match goal with
         | H : _ \/ _ |- _ => destruct H as [H|H]
         | H : False |- _ => destruct H
         end; subst e; eauto 8.
Qed.

Lemma C9_entry_shapes_witness :
  In venv_test_entry (_detect_development_environments marked_env_vars) /\
  ((exists v, lookup "CONDA_DEFAULT_ENV" marked_env_vars = Some v /\
              venv_test_entry = conda_entry v) \/
   (exists v, lookup "VIRTUAL_ENV" marked_env_vars = Some v /\
              venv_test_entry = venv_entry v) \/
   (exists v, lookup "PYENV_VERSION" marked_env_vars = Some v /\
              venv_test_entry = pyenv_entry v) \/
   (exists v, lookup "NODE_ENV" marked_env_vars = Some v /\
              venv_test_entry = node_entry v)).
Proof.
  assert (H : In venv_test_entry (_detect_development_environments marked_env_vars)).
  { simpl. right. left. reflexivity. }
  split; [exact H|].
  exact (C9_entry_shapes _ _ H).
Defined.

(** The shapes of the four records: which keys each of them carries. *)
Lemma entry_keys (v : string) :
  has_name_shape (conda_entry v) = true /\
  has_name_shape (venv_entry v) = true /\
  has_name_shape (pyenv_entry v) = true /\
  has_name_shape (node_entry v) = false /\
  get (node_entry v) "name" = inr JNull /\
  get (node_entry v) "environment" = inr (JStr v) /\
  get (conda_entry v) "path" = inr JNull /\
  get (pyenv_entry v) "path" = inr JNull /\
  get (venv_entry v) "path" = inr (JStr v).
Proof. repeat split. Qed.

(** ** Workspace and window capture *)

Lemma mapM_inr {A B : Type} (f : A -> result B) (g : A -> B) (l : list A) :
  (forall x, In x l -> f x = inr (g x)) ->
  mapM f l = inr (map g l).
Proof.
  induction l as [|x r IH]; intro H; [reflexivity|].
  cbn [mapM map]. rewrite (H x (or_introl eq_refl)). cbn [bind].
  rewrite IH by (intros y Hy; apply H; now right).
  reflexivity.
Qed.

Lemma mapM_length {A B : Type} (f : A -> result B) (l : list A) (out : list B) :
  mapM f l = inr out -> Forall2 (fun x y => f x = inr y) l out.
Proof.
  revert out. induction l as [|x r IH]; intros out H.
  - injection H as <-. constructor.
  - cbn [mapM] in H. destruct (f x) as [e|y] eqn:Hx; [discriminate|].
    cbn [bind] in H. destruct (mapM f r) as [e|ys] eqn:Hr; [discriminate|].
    injection H as <-. constructor; [exact Hx|]. now apply IH.
Qed.

Lemma workspace_state_no_clients (w : json) :
  has_numeric_id w ->
  workspace_state (JList []) w = inr (workspace_record w).
Proof.
  intros (d & i & n & -> & Hi & Hn).
  unfold workspace_state, workspace_record, get, get_default, field, field_or, py_lt_int.
  cbn [bind ret py_iter filterM mapM]. rewrite Hi, Hn. reflexivity.
Qed.

(** C5, as stated, fails: a workspace entry without an [id] makes the
    capture raise, although no client is reported. *)
Lemma C5_workspace_without_id_raises :
  capture_workspace_states (JList [JDict [("name", JStr "1")]]) JNull = inl TypeError.
Proof. reflexivity. Qed.

(** C5, amended: when the [clients] topic is absent or an empty list and
    every reported workspace carries a numeric [id], the capture returns
    one record per workspace, each with an empty [clients] list. *)
Theorem C5_capture_without_clients (ws : list json) (q_clients : json) :
  Forall has_numeric_id ws ->
  q_clients = JNull \/ q_clients = JList [] ->
  exists records,
    capture_workspace_states (JList ws) q_clients = inr records /\
    records = map workspace_record ws /\
    List.length records = List.length ws /\
    Forall (fun r => get r "clients" = inr (JList [])) records.
Proof.
  intros Hws Hq. exists (map workspace_record ws).
  assert (Hc : py_or q_clients (JList []) = JList [])
    by (destruct Hq as [-> | ->]; reflexivity).
  unfold capture_workspace_states. rewrite Hc.
  assert (Hi : py_iter (py_or (JList ws) (JList [])) = inr ws)
    by (destruct ws; reflexivity).
  rewrite Hi. cbn [bind]. split; [|split; [reflexivity|split]].
  - apply mapM_inr. intros w Hw. apply workspace_state_no_clients.
    rewrite Forall_forall in Hws. now apply Hws.
  - apply length_map.
  - apply Forall_forall. intros r Hr. apply in_map_iff in Hr.
    destruct Hr as (w & <- & _). reflexivity.
Qed.

Lemma C5_capture_without_clients_witness :
  Forall has_numeric_id
    [ JDict [("id", JInt 1); ("name", JStr "1")];
      JDict [("id", JInt (-99)); ("name", JStr "special:scratch")] ] /\
  exists records,
    capture_workspace_states
      (JList [ JDict [("id", JInt 1); ("name", JStr "1")];
               JDict [("id", JInt (-99)); ("name", JStr "special:scratch")] ])
      JNull = inr records /\
    records = map workspace_record
                [ JDict [("id", JInt 1); ("name", JStr "1")];
                  JDict [("id", JInt (-99)); ("name", JStr "special:scratch")] ] /\
    List.length records = 2%nat /\
    Forall (fun r => get r "clients" = inr (JList [])) records.
Proof.
  assert (H : Forall has_numeric_id
    [ JDict [("id", JInt 1); ("name", JStr "1")];
      JDict [("id", JInt (-99)); ("name", JStr "special:scratch")] ]).
  { repeat constructor.
    - exists [("id", JInt 1); ("name", JStr "1")], (JInt 1), 1. repeat split.
    - exists [("id", JInt (-99)); ("name", JStr "special:scratch")], (JInt (-99)), (-99).
      repeat split. }
  split; [exact H|].
  exact (C5_capture_without_clients _ JNull H (or_introl eq_refl)).
Defined.

(** An absent [workspaces] topic yields no record. *)
Lemma capture_workspace_states_absent (q_clients : json) :
  capture_workspace_states JNull q_clients = inr [].
Proof. reflexivity. Qed.

Lemma window_state_active (aw client record : json) :
  window_state aw client = inr record ->
  get record "active" = inr (JBool (py_eq (field "address" client) (field "address" aw))).
Proof.
  unfold window_state, get, get_default.
  destruct client as [| | | | |d]; try discriminate.
  destruct aw as [| | | | |a]; try discriminate.
  cbn [bind ret]. intro H. injection H as <-. reflexivity.
Qed.

Lemma window_state_returns (aw client : json) :
  is_object aw -> is_object client ->
  exists record, window_state aw client = inr record.
Proof.
  intros [a ->] [d ->]. unfold window_state, get, get_default. cbn [bind ret].
  eexists. reflexivity.
Qed.

Lemma mapM_returns {A B : Type} (f : A -> result B) (l : list A) :
  (forall x, In x l -> exists y, f x = inr y) ->
  exists out, mapM f l = inr out.
Proof.
  induction l as [|x r IH]; intro H.
  - exists []. reflexivity.
  - destruct (H x (or_introl eq_refl)) as [y Hy].
    destruct IH as [ys Hys]; [intros z Hz; apply H; now right|].
    exists (y :: ys). cbn [mapM]. rewrite Hy. cbn [bind]. rewrite Hys. reflexivity.
Qed.

(** C6, as stated, fails: with no active window, a client that carries no
    address is marked active. *)
Lemma C6_client_without_address_marked_active :
  exists record,
    capture_window_states (JList [JDict [("class", JStr "kitty")]]) JNull = inr [record] /\
    get record "active" = inr (JBool true).
Proof. eexists. split; reflexivity. Qed.

Lemma py_eq_None (x : json) : py_eq x JNull = is_none x.
Proof. now destruct x. Qed.

(** C6, amended: for clients that are objects, and an [activewindow] result
    that is absent or an object, the capture returns one record per
    client, whose [active] flag is the outcome of comparing the client's
    address with the active window's; a missing address reads as [None] on
    either side.  So with [activewindow] absent a record is marked active
    exactly when its client has no address, and no client that carries an
    address is marked active. *)
Theorem C6_active_flag (cs : list json) (q_activewindow : json) :
  Forall is_object cs ->
  q_activewindow = JNull \/ is_object q_activewindow ->
  exists records,
    capture_window_states (JList cs) q_activewindow = inr records /\
    Forall2 (fun client record =>
               get record "active" = inr (JBool (active_flag q_activewindow client)))
            cs records /\
    (q_activewindow = JNull ->
     Forall2 (fun client record =>
                get record "active" = inr (JBool (is_none (field "address" client))))
             cs records).
Proof.
  intros Hcs Haw.
  set (aw := py_or q_activewindow (JDict [])).
  assert (Hobj : is_object aw).
  { unfold aw. destruct Haw as [-> | [a ->]]; [exists []; reflexivity|].
    destruct a; [exists []|eexists]; reflexivity. }
  assert (Hi : py_iter (py_or (JList cs) (JList [])) = inr cs) by (destruct cs; reflexivity).
  destruct (mapM_returns (window_state aw) cs) as [records Hr].
  { intros c Hc. apply window_state_returns; [exact Hobj|].
    rewrite Forall_forall in Hcs. now apply Hcs. }
  exists records. unfold capture_window_states. fold aw. rewrite Hi. cbn [bind].
  split; [exact Hr|].
  apply mapM_length in Hr.
  assert (Hflag : Forall2 (fun client record =>
               get record "active" = inr (JBool (active_flag q_activewindow client)))
            cs records).
  { revert Hr. apply Forall2_impl. intros c r Hcr.
    apply window_state_active in Hcr. exact Hcr. }
  split; [exact Hflag|].
  intros ->. revert Hflag. apply Forall2_impl. intros c r H.
  rewrite H. unfold active_flag. cbn [py_or truthy field lookup].
  now rewrite py_eq_None.
Qed.

Lemma C6_active_flag_witness :
  Forall is_object
    [ JDict [("address", JStr "0x1"); ("class", JStr "kitty")];
      JDict [("address", JStr "0x2"); ("class", JStr "firefox")] ] /\
  (JDict [("address", JStr "0x2")] = JNull \/ is_object (JDict [("address", JStr "0x2")])) /\
  exists records,
    capture_window_states
      (JList [ JDict [("address", JStr "0x1"); ("class", JStr "kitty")];
               JDict [("address", JStr "0x2"); ("class", JStr "firefox")] ])
      (JDict [("address", JStr "0x2")]) = inr records /\
    Forall2 (fun client record =>
               get record "active" =
               inr (JBool (active_flag (JDict [("address", JStr "0x2")]) client)))
            [ JDict [("address", JStr "0x1"); ("class", JStr "kitty")];
              JDict [("address", JStr "0x2"); ("class", JStr "firefox")] ]
            records /\
    (JDict [("address", JStr "0x2")] = JNull ->
     Forall2 (fun client record =>
                get record "active" = inr (JBool (is_none (field "address" client))))
             [ JDict [("address", JStr "0x1"); ("class", JStr "kitty")];
               JDict [("address", JStr "0x2"); ("class", JStr "firefox")] ]
             records).
Proof.
  assert (H1 : Forall is_object
    [ JDict [("address", JStr "0x1"); ("class", JStr "kitty")];
      JDict [("address", JStr "0x2"); ("class", JStr "firefox")] ])
    by (repeat constructor; eexists; reflexivity).
  assert (H2 : JDict [("address", JStr "0x2")] = JNull \/
               is_object (JDict [("address", JStr "0x2")]))
    by (right; eexists; reflexivity).
  split; [exact H1|]. split; [exact H2|].
  exact (C6_active_flag _ _ H1 H2).
Defined.

(** ** Compatibility check *)

(** C4, as stated, fails: the counts agree, the system-state capture
    raises, and the check returns false. *)
Lemma C4_system_capture_raises :
  let env := mkLive (inr [JDict [("id", JInt 0)]]) (JList [JDict [("id", JInt 1)]]) JNull
                    (inl OSError) in
  let state := mkQuantumState "2024-01-01T00:00:00" "quantum_1"
                 (JList [JDict [("id", JInt 0)]]) (JList [JDict [("id", JInt 1)]])
                 (JList []) (JList []) (JList []) (JList []) (JList []) (JDict []) [] in
  (exists ws, capture_workspace_states (live_workspaces env) (live_clients env) = inr ws /\
              List.length ws = 1%nat) /\
  validate_state_compatibility env state = false.
Proof. split; [eexists; split; reflexivity|reflexivity]. Qed.

(** C4, amended: with both live captures returned, the check is false when
    the monitor counts differ, false when fewer workspaces are live than
    stored, and otherwise true exactly when the system-state capture
    returns as well. *)
Theorem C4_validate_state_compatibility
    (env : live) (state : QuantumState) (ms ws lm lw : list json) :
  live_monitor_layouts env = inr ms ->
  capture_workspace_states (live_workspaces env) (live_clients env) = inr ws ->
  monitor_layouts state = JList lm ->
  workspace_states state = JList lw ->
  (List.length ms <> List.length lm ->
     validate_state_compatibility env state = false) /\
  (List.length ws < List.length lw ->
     validate_state_compatibility env state = false)%nat /\
  (List.length ms = List.length lm -> List.length lw <= List.length ws ->
     (validate_state_compatibility env state = true <->
      exists system, live_system_state env = inr system))%nat.
Proof.
  intros Hm Hw Hlm Hlw. unfold validate_state_compatibility.
  rewrite Hm, Hw, Hlm, Hlw. cbn [bind ret py_len negb].
  destruct (Z.eqb_spec (Z.of_nat (List.length ms)) (Z.of_nat (List.length lm))) as [E|E];
    cbn [negb].
  - destruct (Z.ltb_spec (Z.of_nat (List.length ws)) (Z.of_nat (List.length lw))) as [L|L].
    + repeat split; intros; try reflexivity; lia.
    + split; [intros; lia|]. split; [intros; lia|]. intros _ _.
      destruct (live_system_state env) as [e|sys]; cbn [bind]; split.
      * discriminate.
      * intros [sys H]. discriminate.
      * intros _. now exists sys.
      * reflexivity.
  - split; [reflexivity|]. split.
    + reflexivity.
    + intros; lia.
Qed.

Lemma C4_validate_state_compatibility_witness :
  let env := mkLive (inr [JDict [("id", JInt 0)]])
                    (JList [JDict [("id", JInt 1)]; JDict [("id", JInt 2)]]) JNull
                    (inr (JDict [("cpu_usage", JInt 3)])) in
  let state := mkQuantumState "2024-01-01T00:00:00" "quantum_1"
                 (JList [JDict [("id", JInt 0)]]) (JList [JDict [("id", JInt 1)]])
                 (JList []) (JList []) (JList []) (JList []) (JList []) (JDict []) [] in
  validate_state_compatibility env state = true <->
  exists system, live_system_state env = inr system.
Proof.
  intros env state.
  refine (proj2 (proj2 (C4_validate_state_compatibility env state
            [JDict [("id", JInt 0)]]
            (map workspace_record [JDict [("id", JInt 1)]; JDict [("id", JInt 2)]])
            [JDict [("id", JInt 0)]] [JDict [("id", JInt 1)]]
            eq_refl eq_refl eq_refl eq_refl)) eq_refl _).
  simpl. lia.
Defined.

(** An exception in a live capture makes the check false. *)
Lemma validate_state_compatibility_capture_raises (env : live) (state : QuantumState) :
  (exists e, live_monitor_layouts env = inl e) ->
  validate_state_compatibility env state = false.
Proof.
  intros [e H]. unfold validate_state_compatibility. rewrite H. reflexivity.
Qed.

(** ** Legacy migration *)

Lemma lookup_setitem_other {A : Type} (k k' : string) (v : A) (d : list (string * A)) :
  k <> k' -> lookup k (setitem k' v d) = lookup k d.
Proof.
  intro Hne. induction d as [|[k0 v0] r IH]; cbn [setitem lookup].
  - destruct (String.eqb_spec k k'); [contradiction|reflexivity].
  - destruct (String.eqb_spec k' k0) as [->|Hk0]; cbn [lookup].
    + destruct (String.eqb_spec k k0); [contradiction|reflexivity].
    + destruct (String.eqb_spec k k0); [reflexivity|exact IH].
Qed.

(** C7, as stated, fails: a legacy file whose JSON is not an object (here
    an array) has no [get], and the migration raises. *)
Lemma C7_array_artifact_raises :
  migrate_legacy_state (JList [JDict [("id", JInt 1)]]) "2024-01-01T00:00:00" 1700000000
  = inl AttributeError.
Proof. reflexivity. Qed.

(** C7, amended: migrating a legacy JSON object yields a snapshot whose
    components are the values under the legacy keys (so [monitor_layouts]
    is as long as the legacy [monitors] list), or an empty list (an empty
    map for [system_state]) where the key is absent; its time stamp and
    session id come from the clock; its checksums are those of the
    migrated content, validate, and do not depend on any checksums the
    legacy object holds. *)
Theorem C7_migrate_legacy_state (legacy : items) (iso_now : string) (now : Z) :
  exists s,
    migrate_legacy_state (JDict legacy) iso_now now = inr s /\
    monitor_layouts s = legacy_or "monitors" (JList []) legacy /\
    (forall ms, lookup "monitors" legacy = Some (JList ms) ->
       exists ls, monitor_layouts s = JList ls /\ List.length ls = List.length ms) /\
    workspace_states s = legacy_or "workspaces" (JList []) legacy /\
    window_states s = legacy_or "windows" (JList []) legacy /\
    application_contexts s = legacy_or "applications" (JList []) legacy /\
    terminal_sessions s = legacy_or "terminals" (JList []) legacy /\
    browser_sessions s = legacy_or "browsers" (JList []) legacy /\
    development_environments s = legacy_or "environments" (JList []) legacy /\
    system_state s = legacy_or "system" (JDict []) legacy /\
    timestamp s = iso_now /\
    session_id s = "migrated_" ++ str_of_Z now /\
    validation_checksums s = generate_validation_checksums s /\
    _validate_state_checksums s = true /\
    (forall stale,
       migrate_legacy_state (JDict (setitem "validation_checksums" stale legacy))
         iso_now now = inr s).
Proof.
  eexists. split; [reflexivity|].
  cbn [monitor_layouts workspace_states window_states application_contexts
       terminal_sessions browser_sessions development_environments system_state
       timestamp session_id validation_checksums set_validation_checksums].
  unfold legacy_or.
  repeat (split; [reflexivity|]).
  split.
  { intros ms H. rewrite H. now exists ms. }
  repeat (split; [reflexivity|]).
  split; [apply validate_own_checksums; reflexivity|].
  intro stale. unfold migrate_legacy_state, get_default. cbn [bind ret].
  rewrite !lookup_setitem_other by discriminate. reflexivity.
Qed.

(** ** The optimisation pass *)

(** C8 fails on the code: the pass returns a new snapshot, but the
    environment map of the input's terminal session is the one it filters,
    so the input snapshot loses [LANG]. *)
Theorem C8_optimize_mutates_input :
  exists state h0 optimized h1,
    Heap.load "2024-01-01T00:00:00" "quantum_1" (JList []) (JList []) (JList [])
      (JList []) (JList [kitty_session]) (JList []) (JList []) (JDict []) (JDict [])
      [] = inr (state, h0) /\
    Heap.optimize_state_capture true state h0 = inr (optimized, h1) /\
    Heap.terminal_sessions optimized <> Heap.terminal_sessions state /\
    Heap.reify 8 h0 (Heap.terminal_sessions state) = Some (JList [kitty_session]) /\
    Heap.reify 8 h1 (Heap.terminal_sessions state) = Some (JList [kitty_session_optimized]) /\
    Heap.contents h1 state <> Heap.contents h0 state.
Proof.
  do 4 eexists.
  split; [vm_compute; reflexivity|].
  split; [vm_compute; reflexivity|].
  split; [discriminate|].
  split; [vm_compute; reflexivity|].
  split; [vm_compute; reflexivity|].
  vm_compute. discriminate.
Qed.

(** With optimisation disabled the pass returns its argument and leaves
    the store alone. *)
Lemma optimize_state_capture_disabled (state : Heap.QuantumState) (h : Heap.heap) :
  Heap.optimize_state_capture false state h = inr (state, h).
Proof. reflexivity. Qed.

(** A browser session without a session file makes the pass raise:
    [os.path.basename] does not take [None]. *)
Lemma optimize_raises_without_session_file :
  exists state h0,
    Heap.load "2024-01-01T00:00:00" "quantum_1" (JList []) (JList []) (JList [])
      (JList []) (JList []) (JList [chromium_session]) (JList []) (JDict []) (JDict [])
      [] = inr (state, h0) /\
    Heap.optimize_state_capture true state h0 = inl TypeError.
Proof.
  do 2 eexists. split; vm_compute; reflexivity.
Qed.

(** ** Backup rotation *)

Section BackupLemmas.

Lemma prefix_append (s r : string) : String.prefix s (s ++ r) = true.
Proof.
  induction s as [|c s IH].
  - now destruct r.
  - cbn [String.append]. simpl. destruct (ascii_dec c c); [exact IH|congruence].
Qed.

Lemma is_backup_backup_entry (e : save_event) : is_backup (backup_entry e) = true.
Proof. apply prefix_append. Qed.




Lemma setitem_fresh {A : Type} (k : string) (v : A) (d : list (string * A)) :
  ~ In k (map fst d) -> setitem k v d = (d ++ [(k, v)])%list.
Proof.
  induction d as [|[k' v'] r IH]; intro H; [reflexivity|].
  cbn [setitem app]. cbn [map fst In] in H.
  destruct (String.eqb_spec k k') as [->|_]; [tauto|].
  now rewrite IH by tauto.
Qed.







(** *** Cleanup on any directory *)

Lemma insert_by_ctime_perm (x : string * Z) (l : list (string * Z)) :
  Permutation (insert_by_ctime x l) (x :: l).
Proof.
  induction l as [|y r IH]; cbn [insert_by_ctime]; [reflexivity|].
  destruct (snd x <=? snd y); [reflexivity|].
  rewrite IH. apply perm_swap.
Qed.

Lemma sort_by_ctime_perm (l : list (string * Z)) : Permutation (sort_by_ctime l) l.
Proof.
  induction l as [|x r IH]; cbn [sort_by_ctime]; [reflexivity|].
  rewrite insert_by_ctime_perm. now constructor.
Qed.

Lemma insert_by_ctime_ascending (x : string * Z) (l : list (string * Z)) :
  StronglySorted (fun a b => snd a <= snd b) l ->
  StronglySorted (fun a b => snd a <= snd b) (insert_by_ctime x l).
Proof.
  induction 1 as [|y r Hr IH Hy]; cbn [insert_by_ctime].
  - repeat constructor.
  - destruct (Z.leb_spec (snd x) (snd y)) as [L|L].
    + constructor; [now constructor|]. constructor; [exact L|].
      revert Hy. apply Forall_impl. intros z Hz. lia.
    + constructor; [exact IH|].
      rewrite (insert_by_ctime_perm x r). constructor; [lia|exact Hy].
Qed.

Lemma sort_by_ctime_ascending (l : list (string * Z)) :
  StronglySorted (fun a b => snd a <= snd b) (sort_by_ctime l).
Proof.
  induction l as [|x r IH]; cbn [sort_by_ctime]; [constructor|].
  now apply insert_by_ctime_ascending.
Qed.

Lemma StronglySorted_app_le {A : Type} (R : A -> A -> Prop) (p q : list A) (a b : A) :
  StronglySorted R (p ++ q) -> In a p -> In b q -> R a b.
Proof.
  induction p as [|x p IH]; intros H Ha Hb; [destruct Ha|].
  cbn [app] in H. inversion H as [|? ? Hs Hx]; subst.
  destruct Ha as [->|Ha]; [|now apply IH].
  rewrite Forall_forall in Hx. apply Hx, in_or_app. now right.
Qed.

Lemma NoDup_app_not_both {A : Type} (p q : list A) (a : A) :
  NoDup (p ++ q) -> In a p -> In a q -> False.
Proof.
  induction p as [|x p IH]; intros H Hp Hq; [destruct Hp|].
  cbn [app] in H. inversion H as [|? ? Hnotin Hnd]; subst.
  destruct Hp as [->|Hp]; [|now apply IH].
  apply Hnotin, in_or_app. now right.
Qed.

Lemma same_name_same_file (dir : directory) (f g : string * Z) :
  NoDup (map fst dir) -> In f dir -> In g dir -> fst f = fst g -> f = g.
Proof.
  induction dir as [|h r IH]; intros Hnd Hf Hg E; [destruct Hf|].
  cbn [map] in Hnd. inversion Hnd as [|? ? Hnotin Hnd']; subst.
  destruct Hf as [->|Hf], Hg as [->|Hg].
  - reflexivity.
  - exfalso. apply Hnotin. rewrite E. now apply in_map.
  - exfalso. apply Hnotin. rewrite <- E. now apply in_map.
  - now apply IH.
Qed.

Lemma In_popitem (k : string) (dir : directory) (f : string * Z) :
  NoDup (map fst dir) ->
  (In f (popitem k dir) <-> In f dir /\ fst f <> k).
Proof.
  induction dir as [|[k' v] r IH]; intro Hnd; cbn [popitem].
  - cbn. tauto.
  - cbn [map fst] in Hnd. inversion Hnd as [|? ? Hnotin Hnd']; subst.
    destruct (String.eqb_spec k k') as [->|Hne].
    + split.
      * intro Hin. split; [now right|]. intro E. apply Hnotin. rewrite <- E.
        now apply in_map.
      * intros [[E|Hin] Hk]; [subst f; now contradiction Hk|exact Hin].
    + cbn [In]. rewrite (IH Hnd'). split.
      * intros [E|[Hin Hk]]; [subst f; split; [now left|now cbn; congruence]|tauto].
      * intros [[E|Hin] Hk]; [now left|right; tauto].
Qed.

Lemma NoDup_popitem_names (k : string) (dir : directory) :
  NoDup (map fst dir) -> NoDup (map fst (popitem k dir)).
Proof.
  induction dir as [|[k' v] r IH]; intro Hnd; cbn [popitem]; [exact Hnd|].
  cbn [map fst] in Hnd. inversion Hnd as [|? ? Hnotin Hnd']; subst.
  destruct (String.eqb_spec k k') as [->|Hne]; [exact Hnd'|].
  cbn [map fst]. constructor; [|now apply IH].
  intro Hin. apply Hnotin. apply in_map_iff in Hin. destruct Hin as (f & E & Hin).
  apply (In_popitem k r f Hnd') in Hin. apply in_map_iff. exists f. tauto.
Qed.

Lemma unlink_all_spec (files : list (string * Z)) :
  forall dir : directory,
    NoDup (map fst dir) ->
    NoDup (map fst (unlink_all files dir)) /\
    forall f, In f (unlink_all files dir) <->
              In f dir /\ ~ In (fst f) (map fst files).
Proof.
  unfold unlink_all.
  induction files as [|x r IH]; intros dir Hnd; cbn [fold_left map].
  - split; [exact Hnd|]. intro f. cbn. tauto.
  - destruct (IH (popitem (fst x) dir) (NoDup_popitem_names _ _ Hnd)) as [Hnd' Hin].
    split; [exact Hnd'|]. intro f. rewrite Hin, (In_popitem _ _ _ Hnd).
    cbn [In]. split.
    + intros [[H1 H2] H3]. split; [exact H1|]. intros [E|H]; [now symmetry in E|tauto].
    + intros [H1 H2]. split; [split; [exact H1|]|].
      * intro E. apply H2. left. now symmetry.
      * intro H. apply H2. now right.
Qed.

Lemma In_firstn {A : Type} (n : nat) (l : list A) (x : A) :
  In x (firstn n l) -> In x l.
Proof.
  intro H. rewrite <- (firstn_skipn n l). apply in_or_app. now left.
Qed.

Lemma contains_name {A : Type} (k : string) (d : list (string * A)) :
  In k (map fst d) -> contains k d = true.
Proof.
  unfold contains. induction d as [|[k' v] r IH]; cbn [map fst In lookup]; [tauto|].
  destruct (String.eqb_spec k k') as [->|Hne]; [reflexivity|].
  intros [E|H]; [congruence|now apply IH].
Qed.

(** The removal loop removes the files up to the first the system
    refuses. *)
Lemma remove_files_unlink (os : faults) (files : list (string * Z)) :
  forall dir : directory,
    NoDup (map fst dir) ->
    NoDup (map fst files) ->
    (forall f, In f files -> In (fst f) (map fst dir)) ->
    remove_files os files dir = unlink_all (firstn (removable os files) files) dir.
Proof.
  induction files as [|x r IH]; intros dir Hnd Hfiles Hin; [reflexivity|].
  cbn [remove_files removable]. unfold remove.
  destruct (remove_fails os (fst x)); [reflexivity|].
  rewrite (contains_name _ _ (Hin x (or_introl eq_refl))). cbn [orb negb ret firstn].
  cbn [map] in Hfiles. inversion Hfiles as [|? ? Hx Hr]; subst.
  rewrite IH; [reflexivity|now apply NoDup_popitem_names|exact Hr|].
  intros f Hf.
  specialize (Hin f (or_intror Hf)). apply in_map_iff in Hin.
  destruct Hin as (g & E & Hg). apply in_map_iff. exists g. split; [exact E|].
  apply In_popitem; [exact Hnd|]. split; [exact Hg|].
  intro E'. apply Hx. rewrite <- E', E. now apply in_map.
Qed.

Lemma removable_all (os : faults) (files : list (string * Z)) :
  (forall f, In f files -> remove_fails os (fst f) = false) ->
  removable os files = List.length files.
Proof.
  induction files as [|x r IH]; intro H; [reflexivity|].
  cbn [removable List.length]. rewrite (H x (or_introl eq_refl)).
  f_equal. apply IH. intros f Hf. apply H. now right.
Qed.

Lemma removable_le (os : faults) (files : list (string * Z)) :
  (removable os files <= List.length files)%nat.
Proof.
  induction files as [|x r IH]; cbn [removable List.length]; [lia|].
  destruct (remove_fails os (fst x)); lia.
Qed.

(** Removing the [m] oldest backups: the files that are no backups stay,
    and every backup that goes is at most as recent as every backup that
    stays. *)
Lemma unlink_oldest_spec (m : nat) (dir : directory) :
  NoDup (map fst dir) ->
  let sorted := sort_by_ctime (filter is_backup dir) in
  let out := unlink_all (firstn m sorted) dir in
  NoDup (map fst out) /\
  (forall f, In f out -> In f dir) /\
  (forall f, In f dir -> is_backup f = false -> In f out) /\
  List.length (filter is_backup out) =
    (List.length (filter is_backup dir) - m)%nat /\
  (forall f g, In f dir -> is_backup f = true -> ~ In f out ->
               In g out -> is_backup g = true -> snd f <= snd g).
Proof.
  intros Hnd sorted out. unfold out, sorted.
  set (B := filter is_backup dir).
  set (S := sort_by_ctime B).
  assert (HSB : Permutation S B) by apply sort_by_ctime_perm.
  assert (Hlen : List.length S = List.length B) by now apply Permutation_length.
  set (R := firstn m S). set (T := skipn m S).
  assert (HS : S = (R ++ T)%list) by (symmetry; apply firstn_skipn).
  destruct (unlink_all_spec R dir Hnd) as [Hndout Hout].
  assert (HinS : forall f, In f S <-> In f dir /\ is_backup f = true).
  { intro f. rewrite (Permutation_in' (eq_refl f) HSB). apply filter_In. }
  assert (HndS : NoDup S).
  { apply (Permutation_NoDup (Permutation_sym HSB)). apply NoDup_filter.
    now apply NoDup_map_inv with (f := fst). }
  assert (HR : forall f, In f dir -> (In (fst f) (map fst R) <-> In f R)).
  { intros f Hf. split.
    - intro Hin. apply in_map_iff in Hin. destruct Hin as (r & E & Hr).
      assert (Hrdir : In r dir).
      { apply HinS. rewrite HS. apply in_or_app. now left. }
      now rewrite <- (same_name_same_file dir r f Hnd Hrdir Hf E).
    - apply in_map. }
  assert (HT : forall f, In f T <-> In f dir /\ is_backup f = true /\ ~ In f R).
  { intro f. split.
    - intro Hf. assert (HfS : In f S) by (rewrite HS; apply in_or_app; now right).
      apply HinS in HfS. destruct HfS as [H1 H2]. repeat split; auto.
      intro HfR. rewrite HS in HndS.
      exact (NoDup_app_not_both R T f HndS HfR Hf).
    - intros (H1 & H2 & H3).
      assert (HfS : In f S) by (apply HinS; tauto).
      rewrite HS in HfS. apply in_app_or in HfS. tauto. }
  split; [exact Hndout|].
  split; [intros f Hf; now apply Hout in Hf|].
  split.
  { intros f Hf Hb. apply Hout. split; [exact Hf|]. rewrite (HR f Hf).
    intro HfR. assert (HfS : In f S) by (rewrite HS; apply in_or_app; now left).
    apply HinS in HfS. destruct HfS as [_ Hb']. congruence. }
  split.
  { assert (HP : Permutation (filter is_backup (unlink_all R dir)) T).
    { apply NoDup_Permutation.
      - apply NoDup_filter. now apply NoDup_map_inv with (f := fst).
      - rewrite HS in HndS. now apply NoDup_app_remove_l in HndS.
      - intro f. rewrite filter_In, Hout, HT. split.
        + intros [[H1 H2] H3]. repeat split; auto. now rewrite <- (HR f H1).
        + intros (H1 & H2 & H3). repeat split; auto. now rewrite (HR f H1). }
    rewrite (Permutation_length HP). unfold T. rewrite length_skipn.
    fold B. lia. }
  intros f g Hf Hfb Hnot Hg Hgb.
  assert (HfR : In f R).
  { apply (HR f Hf). destruct (in_dec string_dec (fst f) (map fst R)) as [H|H]; [exact H|].
    exfalso. apply Hnot, Hout. tauto. }
  assert (HgT : In g T).
  { apply Hout in Hg. destruct Hg as [Hg1 Hg2]. apply HT. repeat split; auto.
    now rewrite <- (HR g Hg1). }
  apply (StronglySorted_app_le (fun a b => snd a <= snd b) R T f g); auto.
  rewrite <- HS. apply sort_by_ctime_ascending.
Qed.

(** What cleanup removes is a run of the oldest backups, no longer than
    the excess over the limit, and the whole excess when the system
    refuses nothing. *)
Lemma cleanup_unlinks_oldest (os : faults) (max_backups : Z) (dir : directory) :
  NoDup (map fst dir) ->
  let sorted := sort_by_ctime (filter is_backup dir) in
  let excess := Z.to_nat (Z.of_nat (List.length sorted) - max_backups) in
  exists m,
    _cleanup_old_backups os max_backups dir = unlink_all (firstn m sorted) dir /\
    (m <= excess)%nat /\
    (listdir_fails os = false ->
     (forall f, In f dir -> is_backup f = true -> allows os (fst f)) ->
     m = excess).
Proof.
  intros Hnd sorted excess. unfold _cleanup_old_backups.
  change (fun f : string * Z => String.prefix "backup_" (fst f)) with is_backup.
  fold sorted.
  assert (Hzero : dir = unlink_all (firstn 0 sorted) dir) by reflexivity.
  destruct (listdir_fails os) eqn:Hl.
  { exists 0%nat. split; [exact Hzero|]. split; [lia|discriminate]. }
  destruct (existsb (fun f => getctime_fails os (fst f)) (filter is_backup dir)) eqn:Hg.
  { exists 0%nat. split; [exact Hzero|]. split; [lia|]. intros _ Hall. exfalso.
    apply existsb_exists in Hg. destruct Hg as (f & Hf & Hfail).
    apply filter_In in Hf. destruct (Hall f (proj1 Hf) (proj2 Hf)) as [Hc _].
    congruence. }
  destruct (Z.gtb_spec (Z.of_nat (List.length sorted)) max_backups) as [Hgt|Hle].
  2:{ exists 0%nat. split; [exact Hzero|]. split; [lia|]. intros _ _. unfold excess. lia. }
  fold excess.
  assert (Hperm : Permutation sorted (filter is_backup dir)) by apply sort_by_ctime_perm.
  assert (Hin : forall f, In f sorted -> In f dir /\ is_backup f = true).
  { intros f Hf. apply (Permutation_in _ Hperm) in Hf. now apply filter_In in Hf. }
  assert (Hnds : NoDup (map fst sorted)).
  { apply (Permutation_NoDup (Permutation_map fst (Permutation_sym Hperm))).
    clear - Hnd. induction dir as [|x r IH]; [constructor|].
    cbn [map] in Hnd. inversion Hnd as [|? ? Hx Hr]; subst. cbn [filter].
    destruct (is_backup x); [|now apply IH]. cbn [map]. constructor; [|now apply IH].
    intro H. apply Hx. apply in_map_iff in H. destruct H as (g & E & Hg).
    apply filter_In in Hg. apply in_map_iff. exists g. tauto. }
  rewrite remove_files_unlink; [|exact Hnd| |].
  - destruct (Nat.eq_dec (removable os (firstn excess sorted))
                         (List.length (firstn excess sorted))) as [E|N].
    + exists excess. rewrite E, firstn_all. split; [reflexivity|]. split; [lia|auto].
    + rewrite firstn_firstn.
      exists (Nat.min (removable os (firstn excess sorted)) excess).
      split; [reflexivity|]. split; [lia|].
      intros _ Hall. exfalso. apply N, removable_all.
      intros f Hf. apply In_firstn in Hf. apply Hin in Hf.
      now destruct (Hall f (proj1 Hf) (proj2 Hf)).
  - rewrite <- (firstn_skipn excess sorted), map_app in Hnds.
    now apply NoDup_app_remove_r in Hnds.
  - intros f Hf. apply In_firstn in Hf. apply in_map. now apply Hin.
Qed.

(** Cleanup, whatever the system refuses: the files that are no backups
    stay, at least [max_backups] backups stay (all, if there are fewer),
    and every backup that goes is at most as recent as every backup that
    stays; when nothing is refused, no more than [max_backups] stay. *)
Lemma cleanup_spec (os : faults) (max_backups : Z) (dir : directory) :
  NoDup (map fst dir) -> 0 <= max_backups ->
  let out := _cleanup_old_backups os max_backups dir in
  NoDup (map fst out) /\
  (forall f, In f out -> In f dir) /\
  (forall f, In f dir -> is_backup f = false -> In f out) /\
  Z.min (backup_count dir) max_backups <= backup_count out <= backup_count dir /\
  (listdir_fails os = false ->
   (forall f, In f dir -> is_backup f = true -> allows os (fst f)) ->
   backup_count out = Z.min (backup_count dir) max_backups) /\
  (forall f g, In f dir -> is_backup f = true -> ~ In f out ->
               In g out -> is_backup g = true -> snd f <= snd g).
Proof.
  intros Hnd HK out. unfold out.
  destruct (cleanup_unlinks_oldest os max_backups dir Hnd) as (m & -> & Hm & Hall).
  destruct (unlink_oldest_spec m dir Hnd) as (H0 & H1 & H2 & H3 & H4).
  assert (Hlen : List.length (sort_by_ctime (filter is_backup dir))
                 = List.length (filter is_backup dir))
    by apply Permutation_length, sort_by_ctime_perm.
  rewrite Hlen in Hm, Hall.
  unfold backup_count. rewrite H3.
  repeat split; auto; try lia.
  intros Hl Hok. rewrite (Hall Hl Hok). lia.
Qed.






End BackupLemmas.

(** A removal that the system refuses ends the cleanup: when the oldest
    backup cannot be removed, nothing is. *)
Lemma cleanup_refused_at_once (os : faults) (max_backups : Z) (dir : directory)
    (oldest : string * Z) (rest : list (string * Z)) :
  sort_by_ctime (filter is_backup dir) = oldest :: rest ->
  remove_fails os (fst oldest) = true ->
  _cleanup_old_backups os max_backups dir = dir.
Proof.
  intros Hs Hr. unfold _cleanup_old_backups.
  change (fun f : string * Z => String.prefix "backup_" (fst f)) with is_backup.
  rewrite Hs.
  destruct (listdir_fails os); [reflexivity|].
  destruct (existsb _ _); [reflexivity|].
  destruct (_ >? _); [|reflexivity].
  destruct (Z.to_nat _); [reflexivity|].
  cbn [firstn remove_files]. unfold remove. now rewrite Hr.
Qed.

(** A backup directory that holds a sub-directory named like a backup:
    the sub-directory is the oldest entry, [os.remove] refuses it, and the
    cleanup after a save removes nothing. *)
Example cleanup_stops_at_a_sub_directory :
  let os := mkFaults false (fun _ => false) (String.eqb "backup_old_dir") (fun _ => Copied) in
  let dir := [ ("backup_old_dir", 1); ("backup_a", 2); ("backup_b", 3) ] in
  _create_backup os 1 (mkSave "s.json" 9 9) dir =
    [ ("backup_old_dir", 1); ("backup_a", 2); ("backup_b", 3); ("backup_s.json_9", 9) ] /\
  _create_backup no_faults 1 (mkSave "s.json" 9 9) dir = [ ("backup_s.json_9", 9) ].
Proof. split; vm_compute; reflexivity. Qed.




(** * Further properties *)

(** ** Backups: what a save and a cleanup leave behind *)

Lemma insert_by_ctime_first (x : string * Z) (l : list (string * Z)) :
  Forall (fun z => snd x <= snd z) l -> insert_by_ctime x l = x :: l.
Proof.
  intro H. destruct l as [|y r]; [reflexivity|]. cbn [insert_by_ctime].
  inversion H as [|? ? Hy _]; subst.
  destruct (Z.leb_spec (snd x) (snd y)); [reflexivity|lia].
Qed.

(** The sort is stable, so it commutes with leaving entries out. *)
Lemma filter_insert_by_ctime (q : string * Z -> bool) (x : string * Z)
    (l : list (string * Z)) :
  StronglySorted (fun a b => snd a <= snd b) l ->
  filter q (insert_by_ctime x l) =
  if q x then insert_by_ctime x (filter q l) else filter q l.
Proof.
  induction 1 as [|y r Hr IH Hy]; cbn [insert_by_ctime filter].
  - now destruct (q x).
  - destruct (Z.leb_spec (snd x) (snd y)) as [L|L]; cbn [filter].
    + destruct (q x); [|reflexivity]. symmetry. apply insert_by_ctime_first.
      assert (Hall : Forall (fun z => snd x <= snd z) (y :: r)).
      { constructor; [exact L|]. revert Hy. apply Forall_impl. intros z Hz. lia. }
      rewrite Forall_forall in *. intros z Hz.
      apply Hall. change (In z (filter q (y :: r))) in Hz.
      apply filter_In in Hz. tauto.
    + rewrite IH. destruct (q y), (q x); cbn [insert_by_ctime]; try reflexivity.
      destruct (Z.leb_spec (snd x) (snd y)); [lia|reflexivity].
Qed.

Lemma sort_by_ctime_filter (q : string * Z -> bool) (l : list (string * Z)) :
  sort_by_ctime (filter q l) = filter q (sort_by_ctime l).
Proof.
  induction l as [|x r IH]; [reflexivity|]. cbn [filter sort_by_ctime].
  rewrite filter_insert_by_ctime by apply sort_by_ctime_ascending.
  destruct (q x); cbn [sort_by_ctime]; now rewrite IH.
Qed.

Lemma filter_twice {A : Type} (p q : A -> bool) (l : list A) :
  filter p (filter q l) = filter (fun x => q x && p x) l.
Proof.
  induction l as [|x r IH]; [reflexivity|]. cbn [filter].
  destruct (q x); cbn [filter andb]; [destruct (p x)|]; now rewrite IH.
Qed.

Lemma popitem_filter (k : string) (dir : directory) :
  NoDup (map fst dir) ->
  popitem k dir = filter (fun f => negb (String.eqb (fst f) k)) dir.
Proof.
  induction dir as [|[k' v] r IH]; intro Hnd; [reflexivity|].
  cbn [map fst] in Hnd. inversion Hnd as [|? ? Hnot Hnd']; subst.
  cbn [popitem filter fst]. rewrite (String.eqb_sym k' k).
  destruct (String.eqb_spec k k') as [->|Hne]; cbn [negb].
  - symmetry. apply forallb_filter_id. apply forallb_forall. intros f Hf.
    destruct (String.eqb_spec (fst f) k') as [E|_]; [|reflexivity].
    exfalso. apply Hnot. rewrite <- E. now apply in_map.
  - now rewrite IH.
Qed.

Lemma unlink_all_filter (files : list (string * Z)) :
  forall dir : directory,
    NoDup (map fst dir) -> unlink_all files dir = filter (kept_after files) dir.
Proof.
  unfold unlink_all, kept_after.
  induction files as [|x r IH]; intros dir Hnd; cbn [fold_left map existsb].
  - symmetry. apply forallb_filter_id. now apply forallb_forall.
  - rewrite IH by now apply NoDup_popitem_names.
    rewrite popitem_filter by exact Hnd. rewrite filter_twice.
    apply filter_ext. intro f. now rewrite negb_orb.
Qed.

Lemma filter_none {A : Type} (q : A -> bool) (l : list A) :
  (forall x, In x l -> q x = false) -> filter q l = [].
Proof.
  induction l as [|x r IH]; intro H; [reflexivity|]. cbn [filter].
  rewrite (H x (or_introl eq_refl)). apply IH. intros y Hy. apply H. now right.
Qed.

Lemma sorted_names_distinct (dir : directory) :
  NoDup (map fst dir) -> NoDup (map fst (sort_by_ctime (filter is_backup dir))).
Proof.
  intro Hnd.
  apply (Permutation_NoDup
           (Permutation_map fst (Permutation_sym (sort_by_ctime_perm _)))).
  induction dir as [|x r IH]; [constructor|].
  cbn [map] in Hnd. inversion Hnd as [|? ? Hx Hr]; subst. cbn [filter].
  destruct (is_backup x); [|now apply IH]. cbn [map]. constructor; [|now apply IH].
  intro H. apply Hx. apply in_map_iff in H. destruct H as (g & E & Hg).
  apply filter_In in Hg. apply in_map_iff. exists g. tauto.
Qed.

(** Once the [m] oldest backups are gone, the backups left are the others,
    in the same order. *)
Lemma sorted_after_unlink (m : nat) (dir : directory) :
  NoDup (map fst dir) ->
  let sorted := sort_by_ctime (filter is_backup dir) in
  sort_by_ctime (filter is_backup (unlink_all (firstn m sorted) dir)) = skipn m sorted.
Proof.
  intros Hnd sorted.
  pose proof (sorted_names_distinct dir Hnd) as Hnames. fold sorted in Hnames.
  rewrite unlink_all_filter by exact Hnd.
  rewrite filter_twice.
  rewrite (filter_ext _ (fun f => is_backup f && kept_after (firstn m sorted) f))
    by (intro f; apply andb_comm).
  rewrite <- filter_twice, sort_by_ctime_filter. fold sorted.
  rewrite <- (firstn_skipn m sorted) at 2.
  rewrite <- (firstn_skipn m sorted), map_app in Hnames.
  rewrite filter_app.
  assert (H1 : filter (kept_after (firstn m sorted)) (firstn m sorted) = []).
  { apply filter_none. intros f Hf. unfold kept_after.
    apply negb_false_iff, existsb_exists. exists (fst f).
    split; [now apply in_map|apply String.eqb_refl]. }
  rewrite H1. cbn [app].
  apply forallb_filter_id, forallb_forall. intros f Hf. unfold kept_after.
  apply negb_true_iff, not_true_iff_false. intro E.
  apply existsb_exists in E. destruct E as (k & Hk & Ek).
  apply String.eqb_eq in Ek. subst k.
  apply (NoDup_app_not_both _ _ (fst f) Hnames Hk). now apply in_map.
Qed.

Lemma sort_by_ctime_length (l : list (string * Z)) :
  List.length (sort_by_ctime l) = List.length l.
Proof. apply Permutation_length, sort_by_ctime_perm. Qed.

Lemma remove_files_none (os : faults) (files : list (string * Z)) (dir : directory) :
  removable os files = 0%nat -> remove_files os files dir = dir.
Proof.
  destruct files as [|x r]; [reflexivity|]. cbn [removable remove_files]. unfold remove.
  destruct (remove_fails os (fst x)); [reflexivity|discriminate].
Qed.

(** Where the removal loop stops short, it stops at a file the system
    refuses to remove. *)
Lemma removable_stops (os : faults) (l : list (string * Z)) :
  (removable os l < List.length l)%nat ->
  exists x rest, skipn (removable os l) l = x :: rest /\ remove_fails os (fst x) = true.
Proof.
  induction l as [|y r IH]; cbn [removable List.length]; [lia|].
  destruct (remove_fails os (fst y)) eqn:E.
  - intros _. exists y, r. split; [reflexivity|exact E].
  - intro H. cbn [skipn]. apply IH. lia.
Qed.

Lemma cleanup_listdir_fails (os : faults) (max_backups : Z) (dir : directory) :
  listdir_fails os = true -> _cleanup_old_backups os max_backups dir = dir.
Proof. intro H. unfold _cleanup_old_backups. now rewrite H. Qed.

Lemma cleanup_getctime_fails (os : faults) (max_backups : Z) (dir : directory) :
  existsb (fun f => getctime_fails os (fst f)) (filter is_backup dir) = true ->
  _cleanup_old_backups os max_backups dir = dir.
Proof.
  intro H. unfold _cleanup_old_backups.
  change (fun f : string * Z => String.prefix "backup_" (fst f)) with is_backup.
  rewrite H. now destruct (listdir_fails os).
Qed.

(** The cleanup as the loop it runs, when the directory can be listed and
    every stamp read. *)
Lemma cleanup_loop (os : faults) (max_backups : Z) (dir : directory) :
  listdir_fails os = false ->
  existsb (fun f => getctime_fails os (fst f)) (filter is_backup dir) = false ->
  let sorted := sort_by_ctime (filter is_backup dir) in
  let n := Z.of_nat (List.length sorted) in
  _cleanup_old_backups os max_backups dir =
  if n >? max_backups
  then remove_files os (firstn (Z.to_nat (n - max_backups)) sorted) dir
  else dir.
Proof.
  intros Hl Hg sorted n. unfold _cleanup_old_backups.
  change (fun f : string * Z => String.prefix "backup_" (fst f)) with is_backup.
  now rewrite Hl, Hg.
Qed.

(** What the loop removes: the oldest backups in excess of the limit, up
    to the first the system refuses to remove. *)
Lemma cleanup_removes (os : faults) (max_backups : Z) (dir : directory) :
  NoDup (map fst dir) ->
  listdir_fails os = false ->
  existsb (fun f => getctime_fails os (fst f)) (filter is_backup dir) = false ->
  let sorted := sort_by_ctime (filter is_backup dir) in
  let excess := Z.to_nat (Z.of_nat (List.length sorted) - max_backups) in
  Z.of_nat (List.length sorted) > max_backups ->
  _cleanup_old_backups os max_backups dir =
  unlink_all (firstn (removable os (firstn excess sorted)) sorted) dir.
Proof.
  intros Hnd Hl Hg sorted excess Hn.
  rewrite (cleanup_loop os max_backups dir Hl Hg). fold sorted.
  destruct (Z.gtb_spec (Z.of_nat (List.length sorted)) max_backups) as [_|Hle]; [|lia].
  fold excess.
  assert (Hin : forall f, In f sorted -> In f dir).
  { intros f Hf. apply (Permutation_in _ (sort_by_ctime_perm _)) in Hf.
    now apply filter_In in Hf. }
  pose proof (sorted_names_distinct dir Hnd) as Hnds. fold sorted in Hnds.
  rewrite remove_files_unlink; [|exact Hnd| |].
  - rewrite firstn_firstn. f_equal. f_equal.
    pose proof (removable_le os (firstn excess sorted)) as H.
    rewrite length_firstn in H. lia.
  - rewrite <- (firstn_skipn excess sorted), map_app in Hnds.
    now apply NoDup_app_remove_r in Hnds.
  - intros f Hf. apply In_firstn in Hf. apply in_map. now apply Hin.
Qed.

(** After the loop has stopped, the oldest backup left is one the system
    refuses to remove, or no backup is in excess: a second run of the loop
    removes nothing. *)
Lemma removable_after (os : faults) (max_backups : Z) (sorted : list (string * Z)) :
  let n := Z.of_nat (List.length sorted) in
  let excess := Z.to_nat (n - max_backups) in
  let m := removable os (firstn excess sorted) in
  let n' := Z.of_nat (List.length (skipn m sorted)) in
  n > max_backups -> n' > max_backups ->
  removable os (firstn (Z.to_nat (n' - max_backups)) (skipn m sorted)) = 0%nat.
Proof.
  intros n excess m n' Hn Hn'.
  pose proof (removable_le os (firstn excess sorted)) as Hm. fold m in Hm.
  destruct (Nat.eq_dec m (List.length (firstn excess sorted))) as [E|N].
  - rewrite length_firstn in E.
    destruct (Nat.le_gt_cases (List.length sorted) excess) as [Hall|Hpart].
    + rewrite (skipn_all2 sorted) by lia. now rewrite firstn_nil.
    + exfalso. unfold n' in Hn'. rewrite length_skipn in Hn'. unfold excess, n in *. lia.
  - destruct (removable_stops os (firstn excess sorted)) as (x & rest & Hs & Hx);
      [fold m; lia|].
    fold m in Hs. rewrite skipn_firstn_comm in Hs.
    generalize (Z.to_nat (n' - max_backups)). intro e'.
    generalize dependent (excess - m)%nat. intros d Hs.
    destruct (skipn m sorted) as [|y tail]; [now rewrite firstn_nil in Hs|].
    destruct d; [discriminate|]. cbn [firstn] in Hs.
    injection Hs as -> _.
    destruct e'; [reflexivity|]. cbn [firstn removable]. now rewrite Hx.
Qed.

(** X1: whatever the system refuses, and whatever the limit, a second
    cleanup changes nothing: the first one has removed every backup it is
    let to remove. *)
Theorem cleanup_idempotent (os : faults) (max_backups : Z) (dir : directory) :
  NoDup (map fst dir) ->
  _cleanup_old_backups os max_backups (_cleanup_old_backups os max_backups dir) =
  _cleanup_old_backups os max_backups dir.
Proof.
  intro Hnd.
  destruct (listdir_fails os) eqn:Hl; [now rewrite !cleanup_listdir_fails|].
  destruct (existsb (fun f => getctime_fails os (fst f)) (filter is_backup dir)) eqn:Hg;
    [now rewrite !(cleanup_getctime_fails os max_backups dir Hg)|].
  set (sorted := sort_by_ctime (filter is_backup dir)).
  destruct (Z_gt_le_dec (Z.of_nat (List.length sorted)) max_backups) as [Hn|Hn].
  2:{ assert (E : _cleanup_old_backups os max_backups dir = dir).
      { rewrite (cleanup_loop os max_backups dir Hl Hg). fold sorted.
        destruct (Z.gtb_spec (Z.of_nat (List.length sorted)) max_backups); [lia|reflexivity]. }
      now rewrite !E. }
  rewrite (cleanup_removes os max_backups dir Hnd Hl Hg Hn). fold sorted.
  set (m := removable os (firstn (Z.to_nat (Z.of_nat (List.length sorted) - max_backups))
                            sorted)).
  set (out := unlink_all (firstn m sorted) dir).
  destruct (unlink_all_spec (firstn m sorted) dir Hnd) as [Hndout Hout]. fold out in Hndout, Hout.
  assert (Hg' : existsb (fun f => getctime_fails os (fst f)) (filter is_backup out) = false).
  { apply not_true_iff_false. intro H. apply existsb_exists in H.
    destruct H as (f & Hf & Hfail). apply filter_In in Hf.
    apply not_true_iff_false in Hg. apply Hg, existsb_exists. exists f.
    split; [|exact Hfail]. apply filter_In. split; [now apply Hout|tauto]. }
  assert (Hs : sort_by_ctime (filter is_backup out) = skipn m sorted)
    by apply (sorted_after_unlink m dir Hnd).
  rewrite (cleanup_loop os max_backups out Hl Hg'), Hs.
  destruct (Z.gtb_spec (Z.of_nat (List.length (skipn m sorted))) max_backups) as [Hn'|_];
    [|reflexivity].
  apply remove_files_none.
  apply (removable_after os max_backups sorted); [lia|]. fold m. lia.
Qed.

Lemma cleanup_idempotent_witness :
  let os := mkFaults false (fun _ => false) (String.eqb "backup_c") (fun _ => Copied) in
  let dir := [ ("backup_a", 5); ("notes.txt", 1); ("backup_b", 3); ("backup_c", 4);
               ("backup_d", 6) ] in
  NoDup (map fst dir) /\
  _cleanup_old_backups os 1 (_cleanup_old_backups os 1 dir) =
  [ ("backup_a", 5); ("notes.txt", 1); ("backup_c", 4); ("backup_d", 6) ].
Proof.
  intros os dir.
  assert (H : NoDup (map fst dir)).
  { simpl. repeat (constructor; [simpl; intuition discriminate|]). constructor. }
  split; [exact H|].
  exact (eq_trans (cleanup_idempotent os 1 dir H) eq_refl).
Defined.

Lemma setitem_names {A : Type} (k : string) (v : A) (d : list (string * A)) :
  NoDup (map fst d) -> NoDup (map fst (setitem k v d)).
Proof.
  induction d as [|[k' v'] r IH]; intro Hnd; cbn [setitem].
  - cbn. constructor; [intros []|constructor].
  - cbn [map fst] in Hnd. inversion Hnd as [|? ? Hnotin Hnd']; subst.
    destruct (String.eqb_spec k k') as [->|Hne]; cbn [map fst].
    + now constructor.
    + constructor; [|now apply IH].
      intro Hin. apply Hnotin.
      clear - Hin Hne. induction r as [|[k0 v0] r IH]; cbn [setitem map fst In] in *.
      * destruct Hin as [E|[]]. congruence.
      * destruct (String.eqb_spec k k0) as [->|Hk0]; cbn [map fst In] in Hin.
        -- destruct Hin as [E|Hin]; [congruence|now right].
        -- destruct Hin as [E|Hin]; [now left|right; now apply IH].
Qed.

Lemma In_setitem {A : Type} (k : string) (v : A) (d : list (string * A)) (f : string * A) :
  fst f <> k -> (In f (setitem k v d) <-> In f d).
Proof.
  intro Hne. induction d as [|[k' v'] r IH]; cbn [setitem].
  - cbn. split; [intros [E|[]]; subst f; now contradiction Hne|intros []].
  - destruct (String.eqb_spec k k') as [->|Hk]; cbn [In].
    + split; intros [E|H]; auto; subst f; now contradiction Hne.
    + now rewrite IH.
Qed.

Lemma cleanup_names_distinct (os : faults) (max_backups : Z) (dir : directory) :
  NoDup (map fst dir) -> NoDup (map fst (_cleanup_old_backups os max_backups dir)).
Proof.
  intro Hnd.
  destruct (cleanup_unlinks_oldest os max_backups dir Hnd) as (m & -> & _).
  now apply unlink_all_spec.
Qed.

(** X2: whatever the backup directory holds and whatever the system
    refuses, a save leaves the file names distinct, keeps every file that
    is no backup and adds none, and adds at most one backup.  When the
    copy returns, the directory can be listed, and the system lets the
    stamp be read and the file be removed for the new backup and for every
    backup of the directory, at most [max_backups] backups are left; a
    refusal ends the save and can leave more. *)
Theorem save_bounds_backups (os : faults) (max_backups : Z) (e : save_event)
    (dir : directory) :
  NoDup (map fst dir) -> 0 <= max_backups ->
  let out := _create_backup os max_backups e dir in
  NoDup (map fst out) /\
  (forall f, is_backup f = false -> (In f out <-> In f dir)) /\
  backup_count out <= backup_count dir + 1 /\
  (copy2_ends os (backup_name e) = Copied ->
   listdir_fails os = false ->
   allows os (backup_name e) ->
   (forall f, In f dir -> is_backup f = true -> allows os (fst f)) ->
   backup_count out <= max_backups).
Proof.
  intros Hnd HK out. unfold out, _create_backup, copy2.
  set (dir' := setitem (backup_name e) (ctime e) dir).
  assert (Hnd' : NoDup (map fst dir')) by now apply setitem_names.
  assert (Hname : forall f, is_backup f = false -> fst f <> backup_name e).
  { intros f Hf E. unfold is_backup in Hf. rewrite E in Hf.
    pose proof (is_backup_backup_entry e) as Hb. unfold is_backup in Hb.
    cbn [backup_entry fst] in Hb. congruence. }
  assert (Hsame : forall f, is_backup f = false -> (In f dir' <-> In f dir)).
  { intros f Hf. apply In_setitem. now apply Hname. }
  assert (Hcount : backup_count dir' <= backup_count dir + 1).
  { unfold backup_count, dir'. clear. induction dir as [|[k v] r IH]; cbn [setitem].
    - cbn [filter]. destruct (is_backup _); cbn [List.length]; lia.
    - destruct (String.eqb_spec (backup_name e) k) as [->|_]; cbn [filter].
      + unfold is_backup. cbn [fst]. destruct (String.prefix _ _); cbn [List.length]; lia.
      + destruct (is_backup (k, v)); cbn [List.length]; lia. }
  destruct (copy2_ends os (backup_name e)); cbn [ret raise].
  - destruct (cleanup_spec os max_backups dir' Hnd' HK) as (_ & H1 & H2 & H3 & H4 & _).
    split; [now apply cleanup_names_distinct|].
    split.
    { intros f Hf. rewrite <- (Hsame f Hf).
      split; [apply H1|intro Hin; now apply H2]. }
    split; [lia|].
    intros _ Hl He Hall. rewrite H4; [lia|exact Hl|].
    intros f Hf Hb.
    destruct (string_dec (fst f) (backup_name e)) as [->|Hne]; [exact He|].
    apply Hall; [|exact Hb]. now apply (In_setitem (backup_name e) (ctime e)).
  - split; [exact Hnd|]. split; [tauto|]. split; [lia|discriminate].
  - split; [exact Hnd'|]. split; [exact Hsame|]. split; [exact Hcount|discriminate].
Qed.

Lemma save_bounds_backups_witness :
  let dir := [ ("backup_test_0.json", 1); ("backup_test_1.json", 2);
               ("readme", 0); ("backup_test_2.json", 3) ] in
  let e := mkSave "quantum_state_quantum_9.json" 9 9 in
  NoDup (map fst dir) /\ 0 <= 2 /\
  backup_count (_create_backup no_faults 2 e dir) <= 2.
Proof.
  intros dir e.
  assert (H : NoDup (map fst dir)).
  { simpl. repeat (constructor; [simpl; intuition discriminate|]). constructor. }
  assert (HK : 0 <= 2) by lia.
  split; [exact H|]. split; [exact HK|].
  apply (proj2 (proj2 (proj2 (save_bounds_backups no_faults 2 e dir H HK)))).
  - reflexivity.
  - reflexivity.
  - split; reflexivity.
  - intros f _ _. split; reflexivity.
Defined.

Lemma In_setitem_same {A : Type} (k : string) (v : A) (d : list (string * A)) :
  In (k, v) (setitem k v d).
Proof.
  induction d as [|[k' v'] r IH]; cbn [setitem]; [now left|].
  destruct (String.eqb_spec k k') as [->|_]; [now left|now right].
Qed.

(** X3: with room for at least one backup, the backup a save has just
    written is still there after the cleanup, as long as every other
    backup is older; this holds whatever the system refuses to the
    cleanup. *)
Theorem newest_backup_survives (os : faults) (max_backups : Z) (e : save_event)
    (dir : directory) :
  NoDup (map fst dir) -> 1 <= max_backups ->
  (forall f, In f dir -> is_backup f = true -> fst f <> backup_name e ->
             snd f < ctime e) ->
  copy2_ends os (backup_name e) <> NotCopied ->
  In (backup_entry e) (_create_backup os max_backups e dir).
Proof.
  intros Hnd HK Hold Hcopy. unfold _create_backup, copy2.
  set (dir' := setitem (backup_name e) (ctime e) dir).
  assert (Hnd' : NoDup (map fst dir')) by now apply setitem_names.
  assert (Hnew : In (backup_entry e) dir') by apply In_setitem_same.
  destruct (copy2_ends os (backup_name e)); cbn [ret raise];
    [|congruence|exact Hnew].
  destruct (cleanup_spec os max_backups dir' Hnd' ltac:(lia))
    as (_ & Hsub & _ & Hcount & _ & Holdest).
  set (out := _cleanup_old_backups os max_backups dir') in *.
  destruct (in_dec (fun a b : string * Z =>
                      ltac:(decide equality; [apply Z.eq_dec|apply string_dec]))
              (backup_entry e) out) as [Hin|Hnot]; [exact Hin|exfalso].
  assert (Hpos : 1 <= backup_count dir').
  { assert (H : In (backup_entry e) (filter is_backup dir')).
    { apply filter_In. split; [exact Hnew|apply is_backup_backup_entry]. }
    unfold backup_count.
    destruct (filter is_backup dir'); [destruct H|cbn [List.length]; lia]. }
  unfold backup_count in Hcount at 2.
  destruct (filter is_backup out) as [|g r] eqn:E; [cbn [List.length] in Hcount; lia|].
  assert (Hg : In g (filter is_backup out)) by (rewrite E; now left).
  apply filter_In in Hg. destruct Hg as [Hg Hgb].
  pose proof (Holdest (backup_entry e) g Hnew (is_backup_backup_entry e) Hnot Hg Hgb) as Hle.
  cbn [backup_entry snd] in Hle.
  destruct (string_dec (fst g) (backup_name e)) as [Heq|Hne].
  - apply Hnot.
    rewrite <- (same_name_same_file dir' g (backup_entry e) Hnd' (Hsub g Hg) Hnew Heq).
    exact Hg.
  - assert (Hgd : In g dir) by (apply (In_setitem (backup_name e) (ctime e)); auto).
    specialize (Hold g Hgd Hgb Hne). lia.
Qed.

Lemma newest_backup_survives_witness :
  let dir := [ ("backup_s.json_5", 5); ("notes.txt", 99); ("backup_s.json_7", 7) ] in
  In (backup_entry (mkSave "s.json" 9 9))
     (_create_backup no_faults 1 (mkSave "s.json" 9 9) dir).
Proof.
  intro dir.
  apply (newest_backup_survives no_faults 1 (mkSave "s.json" 9 9) dir).
  - simpl. repeat (constructor; [simpl; intuition discriminate|]). constructor.
  - lia.
  - intros f Hf. simpl in Hf.
    destruct Hf as [<-|[<-|[<-|[]]]]; cbn; intros; try discriminate; lia.
  - discriminate.
Defined.

(** ** Validation: when it succeeds, and what a digest looks like *)

(** X4: validation succeeds exactly when every stored digest, except the
    one called overall, is the digest recomputed under that name, and the
    stored overall digest is the recomputed one.  So a stored digest under a
    name that is no component fails it, a map without an overall digest
    fails it, and a component the stored map does not name is not checked
    on its own. *)
Theorem validate_true_iff (state : QuantumState) :
  _validate_state_checksums state = true <->
  (forall component expected,
      In (component, expected) (validation_checksums state) ->
      component <> "overall" ->
      lookup component (generate_validation_checksums state) = Some expected) /\
  lookup "overall" (validation_checksums state) =
    Some (_generate_state_checksum
            (JDict (popitem "validation_checksums" (asdict state)))).
Proof.
  unfold _validate_state_checksums.
  rewrite <- components_agree_true_iff.
  change (JDict (popitem "validation_checksums" (asdict state)))
    with (overall_dict state).
  rewrite <- (lookup_generate_overall state).
  destruct (components_agree _ _); [|split; [discriminate|intros [H _]; discriminate]].
  destruct (differs _ _) eqn:D.
  - apply differs_true_iff in D. split; [discriminate|]. intros [_ H]. contradiction.
  - apply differs_false_iff in D. split; [|reflexivity]. now split.
Qed.

(** A digest under an unknown name fails validation. *)
Lemma validate_unknown_name (state : QuantumState) (k x : string) :
  In (k, x) (validation_checksums state) ->
  ~ In k checksum_names ->
  _validate_state_checksums state = false.
Proof.
  intros Hin Hk. apply (validate_false_component state k x Hin).
  - intro E. apply Hk. rewrite E. cbn. tauto.
  - rewrite generate_validation_checksums_eq. cbn [lookup].
    repeat match goal with
           | |- context [String.eqb k ?n] =>
               destruct (String.eqb_spec k n) as [->|_];
               [exfalso; apply Hk; cbn; tauto|]
           end.
    discriminate.
Qed.

Lemma hex_digit_hex (n : N) : (n < 16)%N -> is_hex_char (hex_digit n) = true.
Proof.
  intro H. destruct n as [|p]; [reflexivity|].
  do 4 (destruct p as [p|p|]; try reflexivity; try lia).
Qed.

Lemma hex_byte_format (b : Z) :
  0 <= b < 256 ->
  String.length (MD5.hex_byte b) = 2%nat /\ all_chars is_hex_char (MD5.hex_byte b) = true.
Proof.
  intro Hb. split; [reflexivity|].
  unfold MD5.hex_byte. cbn [all_chars].
  rewrite !hex_digit_hex; [reflexivity| |].
  - assert (0 <= Z.land b 15 < 16).
    { change 15 with (Z.ones 4). rewrite Z.land_ones by lia. apply Z.mod_pos_bound. lia. }
    lia.
  - assert (0 <= Z.shiftr b 4 < 16).
    { rewrite Z.shiftr_div_pow2 by lia. change (2 ^ 4) with 16.
      split; [apply Z.div_pos; lia|apply Z.div_lt_upper_bound; lia]. }
    lia.
Qed.

Lemma all_chars_append (p : ascii -> bool) (s r : string) :
  all_chars p (s ++ r) = all_chars p s && all_chars p r.
Proof.
  induction s as [|c s IH]; [reflexivity|].
  cbn [String.append all_chars]. now rewrite IH, andb_assoc.
Qed.

Lemma concat_empty_cons (x : string) (l : list string) :
  concat EmptyString (x :: l) = x ++ concat EmptyString l.
Proof.
  destruct l as [|y l]; cbn [concat]; [now rewrite append_empty_r|reflexivity].
Qed.

Lemma concat_hex_bytes (bs : list Z) :
  Forall (fun b => 0 <= b < 256) bs ->
  String.length (concat EmptyString (map MD5.hex_byte bs)) = (2 * List.length bs)%nat /\
  all_chars is_hex_char (concat EmptyString (map MD5.hex_byte bs)) = true.
Proof.
  induction 1 as [|b r Hb Hr IH]; [split; reflexivity|].
  destruct IH as [IHl IHc].
  destruct (hex_byte_format b Hb) as [_ Hc].
  cbn [map List.length]. rewrite concat_empty_cons. split.
  - unfold MD5.hex_byte at 1. cbn [String.append String.length].
    rewrite IHl. lia.
  - now rewrite all_chars_append, Hc, IHc.
Qed.

Lemma word_bytes_range (w : Z) : Forall (fun b => 0 <= b < 256) (MD5.word_bytes w).
Proof.
  unfold MD5.word_bytes.
  repeat constructor;
    change 255 with (Z.ones 8); rewrite Z.land_ones by lia;
    apply Z.mod_pos_bound; lia.
Qed.

Lemma hexdigest_format (msg : list Z) :
  String.length (MD5.hexdigest msg) = 32%nat /\
  all_chars is_hex_char (MD5.hexdigest msg) = true.
Proof.
  unfold MD5.hexdigest.
  assert (Hr : Forall (fun b => 0 <= b < 256) (MD5.digest_bytes msg)).
  { unfold MD5.digest_bytes. repeat (apply Forall_app; split); apply word_bytes_range. }
  destruct (concat_hex_bytes _ Hr) as [Hl Hc]. split; [|exact Hc].
  rewrite Hl. reflexivity.
Qed.

(** X5: the map of digests has the eight component names and overall, in
    that order, and every digest in it is thirty-two characters out of
    0-9 and a-f, whatever the snapshot holds. *)
Theorem checksums_format (state : QuantumState) :
  map fst (generate_validation_checksums state) = checksum_names /\
  Forall (fun kv => String.length (snd kv) = 32%nat /\
                    all_chars is_hex_char (snd kv) = true)
         (generate_validation_checksums state).
Proof.
  rewrite generate_validation_checksums_eq. split; [reflexivity|].
  repeat constructor; cbn [snd]; apply hexdigest_format.
Qed.

(** ** Capture: one active window, and every client embedded once *)

Lemma py_eq_str (x : json) (a : string) : py_eq x (JStr a) = true <-> x = JStr a.
Proof.
  destruct x; cbn [py_eq]; split; intro H; try discriminate.
  - apply String.eqb_eq in H. now subst.
  - injection H as ->. apply String.eqb_refl.
Qed.

Lemma window_state_fields (aw client record : json) :
  window_state aw client = inr record ->
  field "address" record = field "address" client /\
  field "active" record = JBool (py_eq (field "address" client) (field "address" aw)).
Proof.
  unfold window_state, get, get_default.
  destruct client as [| | | | |d]; try discriminate.
  destruct aw as [| | | | |a]; try discriminate.
  cbn [bind ret]. intro H. injection H as <-. split; reflexivity.
Qed.

Lemma count_distinct {A : Type} (p : A -> bool) (x : A) (l : list A) :
  (forall y, p y = true <-> y = x) -> NoDup l ->
  (In x l -> List.length (filter p l) = 1%nat) /\
  (~ In x l -> List.length (filter p l) = 0%nat).
Proof.
  intros Hp Hnd. induction Hnd as [|y r Hy Hnd IH]; [split; [intros []|reflexivity]|].
  cbn [filter]. destruct (p y) eqn:E.
  - apply Hp in E. subst y. cbn [List.length]. split; [|intro H; contradiction H; now left].
    intros _. f_equal. now apply IH.
  - assert (Hne : y <> x) by (intro E'; apply Hp in E'; congruence).
    split.
    + intros [->|Hin]; [congruence|now apply IH].
    + intro Hnot. apply IH. intro Hin. apply Hnot. now right.
Qed.

(** X6: when the clients have pairwise different addresses and the active
    window carries an address, the capture marks exactly one window active
    if the address is a client's, and none otherwise; the records keep the
    clients' addresses, in the clients' order. *)
Theorem one_active_window (cs : list json) (q_activewindow : json) (a : string) :
  Forall is_object cs ->
  is_object q_activewindow ->
  field "address" q_activewindow = JStr a ->
  NoDup (map (field "address") cs) ->
  exists records,
    capture_window_states (JList cs) q_activewindow = inr records /\
    map (field "address") records = map (field "address") cs /\
    (In (JStr a) (map (field "address") cs) ->
     List.length (filter is_active records) = 1%nat) /\
    (~ In (JStr a) (map (field "address") cs) ->
     List.length (filter is_active records) = 0%nat).
Proof.
  intros Hcs Haw Ha Hnd.
  assert (Hor : py_or q_activewindow (JDict []) = q_activewindow).
  { destruct Haw as [d ->]. destruct d; [discriminate|reflexivity]. }
  assert (Hi : py_iter (py_or (JList cs) (JList [])) = inr cs) by (destruct cs; reflexivity).
  destruct (mapM_returns (window_state q_activewindow) cs) as [records Hr].
  { intros c Hc. apply window_state_returns; [exact Haw|].
    rewrite Forall_forall in Hcs. now apply Hcs. }
  exists records. unfold capture_window_states. rewrite Hor, Hi. cbn [bind].
  split; [exact Hr|].
  apply mapM_length in Hr.
  assert (Haddr : map (field "address") records = map (field "address") cs).
  { clear - Hr. induction Hr as [|c r cs' rs' Hcr _ IH]; [reflexivity|].
    cbn [map]. apply window_state_fields in Hcr. destruct Hcr as [-> _]. now rewrite IH. }
  assert (Hcount : List.length (filter is_active records) =
                   List.length (filter (fun x => py_eq x (JStr a))
                                       (map (field "address") cs))).
  { clear - Hr Ha. induction Hr as [|c r cs' rs' Hcr _ IH]; [reflexivity|].
    cbn [map filter]. apply window_state_fields in Hcr. destruct Hcr as [_ Hact].
    unfold is_active at 1. rewrite Hact, Ha.
    destruct (py_eq (field "address" c) (JStr a)); cbn [List.length]; now rewrite IH. }
  split; [exact Haddr|]. rewrite Hcount.
  apply count_distinct; [intro y; apply py_eq_str|exact Hnd].
Qed.

Lemma one_active_window_witness :
  let cs := [ JDict [("address", JStr "0x1"); ("class", JStr "kitty")];
              JDict [("address", JStr "0x2"); ("class", JStr "firefox")] ] in
  exists records,
    capture_window_states (JList cs) (JDict [("address", JStr "0x2")]) = inr records /\
    List.length (filter is_active records) = 1%nat.
Proof.
  intro cs.
  destruct (one_active_window cs (JDict [("address", JStr "0x2")]) "0x2")
    as (records & H1 & _ & H2 & _).
  - repeat constructor; eexists; reflexivity.
  - eexists; reflexivity.
  - reflexivity.
  - simpl. repeat (constructor; [simpl; intuition discriminate|]). constructor.
  - exists records. split; [exact H1|]. apply H2. simpl. tauto.
Defined.

Lemma filterM_inr {A : Type} (f : A -> result bool) (g : A -> bool) (l : list A) :
  (forall x, In x l -> f x = inr (g x)) ->
  filterM f l = inr (filter g l).
Proof.
  induction l as [|x r IH]; intro H; [reflexivity|].
  cbn [filterM filter]. rewrite (H x (or_introl eq_refl)). cbn [bind].
  rewrite IH by (intros y Hy; apply H; now right).
  reflexivity.
Qed.

Lemma client_in_workspace_inr (w client : json) :
  is_client client ->
  client_in_workspace (field "id" w) client = inr (in_workspace w client).
Proof.
  intros (d & -> & Hw). unfold client_in_workspace, in_workspace, get, get_default, field_or.
  cbn [bind ret]. destruct (lookup "workspace" d) as [v|]; [|reflexivity].
  destruct Hw as [e ->]. reflexivity.
Qed.

Lemma client_reference_inr (client : json) :
  is_object client -> client_reference client = inr (client_record client).
Proof. intros [d ->]. reflexivity. Qed.

Lemma is_client_object (c : json) : is_client c -> is_object c.
Proof. intros (d & -> & _). now exists d. Qed.

Lemma workspace_state_clients (cs : list json) (w : json) :
  has_numeric_id w -> Forall is_client cs ->
  exists record,
    workspace_state (JList cs) w = inr record /\
    embedded_clients record = map client_record (filter (in_workspace w) cs).
Proof.
  intros (d & i & n & -> & Hi & Hn) Hcs. rewrite Forall_forall in Hcs.
  assert (Hid : field "id" (JDict d) = i) by (cbn [field]; now rewrite Hi).
  eexists. split.
  - unfold workspace_state, get, get_default, py_lt_int. cbn [bind ret py_iter].
    rewrite Hi, Hn.
    rewrite (filterM_inr _ (in_workspace (JDict d))).
    2:{ intros c Hc. rewrite <- Hid. apply client_in_workspace_inr. now apply Hcs. }
    cbn [bind ret].
    rewrite (mapM_inr _ client_record).
    2:{ intros c Hc. apply filter_In in Hc. apply client_reference_inr, is_client_object.
        now apply Hcs. }
    cbn [bind ret]. reflexivity.
  - reflexivity.
Qed.

Lemma in_workspace_number (w c : json) (n : Z) :
  workspace_number w = Some n -> in_workspace w c = true ->
  as_number (field "id" (field_or "workspace" (JDict []) c)) = Some n.
Proof.
  unfold workspace_number, in_workspace.
  destruct (field "id" w) as [| b | z | | |]; try discriminate;
    destruct (field "id" _) as [| b' | z' | | |]; cbn [py_eq as_number];
    intros E H; try discriminate; injection E as <-;
    apply Z.eqb_eq in H; now rewrite H.
Qed.

(** A client lies in at most one of workspaces with pairwise different ids. *)
Lemma filter_concat_once (c : json) (cs ws : list json) :
  Forall (fun w => workspace_number w <> None) ws ->
  NoDup (map workspace_number ws) ->
  Permutation
    (List.concat (map (fun w => filter (in_workspace w) (c :: cs)) ws))
    (filter (fun c => existsb (fun w => in_workspace w c) ws) [c] ++
     List.concat (map (fun w => filter (in_workspace w) cs) ws)).
Proof.
  intros Hnum Hnd. induction ws as [|w ws IH]; [reflexivity|].
  cbn [map] in Hnd. inversion Hnd as [|? ? Hnot Hnd']; subst.
  inversion Hnum as [|? ? Hw Hnum']; subst.
  specialize (IH Hnum' Hnd').
  cbn [map List.concat filter existsb] in *.
  destruct (in_workspace w c) eqn:E; cbn [orb app].
  - assert (Hnone : existsb (fun w0 => in_workspace w0 c) ws = false).
    { apply not_true_iff_false. intro Hex. apply existsb_exists in Hex.
      destruct Hex as (w' & Hin & Hw').
      destruct (workspace_number w) as [n|] eqn:Hn; [|congruence].
      destruct (workspace_number w') as [n'|] eqn:Hn'.
      2:{ rewrite Forall_forall in Hnum'. now apply (Hnum' w' Hin). }
      pose proof (in_workspace_number w c n Hn E) as H1.
      pose proof (in_workspace_number w' c n' Hn' Hw') as H2.
      apply Hnot. apply in_map_iff. exists w'. split; [congruence|exact Hin]. }
    rewrite Hnone in IH. cbn [app] in IH. constructor.
    now apply Permutation_app_head.
  - destruct (existsb _ ws); cbn [app] in *.
    + rewrite IH. symmetry. apply Permutation_middle.
    + now apply Permutation_app_head.
Qed.

Lemma concat_filter_workspaces (cs ws : list json) :
  Forall (fun w => workspace_number w <> None) ws ->
  NoDup (map workspace_number ws) ->
  Permutation
    (List.concat (map (fun w => filter (in_workspace w) cs) ws))
    (filter (fun c => existsb (fun w => in_workspace w c) ws) cs).
Proof.
  intros Hnum Hnd. induction cs as [|c cs IH].
  - cbn [filter]. clear. induction ws as [|w ws IH]; [reflexivity|exact IH].
  - rewrite (filter_concat_once c cs ws Hnum Hnd).
    change (c :: cs) with ([c] ++ cs)%list. rewrite filter_app.
    now apply Permutation_app_head.
Qed.

(** X7: with workspaces of pairwise different numeric ids, the records the
    capture returns embed, taken together, exactly the clients that sit on
    one of the reported workspaces, each of them once; a client on a
    workspace that is not reported is embedded nowhere. *)
Theorem clients_embedded_once (ws cs : list json) :
  Forall has_numeric_id ws ->
  Forall is_client cs ->
  NoDup (map workspace_number ws) ->
  exists records,
    capture_workspace_states (JList ws) (JList cs) = inr records /\
    Forall2 (fun w record =>
               embedded_clients record = map client_record (filter (in_workspace w) cs))
            ws records /\
    Permutation
      (List.concat (map embedded_clients records))
      (map client_record
           (filter (fun c => existsb (fun w => in_workspace w c) ws) cs)).
Proof.
  intros Hws Hcs Hnd.
  assert (Hi : py_iter (py_or (JList ws) (JList [])) = inr ws) by (destruct ws; reflexivity).
  assert (Hc : py_or (JList cs) (JList []) = JList cs) by (destruct cs; reflexivity).
  destruct (mapM_returns (workspace_state (JList cs)) ws) as [records Hr].
  { intros w Hw. rewrite Forall_forall in Hws.
    destruct (workspace_state_clients cs w (Hws w Hw) Hcs) as (r & Hr & _). now exists r. }
  exists records. unfold capture_workspace_states. rewrite Hi, Hc. cbn [bind].
  split; [exact Hr|].
  apply mapM_length in Hr.
  assert (Hemb : Forall2 (fun w record =>
               embedded_clients record = map client_record (filter (in_workspace w) cs))
            ws records).
  { clear Hnd Hi. induction Hr as [|w r ws' rs' Hwr _ IH]; constructor.
    - inversion Hws as [|? ? Hw _]; subst.
      destruct (workspace_state_clients cs w Hw Hcs) as (r' & Hr' & He). congruence.
    - apply IH. now inversion Hws. }
  split; [exact Hemb|].
  assert (E : List.concat (map embedded_clients records) =
              map client_record (List.concat (map (fun w => filter (in_workspace w) cs) ws))).
  { clear - Hemb. induction Hemb as [|w r ws' rs' H _ IH]; [reflexivity|].
    cbn [map List.concat]. now rewrite map_app, H, IH. }
  rewrite E. apply Permutation_map, concat_filter_workspaces; [|exact Hnd].
  rewrite Forall_forall in *. intros w Hw.
  destruct (Hws w Hw) as (d & i & n & -> & Hi' & Hn).
  unfold workspace_number. cbn [field]. rewrite Hi', Hn. discriminate.
Qed.

Lemma clients_embedded_once_witness :
  let ws := [ JDict [("id", JInt 1)]; JDict [("id", JInt 2)] ] in
  let cs := [ JDict [("address", JStr "0xa"); ("workspace", JDict [("id", JInt 2)])];
              JDict [("address", JStr "0xb"); ("workspace", JDict [("id", JInt 3)])];
              JDict [("address", JStr "0xc")] ] in
  exists records,
    capture_workspace_states (JList ws) (JList cs) = inr records /\
    Permutation (List.concat (map embedded_clients records))
                [ client_record
                    (JDict [("address", JStr "0xa");
                            ("workspace", JDict [("id", JInt 2)])]) ].
Proof.
  intros ws cs.
  destruct (clients_embedded_once ws cs) as (records & H1 & _ & H2).
  - repeat constructor.
    + exists [("id", JInt 1)], (JInt 1), 1. repeat split.
    + exists [("id", JInt 2)], (JInt 2), 2. repeat split.
  - repeat constructor.
    + eexists. split; [reflexivity|]. cbn. eexists; reflexivity.
    + eexists. split; [reflexivity|]. cbn. eexists; reflexivity.
    + eexists. split; [reflexivity|]. cbn. exact I.
  - simpl. repeat (constructor; [simpl; intuition discriminate|]). constructor.
  - exists records. split; [exact H1|exact H2].
Defined.

(** ** The environment of a process *)

Lemma has_char_append (c : ascii) (a b : string) :
  has_char c (a ++ b) = has_char c a || has_char c b.
Proof.
  induction a as [|x a IH]; [reflexivity|].
  cbn [String.append has_char]. now rewrite IH, orb_assoc.
Qed.

Lemma split_nonempty (sep : ascii) (s : string) : split sep s <> [].
Proof.
  destruct s as [|c r]; cbn [split]; [discriminate|].
  destruct (Ascii.eqb c sep); [discriminate|]. destruct (split sep r); discriminate.
Qed.

Lemma split_line (sep : ascii) (a r : string) :
  has_char sep a = false ->
  split sep (a ++ String sep r) = a :: split sep r.
Proof.
  induction a as [|c a IH]; cbn [String.append has_char split]; intro H.
  - now rewrite Ascii.eqb_refl.
  - apply orb_false_iff in H. destruct H as [Hc Ha]. rewrite Hc, (IH Ha). reflexivity.
Qed.

Lemma split_once_line (sep : ascii) (k v : string) :
  has_char sep k = false ->
  split_once sep (k ++ String sep v) = (k, v).
Proof.
  induction k as [|c k IH]; cbn [String.append has_char split_once]; intro H.
  - now rewrite Ascii.eqb_refl.
  - apply orb_false_iff in H. destruct H as [Hc Hk]. rewrite Hc, (IH Hk). reflexivity.
Qed.

Lemma split_once_parts (sep : ascii) (s : string) :
  has_char sep s = true ->
  s = fst (split_once sep s) ++ String sep (snd (split_once sep s)) /\
  has_char sep (fst (split_once sep s)) = false.
Proof.
  induction s as [|c s IH]; cbn [has_char split_once]; [discriminate|].
  destruct (Ascii.eqb_spec c sep) as [->|Hne]; cbn [orb].
  - intros _. split; reflexivity.
  - intro H. destruct (IH H) as [E Hk].
    destruct (split_once sep s) as [k v]. cbn [fst snd String.append has_char] in *.
    split; [now rewrite <- E|].
    rewrite Hk. destruct (Ascii.eqb_spec c sep); [contradiction|reflexivity].
Qed.

Lemma split_no_separator (sep : ascii) (s : string) :
  Forall (fun line => has_char sep line = false) (split sep s).
Proof.
  induction s as [|c s IH]; cbn [split]; [repeat constructor|].
  destruct (Ascii.eqb_spec c sep) as [->|Hne]; [constructor; [reflexivity|exact IH]|].
  destruct (split sep s) as [|x xs]; [repeat constructor; cbn|].
  - destruct (Ascii.eqb_spec c sep); [contradiction|reflexivity].
  - inversion IH; subst. constructor; [|assumption].
    cbn [has_char]. destruct (Ascii.eqb_spec c sep); [contradiction|assumption].
Qed.

Lemma split_environ_text (env : list (string * string)) :
  Forall plain_variable env ->
  split newline (environ_text env) =
  (map (fun kv => (fst kv ++ String equals_sign (snd kv))%string) env ++ [EmptyString])%list.
Proof.
  induction 1 as [|[k v] r (Hk & Hkn & Hvn) _ IH]; [reflexivity|].
  cbn [environ_text map app fst snd] in *.
  replace (k ++ String equals_sign (v ++ String newline (environ_text r)))
    with ((k ++ String equals_sign v) ++ String newline (environ_text r)).
  2:{ rewrite append_assoc. reflexivity. }
  rewrite split_line, IH; [reflexivity|].
  rewrite has_char_append. cbn [has_char]. rewrite Hkn, Hvn. reflexivity.
Qed.

Lemma env_vars_fold (env acc : list (string * string)) :
  Forall plain_variable env ->
  NoDup (map fst (acc ++ env)) ->
  fold_left (fun env_vars line =>
               if has_char equals_sign line then
                 let '(key, value) := split_once equals_sign line in
                 setitem key value env_vars
               else env_vars)
            (map (fun kv => (fst kv ++ String equals_sign (snd kv))%string) env
               ++ [EmptyString])%list
            acc
  = (acc ++ env)%list.
Proof.
  intro Hp. revert acc. induction Hp as [|[k v] r (Hk & _ & _) _ IH]; intros acc Hnd.
  - cbn. now rewrite app_nil_r.
  - cbn [map app fold_left fst snd] in *.
    rewrite has_char_append. cbn [has_char]. rewrite Ascii.eqb_refl, orb_true_r.
    rewrite (split_once_line _ k v Hk).
    rewrite setitem_fresh.
    2:{ rewrite map_app in Hnd. cbn [map fst] in Hnd.
        apply NoDup_remove_2 in Hnd. intro Hin. apply Hnd, in_or_app. now left. }
    rewrite IH; rewrite <- app_assoc; [reflexivity|exact Hnd].
Qed.

(** X8: the loop reads back the variables of a process: from the text that
    holds each variable as [key=value] followed by a newline, keys pairwise
    different and free of [=], keys and values free of newlines, it builds
    the dictionary of exactly these variables, in their order.  Only the
    first [=] of a line separates, so a value may hold [=]. *)
Theorem env_vars_round_trip (env_vars : list (string * string)) :
  Forall plain_variable env_vars ->
  NoDup (map fst env_vars) ->
  env_vars_of (environ_text env_vars) = env_vars.
Proof.
  intros Hp Hnd. unfold env_vars_of.
  rewrite (split_environ_text env_vars Hp).
  exact (env_vars_fold env_vars [] Hp Hnd).
Qed.

Lemma env_vars_round_trip_witness :
  env_vars_of (environ_text [ ("HOME", "/home/user"); ("LS_COLORS", "di=01;34:ln=01;36");
                              ("EMPTY", EmptyString) ])
  = [ ("HOME", "/home/user"); ("LS_COLORS", "di=01;34:ln=01;36"); ("EMPTY", EmptyString) ].
Proof.
  apply env_vars_round_trip.
  - repeat constructor.
  - simpl. repeat (constructor; [simpl; intuition discriminate|]). constructor.
Defined.

Lemma setitem_preserves {A : Type} (P : string * A -> Prop) (k : string) (v : A)
    (d : list (string * A)) :
  P (k, v) -> Forall P d -> Forall P (setitem k v d).
Proof.
  intros Hkv. induction 1 as [|[k' v'] r Hx Hr IH]; cbn [setitem].
  - repeat constructor. exact Hkv.
  - destruct (String.eqb k k'); constructor; auto.
Qed.

(** X9: whatever the text, no key the loop stores holds [=] or a newline,
    no value holds a newline, and no key is stored twice.  So a variable
    whose value spans lines is cut at its first newline. *)
Theorem env_vars_well_formed (env_data : string) :
  Forall plain_variable (env_vars_of env_data) /\
  NoDup (map fst (env_vars_of env_data)).
Proof.
  unfold env_vars_of.
  pose proof (split_no_separator newline env_data) as Hlines.
  assert (H : Forall plain_variable (@nil (string * string)) /\
              NoDup (map fst (@nil (string * string))))
    by (split; constructor).
  revert H. generalize (@nil (string * string)).
  induction Hlines as [|line lines Hline _ IH]; intros acc [Hp Hnd]; [now split|].
  cbn [fold_left]. apply IH.
  destruct (has_char equals_sign line) eqn:E; [|now split].
  destruct (split_once_parts equals_sign line E) as [Hparts Hkey].
  destruct (split_once equals_sign line) as [key value]. cbn [fst snd] in *.
  rewrite Hparts, has_char_append in Hline. cbn [has_char] in Hline.
  apply orb_false_iff in Hline. destruct Hline as [Hk Hv].
  apply orb_false_iff in Hv. destruct Hv as [_ Hv].
  split; [|now apply setitem_names].
  apply setitem_preserves; [|exact Hp]. repeat split; assumption.
Qed.

(** ** Detection of development environments *)

Lemma detect_nothing_iff (env_vars : list (string * string)) :
  _detect_development_environments env_vars = [] <-> has_marker env_vars = false.
Proof.
  unfold _detect_development_environments, has_marker, markers, contains.
  cbn [existsb fst].
  destruct (lookup "CONDA_DEFAULT_ENV" env_vars) as [c|];
  destruct (lookup "VIRTUAL_ENV" env_vars) as [v|];
  destruct (lookup "PYENV_VERSION" env_vars) as [p|];
  destruct (lookup "NODE_ENV" env_vars) as [n|];
  cbn [app orb]; split; intro H; first [discriminate H|reflexivity].
Qed.

(** X10: the entries come in the order conda, venv, pyenv, node, one for
    each marker variable that is set, however the variables are ordered;
    in particular nothing is detected exactly when no marker is set. *)
Theorem detected_types (env_vars : list (string * string)) :
  map (field "type") (_detect_development_environments env_vars) =
  map (fun m => JStr (snd m)) (filter (fun m => contains (fst m) env_vars) markers) /\
  (_detect_development_environments env_vars = [] <-> has_marker env_vars = false).
Proof.
  unfold _detect_development_environments, has_marker, markers, contains.
  cbn [filter existsb fst snd].
  destruct (lookup "CONDA_DEFAULT_ENV" env_vars) as [c|];
  destruct (lookup "VIRTUAL_ENV" env_vars) as [v|];
  destruct (lookup "PYENV_VERSION" env_vars) as [p|];
  destruct (lookup "NODE_ENV" env_vars) as [n|];
  cbn [app map field lookup String.eqb Ascii.eqb Bool.eqb orb snd];
  (split; [reflexivity|split; intro H; first [discriminate H|reflexivity]]).
Qed.

Lemma basename_from_plain (name cur : string) :
  has_char slash name = false -> basename_from name cur = (cur ++ name)%string.
Proof.
  revert cur. induction name as [|c name IH]; intros cur H; cbn [basename_from].
  - now rewrite append_empty_r.
  - cbn [has_char] in H. apply orb_false_iff in H. destruct H as [Hc Hn].
    rewrite Hc, (IH _ Hn), append_assoc. reflexivity.
Qed.

Lemma basename_from_directory (dir name cur : string) :
  basename_from (dir ++ String slash name) cur = basename_from name EmptyString.
Proof.
  revert cur. induction dir as [|c dir IH]; intro cur; cbn [String.append basename_from].
  - now rewrite Ascii.eqb_refl.
  - destruct (Ascii.eqb c slash); apply IH.
Qed.

Lemma basename_last_component (dir name : string) :
  has_char slash name = false -> basename (dir ++ String slash name) = name.
Proof.
  intro H. unfold basename. rewrite basename_from_directory.
  now rewrite basename_from_plain.
Qed.

(** X11: a virtual environment is named after the last component of its
    path: for [VIRTUAL_ENV] set to [dir/name], with no slash in [name],
    the venv entry carries [name] and the whole path.  A path that ends
    in a slash therefore gives an empty name. *)
Theorem venv_named_after_directory (env_vars : list (string * string))
    (dir name : string) :
  lookup "VIRTUAL_ENV" env_vars = Some (dir ++ String slash name)%string ->
  has_char slash name = false ->
  In (JDict [ ("type", JStr "venv"); ("name", JStr name);
              ("path", JStr (dir ++ String slash name)); ("active", JBool true) ])
     (_detect_development_environments env_vars).
Proof.
  intros Hv Hname. unfold _detect_development_environments. rewrite Hv.
  rewrite (basename_last_component dir name Hname).
  destruct (lookup "CONDA_DEFAULT_ENV" env_vars);
  destruct (lookup "PYENV_VERSION" env_vars);
  destruct (lookup "NODE_ENV" env_vars); cbn [app In]; tauto.
Qed.

Lemma venv_named_after_directory_witness :
  In (JDict [ ("type", JStr "venv"); ("name", JStr EmptyString);
              ("path", JStr "/home/user/venvs/test/"); ("active", JBool true) ])
     (_detect_development_environments
        [ ("HOME", "/home/user"); ("VIRTUAL_ENV", "/home/user/venvs/test/") ]).
Proof.
  apply (venv_named_after_directory
           [ ("HOME", "/home/user"); ("VIRTUAL_ENV", "/home/user/venvs/test/") ]
           "/home/user/venvs/test" EmptyString); reflexivity.
Defined.

Lemma process_environment_variables (pid : json) (proc : proc_dir) :
  exists env_vars,
    lookup "environment_variables" (_capture_process_environment pid proc)
      = Some (strings_json env_vars) /\
    lookup "development_environments" (_capture_process_environment pid proc)
      = Some (JList (_detect_development_environments env_vars)).
Proof.
  unfold _capture_process_environment.
  destruct (truthy pid); cbn [negb]; [|exists []; split; reflexivity].
  destruct (readlink_cwd proc) as [e|cwd]; [exists []; split; reflexivity|].
  destruct (environ_exists proc); [|exists []; split; reflexivity].
  destruct (read_environ proc) as [e|env_data]; [exists []; split; reflexivity|].
  exists (env_vars_of env_data). split; reflexivity.
Qed.

(** X12: whatever [/proc] answers, the environment record has its three
    keys, and the environments it lists are those detected from the
    variables it lists; when the process id is missing or the [cwd] link
    cannot be read, nothing is recorded, the variables included. *)
Theorem process_environment_consistent (pid : json) (proc : proc_dir) :
  let environment := _capture_process_environment pid proc in
  map fst environment =
    [ "development_environments"; "current_directory"; "environment_variables" ] /\
  (exists env_vars,
      lookup "environment_variables" environment = Some (strings_json env_vars) /\
      lookup "development_environments" environment =
        Some (JList (_detect_development_environments env_vars))) /\
  (truthy pid = false \/ (exists e, readlink_cwd proc = inl e) ->
   environment = empty_environment).
Proof.
  unfold _capture_process_environment.
  destruct (truthy pid); cbn [negb].
  2:{ repeat split; [exists []; split; reflexivity]. }
  destruct (readlink_cwd proc) as [e|cwd].
  { repeat split; [exists []; split; reflexivity]. }
  destruct (environ_exists proc).
  - destruct (read_environ proc) as [e|env_data].
    + split; [reflexivity|]. split; [exists []; split; reflexivity|].
      intros [H|[e' H]]; discriminate.
    + split; [reflexivity|]. split; [exists (env_vars_of env_data); split; reflexivity|].
      intros [H|[e' H]]; discriminate.
  - split; [reflexivity|]. split; [exists []; split; reflexivity|].
    intros [H|[e' H]]; discriminate.
Qed.

Lemma scan_fold (procs : list process) (acc : list json) :
  fold_left (fun environments proc =>
               match environ proc with
               | None => environments
               | Some env_vars =>
                   let dev_envs := _detect_development_environments env_vars in
                   if truthy (JList dev_envs) then
                     (environments ++
                      [JDict [ ("pid", JInt (pid proc));
                               ("environments", JList dev_envs);
                               ("timestamp", JStr (seen_at proc)) ]])%list
                   else environments
               end)
            procs acc
  = (acc ++ capture_development_environments procs)%list.
Proof.
  unfold capture_development_environments.
  revert acc. induction procs as [|p r IH]; intro acc; cbn [fold_left].
  - now rewrite app_nil_r.
  - rewrite IH. rewrite (IH (match environ p with None => [] | Some _ => _ end)).
    destruct (environ p) as [env|]; [|reflexivity].
    cbv zeta. destruct (truthy _); [|reflexivity].
    now rewrite <- app_assoc.
Qed.

(** X13: the scan reports the processes whose environment can be read and
    holds a marker variable, in the order of the scan, each with a
    non-empty list of environments; a process that keeps its environment
    to itself, or holds no marker, is left out. *)
Theorem development_environments_scan (procs : list process) :
  map (field "pid") (capture_development_environments procs) =
    map (fun p => JInt (pid p)) (filter readable_environ procs) /\
  Forall (fun record => exists e es, field "environments" record = JList (e :: es))
         (capture_development_environments procs).
Proof.
  induction procs as [|p r [IHp IHe]]; [split; [reflexivity|constructor]|].
  unfold capture_development_environments. cbn [fold_left]. rewrite scan_fold.
  cbn [filter]. unfold readable_environ at 1.
  destruct (environ p) as [env|]; [|now split].
  pose proof (detect_nothing_iff env) as Hempty.
  destruct (_detect_development_environments env) as [|e es] eqn:E.
  - rewrite (proj1 Hempty eq_refl). now split.
  - destruct (has_marker env) eqn:Hm.
    2:{ destruct Hempty as [_ H]. discriminate (H eq_refl). }
    cbn [truthy app map field lookup String.eqb Ascii.eqb Bool.eqb].
    split; [now rewrite IHp|].
    constructor; [|exact IHe]. exists e, es. reflexivity.
Qed.

(** ** State files: which are listed, which is the latest, and migration *)

Lemma endswith_append (a suffix : string) : Heap.endswith (a ++ suffix) suffix = true.
Proof.
  induction a as [|c a IH]; cbn [String.append].
  - destruct suffix; cbn [Heap.endswith]; now rewrite String.eqb_refl.
  - cbn [Heap.endswith]. rewrite IH. apply orb_true_r.
Qed.

(** X14: a file that [save_quantum_state] named by itself is listed among
    the compatible states whenever it is in the directory and loads; a file
    that the auto-save loop wrote is never listed, whatever it holds. *)
Theorem compatible_states_by_name (files : list string) (loads : string -> bool) :
  (forall os state max_backups u c d,
      let file := fst (save_quantum_state os max_backups state None u c d) in
      In file files -> loads file = true ->
      In file (get_compatible_states (inr files) loads)) /\
  (forall t, ~ In (auto_save_name t) (get_compatible_states (inr files) loads)).
Proof.
  split.
  - intros os state max_backups u c d file Hin Hl. unfold get_compatible_states.
    apply filter_In. split; [exact Hin|].
    rewrite Hl. unfold file, save_quantum_state. cbn [fst].
    rewrite prefix_append.
    replace ("quantum_state_" ++ session_id state ++ ".json")%string
      with (("quantum_state_" ++ session_id state) ++ ".json")%string
      by (now rewrite append_assoc).
    now rewrite endswith_append.
  - intros t Hin. unfold get_compatible_states in Hin.
    apply filter_In in Hin. destruct Hin as [_ H].
    apply andb_true_iff in H. destruct H as [H _].
    apply andb_true_iff in H. destruct H as [H _].
    vm_compute in H. discriminate.
Qed.

Lemma insert_name_perm (x : string) (l : list string) :
  Permutation (insert_name x l) (x :: l).
Proof.
  induction l as [|y r IH]; cbn [insert_name]; [reflexivity|].
  destruct (String.leb x y); [reflexivity|].
  rewrite IH. apply perm_swap.
Qed.

Lemma sorted_perm (l : list string) : Permutation (sorted l) l.
Proof.
  induction l as [|x r IH]; cbn [sorted]; [reflexivity|].
  rewrite insert_name_perm. now constructor.
Qed.

Lemma insert_name_ascending (x : string) (l : list string) :
  StronglySorted key_le l -> StronglySorted key_le (insert_name x l).
Proof.
  induction 1 as [|y r Hr IH Hy]; cbn [insert_name]; [repeat constructor|].
  destruct (String.leb x y) eqn:E.
  - apply leb_true_le in E. constructor; [now constructor|].
    constructor; [exact E|].
    rewrite Forall_forall in *. intros z Hz. apply key_le_trans with y; auto.
  - apply leb_false_lt in E. constructor; [exact IH|].
    rewrite Forall_forall in *. intros z Hz.
    apply (Permutation_in _ (insert_name_perm x r)) in Hz.
    destruct Hz as [<-|Hz]; [now right|auto].
Qed.

Lemma sorted_ascending (l : list string) : StronglySorted key_le (sorted l).
Proof.
  induction l as [|x r IH]; cbn [sorted]; [constructor|].
  now apply insert_name_ascending.
Qed.

Lemma ascending_last (l : list string) (m : string) :
  StronglySorted key_le (l ++ [m]) -> forall x, In x (l ++ [m]) -> key_le x m.
Proof.
  induction l as [|y r IH]; cbn [app]; intros Hs x Hx.
  - destruct Hx as [<-|[]]. now left.
  - inversion Hs as [|? ? Hr Hy]; subst. destruct Hx as [<-|Hx]; [|now apply IH].
    rewrite Forall_forall in Hy. apply Hy, in_or_app. right. now left.
Qed.

Lemma latest_state_greatest (names : list string) (latest : string) :
  latest_state names = Some latest ->
  In latest names /\ forall name, In name names -> key_le name latest.
Proof.
  unfold latest_state. destruct (rev (sorted names)) as [|m r] eqn:E; [discriminate|].
  intro H. injection H as ->.
  assert (Es : sorted names = (rev r ++ [latest])%list).
  { rewrite <- (rev_involutive (sorted names)), E. reflexivity. }
  pose proof (sorted_ascending names) as Hs. rewrite Es in Hs.
  split.
  - apply (Permutation_in _ (sorted_perm names)). rewrite Es.
    apply in_or_app. right. now left.
  - intros name Hin. apply (ascending_last _ _ Hs).
    rewrite <- Es. apply (Permutation_in _ (Permutation_sym (sorted_perm names))), Hin.
Qed.

(** X15: the state [main] takes for the latest is the greatest name in
    code point order, so as soon as the directory holds a captured state, no
    migrated state is ever the latest, whenever it was written. *)
Theorem latest_state_never_migrated (names : list string) (t u : Z) :
  In (captured_name t) names ->
  (exists latest, latest_state names = Some latest /\
                  In latest names /\
                  forall name, In name names -> key_le name latest) /\
  latest_state names <> Some (migrated_name u).
Proof.
  intro Hin.
  destruct (latest_state names) as [latest|] eqn:E.
  2:{ exfalso. unfold latest_state in E.
      destruct (rev (sorted names)) eqn:R; [|discriminate].
      apply (Permutation_in _ (Permutation_sym (sorted_perm names))) in Hin.
      rewrite <- (rev_involutive (sorted names)), R in Hin. destruct Hin. }
  destruct (latest_state_greatest names latest E) as [Hl Hmax].
  split; [exists latest; auto|].
  intro H. injection H as ->.
  assert (Hlt : key_lt (migrated_name u) (captured_name t)) by reflexivity.
  destruct (Hmax _ Hin) as [Heq|Hgt].
  - rewrite Heq in Hlt. now apply key_lt_irrefl in Hlt.
  - now apply (key_lt_asym _ _ Hlt).
Qed.

Lemma latest_state_never_migrated_witness :
  latest_state [ migrated_name 1800000000; captured_name 1700000000;
                 migrated_name 1900000000 ]
  <> Some (migrated_name 1900000000).
Proof.
  apply (latest_state_never_migrated _ 1700000000 1900000000).
  simpl. right. left. reflexivity.
Defined.

(** ** [main], with [--migrate-legacy] *)









(** ** The optimisation pass, for every store *)

Section Store.

Import Heap.

Lemma nth_error_update_same {A : Type} (n : nat) (x : A) (l : list A) :
  (n < List.length l)%nat -> nth_error (update n x l) n = Some x.
Proof.
  revert n. induction l as [|y r IH]; intros [|n] H; cbn in *; try lia; [reflexivity|].
  apply IH. lia.
Qed.

Lemma nth_error_update_other {A : Type} (n m : nat) (x : A) (l : list A) :
  n <> m -> nth_error (update n x l) m = nth_error l m.
Proof.
  revert n m. induction l as [|y r IH]; intros [|n] [|m] H; cbn; try reflexivity;
    try congruence.
  apply IH. congruence.
Qed.

Lemma nth_error_in_range {A : Type} (l : list A) (n : nat) (x : A) :
  nth_error l n = Some x -> (n < List.length l)%nat.
Proof. intro H. apply nth_error_Some. congruence. Qed.

Lemma nth_error_grown {A : Type} (l ext : list A) (n : nat) (x : A) :
  nth_error l n = Some x -> nth_error (l ++ ext) n = Some x.
Proof.
  intro H. rewrite nth_error_app1; [exact H|]. now apply nth_error_in_range in H.
Qed.

Lemma lookup_setitem_same {A : Type} (k : string) (v : A) (d : list (string * A)) :
  lookup k (setitem k v d) = Some v.
Proof.
  induction d as [|[k' v'] r IH]; cbn [setitem lookup].
  - now rewrite String.eqb_refl.
  - destruct (String.eqb_spec k k') as [->|Hne]; cbn [lookup].
    + now rewrite String.eqb_refl.
    + destruct (String.eqb_spec k k'); [contradiction|exact IH].
Qed.

Lemma follow_two (h : heap) (v : val) (k1 k2 : string) (w : val) :
  follow h v [k1; k2] = Some w ->
  exists l1 d1 l2 d2,
    v = VRef l1 /\ nth_error h l1 = Some (ODict d1) /\
    lookup k1 d1 = Some (VRef l2) /\ nth_error h l2 = Some (ODict d2) /\
    lookup k2 d2 = Some w.
Proof.
  cbn [follow]. destruct v as [| | | |l1]; try discriminate.
  destruct (nth_error h l1) as [[d1|]|] eqn:E1; try discriminate.
  destruct (lookup k1 d1) as [[| | | |l2]|] eqn:L1; try discriminate.
  destruct (nth_error h l2) as [[d2|]|] eqn:E2; try discriminate.
  destruct (lookup k2 d2) as [w'|] eqn:L2; try discriminate.
  intro H. injection H as <-. now exists l1, d1, l2, d2.
Qed.

Lemma contains_lookup {A : Type} (k : string) (d : list (string * A)) (v : A) :
  lookup k d = Some v -> contains k d = true.
Proof. unfold contains. now intros ->. Qed.

Lemma mbind_inr {A B : Type} (m : M A) (k : A -> M B) (h h' : heap) (a : A) :
  m h = inr (a, h') -> mbind m k h = k a h'.
Proof. unfold mbind. now intros ->. Qed.

Lemma mbind_inl {A B : Type} (m : M A) (k : A -> M B) (h : heap) (e : exn) :
  m h = inl e -> mbind m k h = inl e.
Proof. unfold mbind. now intros ->. Qed.

Lemma copy_dict (h : heap) (l : loc) (d : list (string * val)) :
  nth_error h l = Some (ODict d) ->
  copy (VRef l) h = inr (VRef (List.length h), (h ++ [ODict d])%list).
Proof. intro H. unfold copy, mbind, deref. now rewrite H. Qed.

Lemma py_in_dict (h : heap) (l : loc) (d : list (string * val)) (k : string) :
  nth_error h l = Some (ODict d) -> py_in k (VRef l) h = inr (contains k d, h).
Proof. intro H. unfold py_in, mbind, deref. now rewrite H. Qed.

Lemma getitem_dict (h : heap) (l : loc) (d : list (string * val)) (k : string) (v : val) :
  nth_error h l = Some (ODict d) -> lookup k d = Some v ->
  getitem (VRef l) k h = inr (v, h).
Proof. intros H Hk. unfold getitem, mbind, deref. now rewrite H, Hk. Qed.

Lemma dict_items_dict (h : heap) (l : loc) (d : list (string * val)) :
  nth_error h l = Some (ODict d) -> dict_items (VRef l) h = inr (d, h).
Proof. intro H. unfold dict_items, mbind, deref. now rewrite H. Qed.

Lemma assign_dict (h : heap) (l : loc) (d : list (string * val)) (k : string) (v : val) :
  nth_error h l = Some (ODict d) ->
  assign (VRef l) k v h = inr (tt, update l (ODict (setitem k v d)) h).
Proof. intro H. unfold assign, mbind, deref. now rewrite H. Qed.

Lemma optimize_terminal_session_store (h : heap) (session variables : val)
    (vars : list (string * val)) :
  follow h session ["environment"; "environment_variables"] = Some variables ->
  dict_at h variables = Some vars ->
  exists optimized h' kept,
    optimize_terminal_session session h = inr (optimized, h') /\
    optimized <> session /\
    follow h' session ["environment"; "environment_variables"] = Some kept /\
    follow h' optimized ["environment"; "environment_variables"] = Some kept /\
    dict_at h' kept = Some (filter is_essential vars).
Proof.
  intros Hf Hv.
  destruct (follow_two _ _ _ _ _ Hf) as (ls & d & le & e & -> & Hs & Hd & He & Hvars).
  unfold dict_at in Hv. destruct variables as [| | | |lv]; try discriminate.
  destruct (nth_error h lv) as [[vars'|]|] eqn:Hlv; try discriminate.
  injection Hv as ->.
  pose proof (nth_error_in_range _ _ _ Hs) as Hls.
  pose proof (nth_error_in_range _ _ _ He) as Hle.
  set (n := List.length h) in *.
  set (h1 := (h ++ [ODict d])%list).
  set (kept := filter is_essential vars).
  set (h2 := (h1 ++ [ODict kept])%list).
  set (e' := setitem "environment_variables" (VRef (Datatypes.S n)) e).
  set (h3 := update le (ODict e') h2).
  assert (Hn1 : nth_error h1 n = Some (ODict d)).
  { unfold h1, n. rewrite nth_error_app2, Nat.sub_diag by lia. reflexivity. }
  assert (He1 : nth_error h1 le = Some (ODict e)) by now apply nth_error_grown.
  assert (Hv1 : nth_error h1 lv = Some (ODict vars)) by now apply nth_error_grown.
  assert (Hlen1 : List.length h1 = Datatypes.S n).
  { unfold h1. rewrite length_app. cbn. unfold n. lia. }
  assert (He2 : nth_error h2 le = Some (ODict e)) by now apply nth_error_grown.
  assert (Hrun : optimize_terminal_session (VRef ls) h = inr (VRef n, h3)).
  { unfold optimize_terminal_session.
    rewrite (mbind_inr _ _ _ _ _ (copy_dict h ls d Hs)). fold n. fold h1.
    rewrite (mbind_inr _ _ _ _ _ (py_in_dict h1 n d "environment" Hn1)).
    rewrite (contains_lookup _ _ _ Hd).
    rewrite (mbind_inr _ _ h1 h3 tt); [reflexivity|].
    rewrite (mbind_inr _ _ _ _ _ (getitem_dict h1 n d "environment" _ Hn1 Hd)).
    rewrite (mbind_inr _ _ _ _ _ (py_in_dict h1 le e "environment_variables" He1)).
    rewrite (contains_lookup _ _ _ Hvars).
    rewrite (mbind_inr _ _ _ _ _
               (getitem_dict h1 le e "environment_variables" _ He1 Hvars)).
    rewrite (mbind_inr _ _ _ _ _ (dict_items_dict h1 lv vars Hv1)).
    rewrite (mbind_inr _ _ h1 h2 (VRef (Datatypes.S n))).
    2:{ unfold alloc. now rewrite Hlen1. }
    apply (assign_dict h2 le e "environment_variables" _ He2). }
  assert (Hk3 : nth_error h3 (Datatypes.S n) = Some (ODict kept)).
  { unfold h3. rewrite nth_error_update_other by lia.
    unfold h2. rewrite nth_error_app2, Hlen1, Nat.sub_diag by lia. reflexivity. }
  assert (He3 : nth_error h3 le = Some (ODict e')).
  { unfold h3. apply nth_error_update_same. unfold h2, h1. rewrite !length_app. cbn. lia. }
  assert (Hpath : forall l d0, nth_error h3 l = Some (ODict d0) ->
                               lookup "environment" d0 = Some (VRef le) ->
            follow h3 (VRef l) ["environment"; "environment_variables"]
            = Some (VRef (Datatypes.S n))).
  { intros l d0 Hl Hl0. cbn [follow]. rewrite Hl, Hl0, He3. unfold e'.
    now rewrite lookup_setitem_same. }
  exists (VRef n), h3, (VRef (Datatypes.S n)).
  split; [exact Hrun|]. split; [intro E; injection E; lia|].
  split; [|split].
  - destruct (Nat.eq_dec ls le) as [->|Hne].
    + apply (Hpath le e' He3). unfold e'.
      rewrite lookup_setitem_other by discriminate.
      rewrite He in Hs. now injection Hs as ->.
    + apply (Hpath ls d); [|exact Hd].
      unfold h3. rewrite nth_error_update_other by congruence.
      unfold h2. now apply nth_error_grown, nth_error_grown.
  - apply (Hpath n d); [|exact Hd].
    unfold h3. rewrite nth_error_update_other by lia.
    unfold h2. now apply nth_error_grown.
  - unfold dict_at. now rewrite Hk3.
Qed.

(** X18: in every store where a terminal session is a dictionary whose
    [environment] is a dictionary whose [environment_variables] is a
    dictionary, the pass returns a new session object, and afterwards the
    session it was given and the session it returns both lead to one and
    the same new dictionary of variables, which holds the essential
    variables only: the environment of the input is filtered in place. *)
Theorem optimize_terminal_session_in_place (h : heap) (session variables : val)
    (vars : list (string * val)) :
  follow h session ["environment"; "environment_variables"] = Some variables ->
  dict_at h variables = Some vars ->
  exists optimized h' kept,
    optimize_terminal_session session h = inr (optimized, h') /\
    optimized <> session /\
    follow h' session ["environment"; "environment_variables"] = Some kept /\
    follow h' optimized ["environment"; "environment_variables"] = Some kept /\
    dict_at h' kept = Some (filter is_essential vars).
Proof. exact (optimize_terminal_session_store h session variables vars). Qed.

Lemma optimize_terminal_session_in_place_witness :
  let h := [ ODict [("HOME", VStr "/home/user"); ("LANG", VStr "C")];
             ODict [("current_directory", VStr "/home/user");
                    ("environment_variables", VRef 0%nat)];
             ODict [("class", VStr "kitty"); ("environment", VRef 1%nat)] ] in
  exists optimized h' kept,
    optimize_terminal_session (VRef 2%nat) h = inr (optimized, h') /\
    follow h' (VRef 2%nat) ["environment"; "environment_variables"] = Some kept /\
    dict_at h' kept = Some [("HOME", VStr "/home/user")].
Proof.
  intro h.
  destruct (optimize_terminal_session_in_place h (VRef 2%nat) (VRef 0%nat)
              [("HOME", VStr "/home/user"); ("LANG", VStr "C")] eq_refl eq_refl)
    as (optimized & h' & kept & H1 & _ & H2 & _ & H3).
  exists optimized, h', kept. repeat split; assumption.
Defined.

Lemma optimize_browser_session_store (h : heap) (session file : val) :
  follow h session ["session_data"; "session_file"] = Some file ->
  match file with
  | VStr path =>
      exists optimized h',
        optimize_browser_session session h = inr (optimized, h') /\
        optimized <> session /\
        follow h' session ["session_data"; "session_file"] = Some (VStr (basename path)) /\
        follow h' optimized ["session_data"; "session_file"]
          = Some (VStr (basename path))
  | _ => optimize_browser_session session h = inl TypeError
  end.
Proof.
  intro Hf.
  destruct (follow_two _ _ _ _ _ Hf) as (ls & d & ld & sd & -> & Hs & Hd & Hsd & Hfile).
  pose proof (nth_error_in_range _ _ _ Hs) as Hls.
  pose proof (nth_error_in_range _ _ _ Hsd) as Hld.
  set (n := List.length h) in *.
  set (h1 := (h ++ [ODict d])%list).
  assert (Hn1 : nth_error h1 n = Some (ODict d)).
  { unfold h1, n. rewrite nth_error_app2, Nat.sub_diag by lia. reflexivity. }
  assert (Hsd1 : nth_error h1 ld = Some (ODict sd)) by now apply nth_error_grown.
  assert (Hprefix :
            optimize_browser_session (VRef ls) h =
            mbind (mbind (path_basename file)
                         (fun name => assign (VRef ld) "session_file" name))
                  (fun _ => mret (VRef n)) h1).
  { unfold optimize_browser_session.
    rewrite (mbind_inr _ _ _ _ _ (copy_dict h ls d Hs)). fold n. fold h1.
    rewrite (mbind_inr _ _ _ _ _ (py_in_dict h1 n d "session_data" Hn1)).
    rewrite (contains_lookup _ _ _ Hd). cbv beta iota.
    unfold mbind at 1. symmetry. unfold mbind at 1. symmetry.
    rewrite (mbind_inr _ _ _ _ _ (getitem_dict h1 n d "session_data" _ Hn1 Hd)).
    rewrite (mbind_inr _ _ _ _ _ (py_in_dict h1 ld sd "session_file" Hsd1)).
    rewrite (contains_lookup _ _ _ Hfile). cbv beta iota.
    rewrite (mbind_inr _ _ _ _ _ (getitem_dict h1 ld sd "session_file" _ Hsd1 Hfile)).
    reflexivity. }
  destruct file as [| b | z | path | l]; try (rewrite Hprefix; reflexivity).
  set (sd' := setitem "session_file" (VStr (basename path)) sd).
  set (h2 := update ld (ODict sd') h1).
  assert (Hrun : optimize_browser_session (VRef ls) h = inr (VRef n, h2)).
  { rewrite Hprefix. unfold path_basename.
    rewrite (mbind_inr _ _ h1 h2 tt); [reflexivity|].
    rewrite (mbind_inr _ _ h1 h1 (VStr (basename path))); [|reflexivity].
    apply (assign_dict h1 ld sd "session_file" _ Hsd1). }
  assert (Hsd2 : nth_error h2 ld = Some (ODict sd')).
  { unfold h2. apply nth_error_update_same. unfold h1. rewrite length_app. cbn. lia. }
  assert (Hpath : forall l d0, nth_error h2 l = Some (ODict d0) ->
                               lookup "session_data" d0 = Some (VRef ld) ->
            follow h2 (VRef l) ["session_data"; "session_file"]
            = Some (VStr (basename path))).
  { intros l d0 Hl Hl0. cbn [follow]. rewrite Hl, Hl0, Hsd2. unfold sd'.
    now rewrite lookup_setitem_same. }
  exists (VRef n), h2.
  split; [exact Hrun|]. split; [intro E; injection E; lia|]. split.
  - destruct (Nat.eq_dec ls ld) as [->|Hne].
    + apply (Hpath ld sd' Hsd2). unfold sd'.
      rewrite lookup_setitem_other by discriminate.
      rewrite Hsd in Hs. now injection Hs as ->.
    + apply (Hpath ls d); [|exact Hd].
      unfold h2. rewrite nth_error_update_other by congruence.
      now apply nth_error_grown.
  - apply (Hpath n d); [|exact Hd].
    unfold h2. rewrite nth_error_update_other by lia. exact Hn1.
Qed.

(** X19: in every store where a browser session is a dictionary whose
    [session_data] is a dictionary that has a [session_file], the pass
    raises [TypeError] unless the session file is a string (so it raises
    when it is [None]); when it is a string the pass returns a new session
    object and has replaced the path by its last component in the session
    data that the input and the result share. *)
Theorem optimize_browser_session_file (h : heap) (session file : val) :
  follow h session ["session_data"; "session_file"] = Some file ->
  match file with
  | VStr path =>
      exists optimized h',
        optimize_browser_session session h = inr (optimized, h') /\
        optimized <> session /\
        follow h' session ["session_data"; "session_file"] = Some (VStr (basename path)) /\
        follow h' optimized ["session_data"; "session_file"]
          = Some (VStr (basename path))
  | _ => optimize_browser_session session h = inl TypeError
  end.
Proof. exact (optimize_browser_session_store h session file). Qed.

Lemma optimize_browser_session_file_witness :
  let h := [ ODict [("type", VStr "browser"); ("browser", VStr "chromium");
                    ("session_file", VNone)];
             ODict [("class", VStr "chromium"); ("session_data", VRef 0%nat)] ] in
  optimize_browser_session (VRef 1%nat) h = inl TypeError.
Proof.
  intro h.
  exact (optimize_browser_session_file h (VRef 1%nat) VNone eq_refl).
Defined.

Lemma for_each_skips {A : Type} (l : list A) (body : A -> M unit) (h : heap) :
  (forall x, In x l -> body x h = inr (tt, h)) ->
  for_each l body h = inr (tt, h).
Proof.
  induction l as [|x r IH]; intro H; [reflexivity|].
  cbn [for_each]. rewrite (mbind_inr _ _ h h tt) by (apply H; now left).
  apply IH. intros y Hy. apply H. now right.
Qed.

(** X20: an application context whose session data has no key that ends in
    [_files] (or has no session data, or session data that is no
    dictionary) is only copied: the pass returns a new object with the
    items of the context and changes no object of the store, so whatever
    the session data holds deeper down stays as it is. *)
Theorem optimize_context_only_copies (h : heap) (context : val)
    (d : list (string * val)) :
  dict_at h context = Some d ->
  plain_session_data h d ->
  optimize_context context h = inr (VRef (List.length h), (h ++ [ODict d])%list).
Proof.
  intros Hd Hplain. unfold dict_at in Hd.
  destruct context as [| | | |lc]; try discriminate.
  destruct (nth_error h lc) as [[d'|]|] eqn:Hc; try discriminate.
  injection Hd as ->.
  set (n := List.length h). set (h1 := (h ++ [ODict d])%list).
  assert (Hn1 : nth_error h1 n = Some (ODict d)).
  { unfold h1, n. rewrite nth_error_app2, Nat.sub_diag by lia. reflexivity. }
  unfold optimize_context.
  rewrite (mbind_inr _ _ _ _ _ (copy_dict h lc d Hc)). fold n. fold h1.
  rewrite (mbind_inr _ _ _ _ _ (py_in_dict h1 n d "session_data" Hn1)).
  rewrite (mbind_inr _ _ h1 h1 tt); [reflexivity|].
  unfold plain_session_data in Hplain. unfold contains.
  destruct (lookup "session_data" d) as [sdv|] eqn:Hsd; [|reflexivity].
  rewrite (mbind_inr _ _ _ _ _ (getitem_dict h1 n d "session_data" _ Hn1 Hsd)).
  destruct sdv as [| | | |l]; try reflexivity.
  destruct (nth_error h l) as [[sd|vs]|] eqn:Hl.
  - assert (Hl1 : nth_error h1 l = Some (ODict sd)) by now apply nth_error_grown.
    rewrite (mbind_inr _ _ h1 h1 true)
      by (unfold is_dict, mbind, deref, mret; now rewrite Hl1).
    rewrite (mbind_inr _ _ _ _ _ (dict_items_dict h1 l sd Hl1)).
    apply for_each_skips. intros key Hin. apply in_map_iff in Hin.
    destruct Hin as (kv & <- & Hkv).
    unfold no_files_key in Hplain. rewrite forallb_forall in Hplain.
    specialize (Hplain kv Hkv). apply negb_true_iff in Hplain. now rewrite Hplain.
  - assert (Hl1 : nth_error h1 l = Some (OList vs)) by now apply nth_error_grown.
    rewrite (mbind_inr _ _ h1 h1 false)
      by (unfold is_dict, mbind, deref, mret; now rewrite Hl1).
    reflexivity.
  - destruct Hplain.
Qed.

Lemma optimize_context_only_copies_witness :
  let h := [ OList [VStr "/home/user/.config/chromium/Default/Session_1.json"];
             ODict [("session_files", VRef 0%nat)];
             ODict [("chromium", VRef 1%nat)];
             ODict [("type", VStr "browser"); ("session_file", VNone);
                    ("session_storage", VRef 2%nat)];
             ODict [("class", VStr "chromium"); ("session_data", VRef 3%nat)] ] in
  optimize_context (VRef 4%nat) h
  = inr (VRef 5%nat,
         (h ++ [ODict [("class", VStr "chromium"); ("session_data", VRef 3%nat)]])%list).
Proof.
  intro h.
  exact (optimize_context_only_copies h (VRef 4%nat)
           [("class", VStr "chromium"); ("session_data", VRef 3%nat)] eq_refl eq_refl).
Defined.

End Store.

(** ** Objects built from JSON *)

Section Build.

Import Heap.

Lemma build_list_eq (l : list json) :
  build (JList l) = mbind (build_list l) (fun vs => alloc (OList vs)).
Proof.
  reflexivity.
Qed.

Lemma build_dict_eq (d : items) :
  build (JDict d) = mbind (build_items d) (fun kvs => alloc (ODict kvs)).
Proof.
  reflexivity.
Qed.

Lemma follow_grown (h ext : heap) (path : list string) :
  forall v w, follow h v path = Some w -> follow (h ++ ext)%list v path = Some w.
Proof.
  induction path as [|k r IH]; intros v w H; [exact H|].
  cbn [follow] in *. destruct v as [| | | |l]; try discriminate.
  destruct (nth_error h l) as [[d|]|] eqn:E; try discriminate.
  rewrite (nth_error_grown _ ext _ _ E).
  destruct (lookup k d) as [u|]; [|discriminate]. now apply IH.
Qed.

Lemma stands_for_grown (h ext : heap) (w : val) (x : json) :
  stands_for h w x -> stands_for (h ++ ext)%list w x.
Proof.
  destruct x as [| | | | l | d]; cbn [stands_for]; auto.
  - intros (loc & vs & -> & Hn & Hl). exists loc, vs.
    repeat split; [now apply nth_error_grown|exact Hl].
  - intros (kvs & Hd & Hk). exists kvs. split; [|exact Hk].
    unfold dict_at in *. destruct w as [| | | |l]; try discriminate.
    destruct (nth_error h l) as [[d'|]|] eqn:E; try discriminate.
    now rewrite (nth_error_grown _ ext _ _ E).
Qed.

Lemma built_atom (j : json) (a : val) :
  (forall h, build j h = inr (a, h)) ->
  (forall k r, json_at j (k :: r) = None) ->
  stands_for [] a j ->
  built j.
Proof.
  intros Hb Hp Hs h. exists a, []. rewrite app_nil_r. split; [apply Hb|].
  intros [|k r] x H; [|now rewrite Hp in H].
  injection H as <-. exists a. split; [reflexivity|].
  now apply (stands_for_grown [] h) in Hs.
Qed.

Lemma build_list_spec (l : list json) :
  Forall built l ->
  forall h, exists vs ext,
    build_list l h = inr (vs, (h ++ ext)%list) /\ List.length vs = List.length l.
Proof.
  induction 1 as [|x r Hx _ IH]; intro h.
  - exists [], []. now rewrite app_nil_r.
  - destruct (Hx h) as (v & e0 & Hv & _).
    destruct (IH (h ++ e0)%list) as (vs & e1 & Hvs & Hl).
    exists (v :: vs), (e0 ++ e1)%list. cbn [build_list].
    rewrite (mbind_inr _ _ _ _ _ Hv), (mbind_inr _ _ _ _ _ Hvs), app_assoc.
    split; [reflexivity|cbn [List.length]; now rewrite Hl].
Qed.

Lemma build_items_spec (d : items) :
  Forall (fun kv => built (snd kv)) d ->
  forall h, exists kvs ext,
    build_items d h = inr (kvs, (h ++ ext)%list) /\
    map fst kvs = map fst d /\
    forall k x, lookup k d = Some x ->
      exists w, lookup k kvs = Some w /\
        forall path y, json_at x path = Some y ->
          exists w', follow (h ++ ext)%list w path = Some w' /\
                     stands_for (h ++ ext)%list w' y.
Proof.
  induction 1 as [|[k0 x0] r Hx _ IH]; intro h.
  - exists [], []. rewrite app_nil_r. repeat split. intros k x H. discriminate.
  - cbn [snd] in Hx. destruct (Hx h) as (v & e0 & Hv & Hfollow).
    destruct (IH (h ++ e0)%list) as (kvs & e1 & Hkvs & Hkeys & Hrest).
    exists ((k0, v) :: kvs), (e0 ++ e1)%list. cbn [build_items].
    rewrite (mbind_inr _ _ _ _ _ Hv), (mbind_inr _ _ _ _ _ Hkvs), app_assoc.
    split; [reflexivity|]. split; [cbn [map fst]; now rewrite Hkeys|].
    intros k x Hk. cbn [lookup] in *.
    destruct (String.eqb k k0).
    + injection Hk as <-. exists v. split; [reflexivity|].
      intros path y Hy. destruct (Hfollow path y Hy) as (w' & Hf & Hs).
      exists w'. split; [now apply follow_grown|now apply stands_for_grown].
    + apply (Hrest k x Hk).
Qed.

(** Every JSON value is built, whatever the store holds. *)
Lemma build_spec (j : json) : built j.
Proof.
  induction j as [| b | z | s | l IH | d IH] using json_ind'.
  - now apply (built_atom JNull VNone).
  - now apply (built_atom (JBool b) (VBool b)).
  - now apply (built_atom (JInt z) (VInt z)).
  - now apply (built_atom (JStr s) (VStr s)).
  - intro h. destruct (build_list_spec l IH h) as (vs & ext & Hvs & Hl).
    exists (VRef (List.length (h ++ ext)%list)), (ext ++ [OList vs])%list.
    rewrite build_list_eq, (mbind_inr _ _ _ _ _ Hvs), app_assoc.
    split; [reflexivity|].
    intros [|k r] x H; [|discriminate]. injection H as <-.
    eexists. split; [reflexivity|]. cbn [stands_for].
    exists (List.length (h ++ ext)%list), vs. repeat split; [|exact Hl].
    now rewrite nth_error_app2, Nat.sub_diag by lia.
  - intro h. destruct (build_items_spec d IH h) as (kvs & ext & Hkvs & Hkeys & Hrest).
    exists (VRef (List.length (h ++ ext)%list)), (ext ++ [ODict kvs])%list.
    rewrite build_dict_eq, (mbind_inr _ _ _ _ _ Hkvs), app_assoc.
    split; [reflexivity|].
    assert (Hn : nth_error ((h ++ ext) ++ [ODict kvs])%list (List.length (h ++ ext)%list)
                 = Some (ODict kvs))
      by now rewrite nth_error_app2, Nat.sub_diag by lia.
    intros [|k r] x H.
    + injection H as <-. eexists. split; [reflexivity|]. cbn [stands_for].
      exists kvs. split; [|exact Hkeys]. unfold dict_at. now rewrite Hn.
    + cbn [json_at] in H. destruct (lookup k d) as [xk|] eqn:Hk; [|discriminate].
      destruct (Hrest k xk Hk) as (w & Hw & Hpaths).
      destruct (Hpaths r x H) as (w' & Hf & Hs).
      exists w'. split; [|now apply stands_for_grown].
      cbn [follow]. rewrite Hn, Hw. now apply follow_grown.
Qed.

End Build.

(** ** Browser sessions, captured and then optimised *)

Lemma captured_session_file (browser : string) (probe : browser_probe) :
  browser <> "firefox" ->
  lookup "session_file" (_capture_browser_session browser probe) = Some JNull.
Proof.
  intro Hne. unfold _capture_browser_session.
  destruct (String.eqb_spec browser "firefox") as [E|_]; [contradiction|].
  destruct (existsb _ _); reflexivity.
Qed.

Lemma browser_session_record (browsers : list string) (probe : json -> browser_probe)
    (timestamp : string) (client session : json) :
  browser_session browsers probe timestamp client = inr (Some session) ->
  exists app_class pid,
    In app_class browsers /\
    field "class" session = JStr app_class /\
    json_at session ["session_data"]
      = Some (JDict (_capture_browser_session app_class (probe pid))).
Proof.
  unfold browser_session, get, get_default, py_lower.
  destruct client as [| | | | |d]; try discriminate. cbn [bind ret].
  destruct (match lookup "class" d with Some v => v | None => JStr EmptyString end)
    as [| | |s| |]; try discriminate.
  cbn [bind ret]. destruct (existsb (String.eqb (lower s)) browsers) eqn:Hin;
    [|discriminate].
  destruct (match lookup "workspace" d with Some v => v | None => JDict [] end)
    as [| | | | |w]; try discriminate.
  cbn [bind ret]. intro H. injection H as <-.
  apply existsb_exists in Hin. destruct Hin as (b & Hb & Heq).
  apply String.eqb_eq in Heq. subst b.
  eexists (lower s), _. split; [exact Hb|]. split; reflexivity.
Qed.

Lemma browser_sessions_from_records (browsers : list string)
    (probe : json -> browser_probe) (clock : nat -> string) (clients : list json) :
  forall i sessions session,
    browser_sessions_from browsers probe clock i clients = inr sessions ->
    In session sessions ->
    exists timestamp client,
      In client clients /\
      browser_session browsers probe timestamp client = inr (Some session).
Proof.
  induction clients as [|c r IH]; intros i sessions session H Hin; cbn in H.
  - injection H as <-. destruct Hin.
  - destruct (browser_session browsers probe (clock i) c) as [e|o] eqn:Hc;
      [discriminate|]. cbn [bind] in H.
    destruct (browser_sessions_from browsers probe clock (Datatypes.S i) r)
      as [e|rest] eqn:Hr; [discriminate|]. cbn [bind ret] in H. injection H as <-.
    assert (Hrest : In session rest ->
                    exists timestamp client,
                      In client (c :: r) /\
                      browser_session browsers probe timestamp client
                      = inr (Some session)).
    { intro Hs. destruct (IH _ _ _ Hr Hs) as (t & cl & Hcl & Hb).
      exists t, cl. split; [now right|exact Hb]. }
    destruct o as [s|]; [|now apply Hrest].
    destruct Hin as [<-|Hs]; [|now apply Hrest].
    exists (clock i), c. split; [now left|exact Hc].
Qed.

(** X21: every record that [capture_browser_sessions] returns for a
    browser other than Firefox carries a session file that is [None], so
    once the record is an object of the store, whatever else the store
    holds, the optimisation of that session raises [TypeError]. *)
Theorem captured_browser_session_breaks_optimize (browsers : list string)
    (probe : json -> browser_probe) (clock : nat -> string) (q_clients : json)
    (sessions : list json) (session : json) (h : Heap.heap) :
  capture_browser_sessions browsers probe clock q_clients = inr sessions ->
  In session sessions ->
  field "class" session <> JStr "firefox" ->
  json_at session ["session_data"; "session_file"] = Some JNull /\
  exists v h',
    Heap.build session h = inr (v, h') /\
    Heap.optimize_browser_session v h' = inl TypeError.
Proof.
  intros Hcap Hin Hclass. unfold capture_browser_sessions in Hcap.
  destruct (py_iter (py_or q_clients (JList []))) as [e|cs]; [discriminate|].
  cbn [bind] in Hcap.
  destruct (browser_sessions_from_records _ _ _ _ _ _ _ Hcap Hin)
    as (timestamp & client & _ & Hrec).
  destruct (browser_session_record _ _ _ _ _ Hrec) as (app_class & pid & _ & Hc & Hsd).
  assert (Hfile : json_at session ["session_data"; "session_file"] = Some JNull).
  { cbn [json_at] in *. destruct session as [| | | | |d]; try discriminate.
    destruct (lookup "session_data" d) as [x|]; [|discriminate].
    injection Hsd as ->. rewrite captured_session_file; [reflexivity|].
    intros ->. apply Hclass. exact Hc. }
  split; [exact Hfile|].
  destruct (build_spec session h) as (v & ext & Hb & Hpaths).
  destruct (Hpaths _ _ Hfile) as (w & Hf & Hw). cbn [stands_for] in Hw. subst w.
  exists v, (h ++ ext)%list. split; [exact Hb|].
  exact (optimize_browser_session_store _ _ _ Hf).
Qed.

Lemma captured_browser_session_breaks_optimize_witness :
  let clients := JList [ JDict [("class", JStr "kitty"); ("pid", JInt 7)];
                         JDict [("class", JStr "Chromium"); ("pid", JInt 8);
                                ("address", JStr "0x2")] ] in
  let probe := fun _ : json => mkBrowserProbe None false (JDict []) in
  let clock := fun _ : nat => "2024-01-01T00:00:00" in
  exists session v h',
    capture_browser_sessions ["firefox"; "chrome"; "chromium"; "brave"] probe clock
      clients = inr [session] /\
    Heap.build session [] = inr (v, h') /\
    Heap.optimize_browser_session v h' = inl TypeError.
Proof.
  intros clients probe clock.
  eexists.
  destruct (captured_browser_session_breaks_optimize
              ["firefox"; "chrome"; "chromium"; "brave"] probe clock clients
              _ _ [] eq_refl (or_introl eq_refl))
    as (_ & v & h' & Hb & Ho); [discriminate|].
  exists v, h'. split; [reflexivity|]. split; [exact Hb|exact Ho].
Defined.

(** ** Event callbacks *)

Lemma until_raise_app (a b : list call) :
  until_raise (a ++ b) =
  if forallb returns a then (a ++ until_raise b)%list else until_raise a.
Proof.
  induction a as [|c a IH]; [reflexivity|].
  cbn [app until_raise forallb]. destruct (returns c); cbn [andb]; [|reflexivity].
  rewrite IH. now destruct (forallb returns a).
Qed.

Lemma notify_calls (m : method) (arg : json) (cbs : list callback) :
  notify m arg cbs =
  (until_raise (calls_to m arg cbs), forallb returns (calls_to m arg cbs)).
Proof.
  unfold calls_to. induction cbs as [|cb r IH]; [reflexivity|].
  cbn [notify filter]. destruct (handler cb m) as [f|] eqn:Hh; [|exact IH].
  assert (Hr : returns (mkCall cb m arg)
               = match f arg with inr _ => true | inl _ => false end).
  { unfold returns. cbn [receiver called]. now rewrite Hh. }
  cbn [map until_raise forallb]. rewrite Hr.
  destruct (f arg); [reflexivity|].
  rewrite IH. reflexivity.
Qed.

Lemma and_then_calls (a b : list call) :
  and_then (until_raise a, forallb returns a) (until_raise b, forallb returns b) =
  (until_raise (a ++ b), forallb returns (a ++ b)).
Proof.
  unfold and_then. cbn [fst snd]. rewrite until_raise_app, forallb_app.
  destruct (forallb returns a) eqn:E; cbn [andb]; [|reflexivity].
  f_equal. f_equal.
  clear - E. induction a as [|c a IH]; [reflexivity|].
  cbn [forallb until_raise] in *. apply andb_true_iff in E. destruct E as [-> E].
  now rewrite IH.
Qed.

Lemma handle_workspace_changes_calls (cbs : list callback) (workspaces : list json) :
  Forall is_object workspaces ->
  let due := flat_map (fun w => calls_to on_workspace_focus w cbs)
                      (filter is_focused workspaces) in
  _handle_workspace_changes cbs workspaces = (until_raise due, forallb returns due).
Proof.
  cbv zeta. induction 1 as [|w r [d ->] _ IH]; [reflexivity|].
  cbn [_handle_workspace_changes get_default ret filter].
  change (truthy match lookup "focused" d with
                 | Some v => v
                 | None => JBool false
                 end) with (is_focused (JDict d)).
  rewrite IH. destruct (is_focused (JDict d)); cbn [flat_map].
  - rewrite notify_calls. apply and_then_calls.
  - apply (and_then_calls []).
Qed.

(** X22: a poll calls the handlers in a fixed order: for every focused
    workspace every callback that handles workspace focus, then every
    callback that handles the active window, then every callback that
    handles the clients, where a topic that [hyprctl] leaves unanswered or
    empty is skipped.  The first handler that raises ends the poll: no
    handler due after it is called, for this topic or for a later one. *)
Theorem poll_calls (cbs : list callback) (workspaces : list json)
    (q_activewindow q_clients : json) :
  Forall is_object workspaces ->
  _monitor_hyprland_events cbs (JList workspaces) q_activewindow q_clients =
  until_raise (due_calls cbs workspaces q_activewindow q_clients).
Proof.
  intro Hws. unfold _monitor_hyprland_events, due_calls,
    _handle_active_window_change, _handle_client_changes.
  set (A := flat_map _ _).
  assert (H1 : (if truthy (JList workspaces)
                then match py_iter (JList workspaces) with
                     | inl _ => ([], false)
                     | inr ws => _handle_workspace_changes cbs ws
                     end
                else ([], true)) = (until_raise A, forallb returns A)).
  { destruct workspaces as [|w r]; [reflexivity|].
    cbn [truthy py_iter ret]. now apply handle_workspace_changes_calls. }
  rewrite H1.
  set (B := if truthy q_activewindow
            then calls_to on_active_window_change q_activewindow cbs else []).
  set (C := if truthy q_clients then calls_to on_client_changes q_clients cbs else []).
  assert (H2 : (if truthy q_activewindow
                then notify on_active_window_change q_activewindow cbs
                else ([], true)) = (until_raise B, forallb returns B)).
  { unfold B. destruct (truthy q_activewindow); [apply notify_calls|reflexivity]. }
  assert (H3 : (if truthy q_clients
                then notify on_client_changes q_clients cbs
                else ([], true)) = (until_raise C, forallb returns C)).
  { unfold C. destruct (truthy q_clients); [apply notify_calls|reflexivity]. }
  rewrite H2, H3, !and_then_calls. reflexivity.
Qed.

Lemma poll_calls_witness :
  let quiet := mkCallback 1 (fun _ => Some (fun _ => inr tt)) in
  let broken := mkCallback 2 (fun m => match m with
                                        | on_workspace_focus => Some (fun _ => inl KeyError)
                                        | _ => None
                                        end) in
  let focused := JDict [("id", JInt 1); ("focused", JBool true)] in
  _monitor_hyprland_events [quiet; broken; quiet]
    (JList [JDict [("id", JInt 2)]; focused]) (JDict [("address", JStr "0x1")])
    (JList [JDict [("address", JStr "0x1")]])
  = [ mkCall quiet on_workspace_focus focused; mkCall broken on_workspace_focus focused ].
Proof.
  intros quiet broken focused.
  rewrite poll_calls; [reflexivity|].
  repeat constructor; eexists; reflexivity.
Defined.

Lemma remove_first_added (cb : callback) (cbs : list callback) :
  existsb (fun x => same_callback x cb) cbs = false ->
  remove_first cb (cbs ++ [cb]) = cbs.
Proof.
  induction cbs as [|x r IH]; cbn [existsb app remove_first]; intro H.
  - unfold same_callback. now rewrite Nat.eqb_refl.
  - apply orb_false_iff in H. destruct H as [Hx Hr]. rewrite Hx. now rewrite IH.
Qed.

Lemma remove_first_registered (cb : callback) (cbs : list callback) :
  existsb (fun x => same_callback x cb) cbs = true ->
  remove_first cb (cbs ++ [cb]) = (remove_first cb cbs ++ [cb])%list /\
  Datatypes.S (List.length (remove_first cb cbs)) = List.length cbs.
Proof.
  induction cbs as [|x r IH]; cbn [existsb app remove_first]; [discriminate|].
  destruct (same_callback x cb); cbn [orb]; [split; reflexivity|].
  intro H. destruct (IH H) as [E L]. cbn [app List.length]. now rewrite E, L.
Qed.

(** X23: removing a callback undoes adding it when it was not registered
    before.  When it was, adding it registers it a second time, and
    removing it once takes the earlier registration away: the callback
    stays registered, now last in line, and as many callbacks are
    registered as before. *)
Theorem remove_after_add (cb : callback) (cbs : list callback) :
  let after := remove_event_callback cb (add_event_callback cb cbs) in
  if existsb (fun x => same_callback x cb) cbs
  then after = (remove_first cb cbs ++ [cb])%list /\
       List.length after = List.length cbs
  else after = cbs.
Proof.
  cbv zeta. unfold remove_event_callback, add_event_callback.
  assert (Hin : existsb (fun x => same_callback x cb) (cbs ++ [cb]) = true).
  { rewrite existsb_app. cbn [existsb]. unfold same_callback at 2.
    rewrite Nat.eqb_refl. apply orb_true_iff. right. reflexivity. }
  rewrite Hin.
  destruct (existsb (fun x => same_callback x cb) cbs) eqn:E.
  - destruct (remove_first_registered cb cbs E) as [-> L].
    split; [reflexivity|]. rewrite length_app. cbn [List.length]. lia.
  - now apply remove_first_added.
Qed.

(** ** Two readings of the environment of one process *)

Lemma lookup_specific (terminal : string) (kitty tmux : result json) (d : items) :
  lookup "environment"
    (if String.eqb terminal "kitty" then
       match kitty with
       | inr k => setitem "kitty_session" k d
       | inl _ => d
       end
     else if String.eqb terminal "tmux" then
       match tmux with
       | inr t => setitem "tmux_session" t d
       | inl _ => d
       end
     else d)
  = lookup "environment" d.
Proof.
  destruct (String.eqb terminal "kitty"); [destruct kitty|];
    [reflexivity|now rewrite lookup_setitem_other by discriminate|].
  destruct (String.eqb terminal "tmux"); [destruct tmux|];
    [reflexivity|now rewrite lookup_setitem_other by discriminate|reflexivity].
Qed.

(** X24: a terminal session records the environment of its process twice,
    read from the same file by two functions.  When the file can be read,
    the two records hold the same variables if the [cwd] link of the
    process can be read; if reading the link fails with [OSError], the
    session data holds the variables and the environment record holds
    none. *)
Theorem two_readings_of_environ (terminal : string) (pid : json) (proc : proc_dir)
    (kitty tmux : result json) (env_data : string) :
  truthy pid = true ->
  environ_exists proc = true ->
  read_environ proc = inr env_data ->
  let session_data := _capture_terminal_session terminal pid proc kitty tmux in
  let environment := _capture_process_environment pid proc in
  let variables := strings_json (env_vars_of env_data) in
  match readlink_cwd proc with
  | inr _ =>
      lookup "environment" session_data = Some variables /\
      lookup "environment_variables" environment = Some variables
  | inl OSError =>
      lookup "environment" session_data = Some variables /\
      lookup "environment_variables" environment = Some (JDict [])
  | inl _ =>
      lookup "environment" session_data = Some (JDict []) /\
      lookup "environment_variables" environment = Some (JDict [])
  end.
Proof.
  intros Hpid Hex Hread. cbv zeta.
  unfold _capture_terminal_session, _capture_process_environment.
  rewrite Hpid, Hex, Hread. cbn [negb andb].
  destruct (readlink_cwd proc) as [[| | |]|cwd];
    try (split; reflexivity);
    (split; [rewrite lookup_specific; reflexivity|reflexivity]).
Qed.

Lemma two_readings_of_environ_witness :
  let proc := mkProcDir (inl OSError) true
                        (inr (environ_text [("HOME", "/root"); ("TERM", "xterm")])) in
  lookup "environment"
    (_capture_terminal_session "kitty" (JInt 42) proc (inr (JDict [])) (inr (JDict [])))
  = Some (JDict [("HOME", JStr "/root"); ("TERM", JStr "xterm")]) /\
  lookup "environment_variables" (_capture_process_environment (JInt 42) proc)
  = Some (JDict []).
Proof.
  intro proc.
  exact (two_readings_of_environ "kitty" (JInt 42) proc (inr (JDict [])) (inr (JDict []))
           _ eq_refl eq_refl eq_refl).
Defined.

Lemma terminal_session_record (terminals : list string)
    (proc proc' : json -> proc_dir) (kitty tmux : json -> result json)
    (timestamp : string) (client session : json) :
  terminal_session terminals proc proc' kitty tmux timestamp client
    = inr (Some session) ->
  exists pid,
    json_at session ["environment"]
      = Some (JDict (_capture_process_environment pid (proc pid))).
Proof.
  unfold terminal_session, get, get_default, py_lower.
  destruct client as [| | | | |d]; try discriminate. cbn [bind ret].
  destruct (match lookup "class" d with Some v => v | None => JStr EmptyString end)
    as [| | |s| |]; try discriminate.
  cbn [bind ret]. destruct (existsb (String.eqb (lower s)) terminals); [|discriminate].
  destruct (match lookup "workspace" d with Some v => v | None => JDict [] end)
    as [| | | | |w]; try discriminate.
  cbn [bind ret]. intro H. injection H as <-. eexists. reflexivity.
Qed.

Lemma terminal_sessions_from_records (terminals : list string)
    (proc proc' : json -> proc_dir) (kitty tmux : json -> result json)
    (clock : nat -> string) (clients : list json) :
  forall i sessions session,
    terminal_sessions_from terminals proc proc' kitty tmux clock i clients
      = inr sessions ->
    In session sessions ->
    exists timestamp client,
      terminal_session terminals proc proc' kitty tmux timestamp client
        = inr (Some session).
Proof.
  induction clients as [|c r IH]; intros i sessions session H Hin; cbn in H.
  - injection H as <-. destruct Hin.
  - destruct (terminal_session terminals proc proc' kitty tmux (clock i) c)
      as [e|o] eqn:Hc; [discriminate|]. cbn [bind] in H.
    destruct (terminal_sessions_from terminals proc proc' kitty tmux clock
                (Datatypes.S i) r) as [e|rest] eqn:Hr; [discriminate|].
    cbn [bind ret] in H. injection H as <-.
    destruct o as [s|]; [|now apply (IH _ _ _ Hr)].
    destruct Hin as [<-|Hs]; [|now apply (IH _ _ _ Hr)].
    now exists (clock i), c.
Qed.

Lemma filter_essential_names (kvs : list (string * Heap.val)) :
  map fst (filter is_essential kvs) = filter is_essential_name (map fst kvs).
Proof.
  induction kvs as [|[k v] r IH]; [reflexivity|].
  cbn [filter map fst]. unfold is_essential at 1, is_essential_name at 1. cbn [fst].
  destruct (existsb (String.eqb k) Heap.essential_vars); cbn [map fst]; now rewrite IH.
Qed.

(** X25: every record that [capture_terminal_sessions] returns carries the
    variables of its process under [environment], so once the record is an
    object of the store, whatever else the store holds, the optimisation
    returns, and afterwards the record that was captured, not only the one
    returned, names the essential variables among them and no other. *)
Theorem captured_terminal_session_is_filtered (terminals : list string)
    (proc proc' : json -> proc_dir) (kitty tmux : json -> result json)
    (clock : nat -> string) (q_clients : json)
    (sessions : list json) (session : json) (h : Heap.heap) :
  capture_terminal_sessions terminals proc proc' kitty tmux clock q_clients
    = inr sessions ->
  In session sessions ->
  exists env_vars v h0 optimized h1 kept kvs,
    json_at session ["environment"; "environment_variables"]
      = Some (strings_json env_vars) /\
    Heap.build session h = inr (v, h0) /\
    Heap.optimize_terminal_session v h0 = inr (optimized, h1) /\
    optimized <> v /\
    follow h1 v ["environment"; "environment_variables"] = Some kept /\
    dict_at h1 kept = Some kvs /\
    map fst kvs = filter is_essential_name (map fst env_vars).
Proof.
  intros Hcap Hin. unfold capture_terminal_sessions in Hcap.
  destruct (py_iter (py_or q_clients (JList []))) as [e|cs]; [discriminate|].
  cbn [bind] in Hcap.
  destruct (terminal_sessions_from_records _ _ _ _ _ _ _ _ _ _ Hcap Hin)
    as (timestamp & client & Hrec).
  destruct (terminal_session_record _ _ _ _ _ _ _ _ Hrec) as (pid & Henv).
  destruct (process_environment_variables pid (proc pid)) as (env_vars & Hvars & _).
  assert (Hpath : json_at session ["environment"; "environment_variables"]
                  = Some (strings_json env_vars)).
  { cbn [json_at] in *. destruct session as [| | | | |d]; try discriminate.
    destruct (lookup "environment" d) as [x|]; [|discriminate].
    injection Henv as ->. now rewrite Hvars. }
  destruct (build_spec session h) as (v & ext & Hb & Hpaths).
  destruct (Hpaths _ _ Hpath) as (w & Hf & Hw).
  unfold strings_json in Hw. cbn [stands_for] in Hw.
  destruct Hw as (kvs0 & Hd & Hkeys). rewrite map_map in Hkeys. cbn [fst] in Hkeys.
  destruct (optimize_terminal_session_store _ _ _ _ Hf Hd)
    as (optimized & h1 & kept & Hrun & Hnew & Hin1 & _ & Hkept).
  exists env_vars, v, (h ++ ext)%list, optimized, h1, kept, (filter is_essential kvs0).
  repeat split; try assumption.
  now rewrite filter_essential_names, Hkeys.
Qed.

Lemma captured_terminal_session_is_filtered_witness :
  let clients := JList [ JDict [("class", JStr "Kitty"); ("pid", JInt 7)] ] in
  let proc := fun _ : json =>
    mkProcDir (inr "/home/user") true
              (inr (environ_text [("HOME", "/home/user"); ("LANG", "C")])) in
  let answer := fun _ : json => inr (JDict []) : result json in
  let clock := fun _ : nat => "2024-01-01T00:00:00" in
  exists session v h0 optimized h1 kept kvs,
    capture_terminal_sessions ["kitty"] proc proc answer answer clock clients
      = inr [session] /\
    Heap.build session [] = inr (v, h0) /\
    Heap.optimize_terminal_session v h0 = inr (optimized, h1) /\
    follow h1 v ["environment"; "environment_variables"] = Some kept /\
    dict_at h1 kept = Some kvs /\
    map fst kvs = ["HOME"].
Proof.
  intros clients proc answer clock.
  eexists.
  destruct (captured_terminal_session_is_filtered
              ["kitty"] proc proc answer answer clock clients _ _ []
              eq_refl (or_introl eq_refl))
    as (env_vars & v & h0 & optimized & h1 & kept & kvs
        & Hp & Hb & Ho & _ & Hf & Hd & Hk).
  exists v, h0, optimized, h1, kept, kvs.
  split; [reflexivity|]. repeat split; try assumption.
  vm_compute in Hp. injection Hp as Hp.
  assert (E : map fst env_vars = ["HOME"; "LANG"]).
  { clear - Hp. destruct env_vars as [|[k1 v1] [|[k2 v2] [|? ?]]]; try discriminate.
    cbn in Hp. injection Hp as <- _ <- _. reflexivity. }
  rewrite Hk, E. reflexivity.
Defined.

(** ** Merging configurations *)

Lemma merge_value_dicts (update base : items) :
  merge_value (JDict update) (Some (JDict base)) = JDict (_deep_merge base update).
Proof.
  cbn [merge_value]. f_equal. unfold _deep_merge.
  revert base. induction update as [|[k v] r IH]; intro base; [reflexivity|].
  cbn [fold_left fst snd]. apply IH.
Qed.

Lemma setitem_key_order {A : Type} (k : string) (v : A) (d : list (string * A)) :
  map fst (setitem k v d) =
  (map fst d ++ (if contains k d then [] else [k]))%list.
Proof.
  unfold contains. induction d as [|[k' v'] r IH]; cbn [setitem lookup map fst app].
  - reflexivity.
  - destruct (String.eqb_spec k k') as [->|_]; cbn [map fst app].
    + now rewrite app_nil_r.
    + f_equal. exact IH.
Qed.

Lemma contains_setitem {A : Type} (k k' : string) (v : A) (d : list (string * A)) :
  contains k (setitem k' v d) = String.eqb k k' || contains k d.
Proof.
  unfold contains. destruct (String.eqb_spec k k') as [->|Hne]; cbn [orb].
  - now rewrite lookup_setitem_same.
  - now rewrite lookup_setitem_other.
Qed.

Lemma deep_merge_spec (update : items) :
  forall base k,
    NoDup (map fst update) ->
    lookup k (_deep_merge base update) =
      match lookup k update with
      | Some value => Some (merge_value value (lookup k base))
      | None => lookup k base
      end /\
    map fst (_deep_merge base update) =
      (map fst base
       ++ filter (fun key => negb (contains key base)) (map fst update))%list.
Proof.
  unfold _deep_merge.
  induction update as [|[k0 v0] r IH]; intros base k Hnd.
  - cbn. now rewrite app_nil_r.
  - cbn [map fst] in Hnd. inversion Hnd as [|? ? Hnot Hnd']; subst.
    cbn [fold_left fst snd].
    set (base' := setitem k0 (merge_value v0 (lookup k0 base)) base).
    destruct (IH base' k Hnd') as [IHl IHk]. split.
    + rewrite IHl. cbn [lookup].
      destruct (String.eqb_spec k k0) as [->|Hne].
      * assert (Hr : lookup k0 r = None).
        { destruct (lookup k0 r) eqn:E; [|reflexivity].
          exfalso. apply Hnot. apply lookup_In in E.
          now apply (in_map fst) in E. }
        rewrite Hr. unfold base'. now rewrite lookup_setitem_same.
      * unfold base'. rewrite (lookup_setitem_other k k0) by exact Hne. reflexivity.
    + rewrite IHk. unfold base'. rewrite setitem_key_order, <- app_assoc. f_equal.
      cbn [map fst filter].
      assert (Hf : filter (fun key => negb (contains key
                      (setitem k0 (merge_value v0 (lookup k0 base)) base))) (map fst r)
                   = filter (fun key => negb (contains key base)) (map fst r)).
      { apply filter_ext_in. intros key Hin. rewrite contains_setitem.
        destruct (String.eqb_spec key k0) as [->|_]; [contradiction|reflexivity]. }
      rewrite Hf. destruct (contains k0 base); reflexivity.
Qed.

(** X26: merging [update] into [base] leaves under every key the value
    from [update] when it has one, except that two dictionaries under one
    key are merged in the same way; a key that only [base] has keeps its
    value.  The keys of [base] keep their order and the new keys follow
    in the order of [update]. *)
Theorem deep_merge_lookup (base update : items) (k : string) :
  NoDup (map fst update) ->
  lookup k (_deep_merge base update) =
    match lookup k update with
    | Some (JDict u) =>
        match lookup k base with
        | Some (JDict b) => Some (JDict (_deep_merge b u))
        | _ => Some (JDict u)
        end
    | Some value => Some value
    | None => lookup k base
    end /\
  map fst (_deep_merge base update) =
    (map fst base ++ filter (fun key => negb (contains key base)) (map fst update))%list.
Proof.
  intro Hnd. destruct (deep_merge_spec update base k Hnd) as [Hl Hk].
  split; [|exact Hk]. rewrite Hl.
  destruct (lookup k update) as [[| | | | |u]|]; try reflexivity.
  destruct (lookup k base) as [[| | | | |b]|]; try reflexivity.
  now rewrite merge_value_dicts.
Qed.

Lemma deep_merge_lookup_witness :
  lookup "core"
    (_deep_merge
       [ ("core", JDict [("auto_save_interval", JInt 300); ("debug_mode", JBool false)]);
         ("backup", JDict [("max_backups", JInt 10)]) ]
       [ ("core", JDict [("auto_save_interval", JInt 60)]) ])
  = Some (JDict [("auto_save_interval", JInt 60); ("debug_mode", JBool false)]).
Proof.
  refine (eq_trans (proj1 (deep_merge_lookup _ _ "core" _)) eq_refl).
  simpl. repeat (constructor; [simpl; intuition discriminate|]). constructor.
Defined.

Lemma setitem_same_value {A : Type} (k : string) (v : A) (d : list (string * A)) :
  lookup k d = Some v -> setitem k v d = d.
Proof.
  induction d as [|[k' v'] r IH]; cbn [lookup setitem]; [discriminate|].
  destruct (String.eqb_spec k k') as [->|_]; intro H.
  - now injection H as ->.
  - now rewrite IH.
Qed.

Lemma deep_merge_empty_base (update : items) :
  NoDup (map fst update) -> _deep_merge [] update = update.
Proof.
  intro Hnd. unfold _deep_merge.
  assert (H : forall acc,
             NoDup (map fst (acc ++ update)) ->
             fold_left (fun result kv =>
                          setitem (fst kv)
                                  (merge_value (snd kv) (lookup (fst kv) result)) result)
                       update acc = (acc ++ update)%list).
  { clear. induction update as [|[k v] r IH]; intros acc Hnd; cbn [fold_left fst snd].
    - now rewrite app_nil_r.
    - assert (Hfresh : ~ In k (map fst acc)).
      { rewrite map_app in Hnd. cbn [map fst] in Hnd. apply NoDup_remove_2 in Hnd.
        intro Hin. apply Hnd, in_or_app. now left. }
      assert (Hnone : lookup k acc = None).
      { destruct (lookup k acc) eqn:E; [|reflexivity].
        exfalso. apply Hfresh. apply lookup_In in E. now apply (in_map fst) in E. }
      rewrite Hnone, setitem_fresh by exact Hfresh.
      assert (Hv : merge_value v None = v) by now destruct v.
      rewrite Hv, IH; rewrite <- app_assoc; [reflexivity|exact Hnd]. }
  exact (H [] Hnd).
Qed.

(** A fold that stores under every key the value the key already holds. *)
Lemma fold_setitem_same (pairs : list (string * json)) (f : string * json -> option json -> json)
    (result : items) :
  (forall kv, In kv pairs -> lookup (fst kv) result = Some (f kv (lookup (fst kv) result))) ->
  fold_left (fun result kv => setitem (fst kv) (f kv (lookup (fst kv) result)) result)
            pairs result = result.
Proof.
  induction pairs as [|kv r IH]; intro H; [reflexivity|].
  cbn [fold_left]. rewrite setitem_same_value by (apply H; now left).
  apply IH. intros kv' Hin. apply H. now right.
Qed.

Lemma merge_twice (update : items) :
  NoDup (map fst update) ->
  Forall (fun kv => forall current,
            merge_value (snd kv) (Some (merge_value (snd kv) current))
            = merge_value (snd kv) current) update ->
  forall base, _deep_merge (_deep_merge base update) update = _deep_merge base update.
Proof.
  intros Hnd Hvals base.
  set (R := _deep_merge base update).
  unfold _deep_merge at 1.
  apply (fold_setitem_same update (fun kv current => merge_value (snd kv) current)).
  intros [k v] Hin. cbn [fst snd].
  destruct (deep_merge_spec update base k Hnd) as [Hl _]. fold R in Hl.
  rewrite (In_lookup k v update Hnd Hin) in Hl. rewrite Hl. f_equal. symmetry.
  rewrite Forall_forall in Hvals. apply (Hvals (k, v) Hin).
Qed.

Lemma merge_value_twice (value : json) :
  wf_json value ->
  forall current,
    merge_value value (Some (merge_value value current)) = merge_value value current.
Proof.
  induction value as [| b | z | s | l IH | d IH] using json_ind'; intros Hwf current;
    try reflexivity.
  apply wf_json_dict in Hwf. destruct Hwf as [Hnd Hvals].
  assert (Hall : Forall (fun kv => forall current,
                           merge_value (snd kv) (Some (merge_value (snd kv) current))
                           = merge_value (snd kv) current) d).
  { rewrite Forall_forall in *. intros kv Hin. apply IH; auto. }
  assert (Hself : _deep_merge d d = d).
  { transitivity (_deep_merge (_deep_merge [] d) d);
      [now rewrite deep_merge_empty_base|].
    rewrite merge_twice by assumption. now apply deep_merge_empty_base. }
  destruct current as [[| | | | |base]|];
    try (change (merge_value (JDict d) (Some (JDict d)) = JDict d);
         rewrite merge_value_dicts; now rewrite Hself).
  rewrite !merge_value_dicts. f_equal. now apply merge_twice.
Qed.

(** X27: merging the same update a second time changes nothing, at any
    depth: a configuration that already took an override is left as it is
    when the override is applied again. *)
Theorem deep_merge_idempotent (base update : items) :
  wf_json (JDict update) ->
  _deep_merge (_deep_merge base update) update = _deep_merge base update.
Proof.
  intro Hwf. apply wf_json_dict in Hwf. destruct Hwf as [Hnd Hvals].
  apply merge_twice; [exact Hnd|].
  rewrite Forall_forall in *. intros kv Hin. apply merge_value_twice. now apply Hvals.
Qed.

Lemma deep_merge_idempotent_witness :
  let base := [ ("core", JDict [("auto_save_interval", JInt 300)]); ("debug", JBool false) ] in
  let update := [ ("core", JDict [("auto_save_interval", JInt 60);
                                  ("extra", JDict [("a", JInt 1)])]);
                  ("backup", JDict [("max_backups", JInt 3)]) ] in
  _deep_merge (_deep_merge base update) update = _deep_merge base update.
Proof.
  intros base update. apply deep_merge_idempotent.
  cbn. repeat split; repeat (constructor; [simpl; intuition discriminate|]); constructor.
Defined.
